(** * GitHub access controller of the registry: a shallow embedding

    The development follows [registry/auth/github/access.go].  Go strings
    are byte strings and are modelled by [string] (a list of [ascii]
    bytes); [[]byte] is [list ascii]; [int64] is [Z] together with its
    range; the options map of the constructor is a [gmap].  Calls to the
    outside world (the HTTP client, the clock, the logger) are explicit:
    the world is a record of oracles and every operation returns, next to
    its result, the trace of the calls it made. *)

From Stdlib Require Import ZArith List String Ascii Bool Lia.
From stdpp Require Import base gmap strings list.

Import ListNotations.
Local Open Scope string_scope.
Local Open Scope Z_scope.
#[local] Arguments String.append !_ _ / : simpl nomatch.

(** ** Bytes *)

Definition byte_val (c : ascii) : Z := Z.of_N (N_of_ascii c).

(** Conversion [byte(v)] of an unsigned machine integer: the low 8 bits. *)
Definition to_byte (v : Z) : ascii := ascii_of_N (Z.to_N (Z.land v 255)).

Definition dquote : ascii := "034"%char.
Definition LF : ascii := "010"%char.
Definition CR : ascii := "013"%char.

Definition quoted (s : string) : string := String dquote (s ++ String dquote EmptyString).

Fixpoint bytes_of (s : string) : list ascii :=
  match s with
  | EmptyString => []
  | String c s' => c :: bytes_of s'
  end.

Fixpoint string_of (l : list ascii) : string :=
  match l with
  | [] => EmptyString
  | c :: l' => String c (string_of l')
  end.

Definition len (s : string) : Z := Z.of_nat (String.length s).

(** ** Package [strings] of the Go library, as far as the controller
    uses it.  [ReplaceAll] and [Split] are only ever called with a
    one-byte pattern, which is what is modelled. *)

Module strings.

Fixpoint HasPrefix (s prefix : string) {struct prefix} : bool :=
  match prefix, s with
  | EmptyString, _ => true
  | String p prefix', String c s' => Ascii.eqb c p && HasPrefix s' prefix'
  | String _ _, EmptyString => false
  end.

Fixpoint drop (n : nat) (s : string) : string :=
  match n, s with
  | O, _ => s
  | S n', String _ s' => drop n' s'
  | S _, EmptyString => EmptyString
  end.

Definition TrimPrefix (s prefix : string) : string :=
  if HasPrefix s prefix then drop (String.length prefix) s else s.

(** [TrimRight s cutset] for a one-byte cutset. *)
Fixpoint TrimRight (s : string) (cut : ascii) : string :=
  match s with
  | EmptyString => EmptyString
  | String c s' =>
      match TrimRight s' cut with
      | EmptyString => if Ascii.eqb c cut then EmptyString else String c EmptyString
      | t => String c t
      end
  end.

Fixpoint ReplaceAll (s : string) (old new : ascii) : string :=
  match s with
  | EmptyString => EmptyString
  | String c s' => String (if Ascii.eqb c old then new else c) (ReplaceAll s' old new)
  end.

(** [Split s sep] for a one-byte separator: the result is never empty,
    and has one more element than [s] has separators. *)
Fixpoint Split (s : string) (sep : ascii) : list string :=
  match s with
  | EmptyString => [EmptyString]
  | String c s' =>
      if Ascii.eqb c sep then EmptyString :: Split s' sep
      else match Split s' sep with
           | [] => [String c EmptyString]
           | p :: ps => String c p :: ps
           end
  end.

Fixpoint Contains (s : string) (c : ascii) : bool :=
  match s with
  | EmptyString => false
  | String d s' => Ascii.eqb d c || Contains s' c
  end.

End strings.

(** ** Errors

    Go's [error] values that occur in the package.  The two sentinels
    belong to package [registry/auth]; [errorString] and [wrapError] are
    what [fmt.Errorf] builds without and with a [%w] verb; the remaining
    constructors are errors of the library packages. *)

Inductive jsonErrorKind : Type :=
| SyntaxError
| UnmarshalTypeError.

Inductive error : Type :=
| ErrInvalidCredential
| ErrAuthenticationFailure
| errorString (text : string)
| wrapError (text : string) (err : error)
| CorruptInputError (offset : Z)
| jsonError (kind : jsonErrorKind)
| externalError (text : string).

(** ** Package [encoding/base64] *)

Module base64.

Record Encoding : Type := {
  encode : string;            (* the 64-byte alphabet *)
  padChar : option ascii      (* [None] is [NoPadding] *)
}.

Definition encodeStd : string :=
  "ABCDEFGHIJKLMNOPQRSTUVWXYZabcdefghijklmnopqrstuvwxyz0123456789+/".
Definition encodeURL : string :=
  "ABCDEFGHIJKLMNOPQRSTUVWXYZabcdefghijklmnopqrstuvwxyz0123456789-_".

Definition StdEncoding : Encoding := {| encode := encodeStd; padChar := Some "="%char |}.
Definition RawURLEncoding : Encoding := {| encode := encodeURL; padChar := None |}.

(** [enc.encode[i]] *)
Definition encode_at (enc : Encoding) (i : Z) : ascii :=
  match String.get (Z.to_nat i) (encode enc) with
  | Some c => c
  | None => "000"%char
  end.

Fixpoint index_of (c : ascii) (alphabet : string) (i : Z) : Z :=
  match alphabet with
  | EmptyString => 255
  | String a rest => if Ascii.eqb a c then i else index_of c rest (i + 1)
  end.

(** [enc.decodeMap[c]]: the position of [c] in the alphabet, [0xff] for
    a byte outside it. *)
Definition decodeMap (enc : Encoding) (c : ascii) : Z := index_of c (encode enc) 0.

Definition pad_bytes (enc : Encoding) (n : nat) : string :=
  match padChar enc with
  | Some p => string_of (repeat p n)
  | None => EmptyString
  end.

(** [EncodeToString]: three bytes give four alphabet bytes; a last block
    of one or two bytes gives two or three, then the padding if any. *)
Fixpoint EncodeToString (enc : Encoding) (src : list ascii) : string :=
  match src with
  | [] => EmptyString
  | [a] =>
      let val := Z.shiftl (byte_val a) 16 in
      String (encode_at enc (Z.land (Z.shiftr val 18) 63))
        (String (encode_at enc (Z.land (Z.shiftr val 12) 63))
           (pad_bytes enc 2))
  | [a; b] =>
      let val := Z.lor (Z.shiftl (byte_val a) 16) (Z.shiftl (byte_val b) 8) in
      String (encode_at enc (Z.land (Z.shiftr val 18) 63))
        (String (encode_at enc (Z.land (Z.shiftr val 12) 63))
           (String (encode_at enc (Z.land (Z.shiftr val 6) 63))
              (pad_bytes enc 1)))
  | a :: b :: c :: rest =>
      let val := Z.lor (Z.lor (Z.shiftl (byte_val a) 16) (Z.shiftl (byte_val b) 8))
                   (byte_val c) in
      String (encode_at enc (Z.land (Z.shiftr val 18) 63))
        (String (encode_at enc (Z.land (Z.shiftr val 12) 63))
           (String (encode_at enc (Z.land (Z.shiftr val 6) 63))
              (String (encode_at enc (Z.land val 63))
                 (EncodeToString enc rest))))
  end.

(** The bytes a quantum of [dlen] six-bit values yields ([dlen - 1] of
    them); the encodings used here are not strict, so unused low bits of
    a short quantum are dropped without a check. *)
Definition quantum_bytes (dbuf : list Z) (dlen : nat) : list ascii :=
  let d i := nth i dbuf 0 in
  let val := Z.lor (Z.lor (Z.lor (Z.shiftl (d 0%nat) 18) (Z.shiftl (d 1%nat) 12))
                      (Z.shiftl (d 2%nat) 6)) (d 3%nat) in
  firstn (dlen - 1)
    [to_byte (Z.shiftr val 16); to_byte (Z.shiftr val 8); to_byte (Z.shiftr val 0)].

Definition is_newline (c : ascii) : bool := Ascii.eqb c LF || Ascii.eqb c CR.

(** Skips newlines: how many were skipped, and what is left. *)
Fixpoint skip_newlines (src : string) : Z * string :=
  match src with
  | String c rest =>
      if is_newline c then let '(k, r) := skip_newlines rest in (k + 1, r)
      else (0, src)
  | EmptyString => (0, src)
  end.

(** End of a quantum that was closed by padding: newlines may follow,
    anything else is trailing garbage; the bytes are delivered all the
    same. *)
Definition after_padding (dbuf : list Z) (si : Z) (rest : string)
  : list ascii * option error :=
  let '(k, r) := skip_newlines rest in
  (quantum_bytes dbuf (List.length dbuf),
   match r with
   | EmptyString => None
   | String _ _ => Some (CorruptInputError (si + k))
   end).

(** The loop of [Decode] with [decodeQuantum] inlined: [si] is the input
    position, [dbuf] the six-bit values of the current quantum read so
    far.  The result is [dst[:n]] and the error. *)
Fixpoint decode_from (enc : Encoding) (src : string) (si : Z) (dbuf : list Z)
  : list ascii * option error :=
  match src with
  | EmptyString =>
      match List.length dbuf with
      | O => ([], None)
      | 1%nat => ([], Some (CorruptInputError (si - 1)))
      | j =>
          match padChar enc with
          | Some _ => ([], Some (CorruptInputError (si - Z.of_nat j)))
          | None => (quantum_bytes dbuf j, None)
          end
      end
  | String c rest =>
      let si := si + 1 in
      let out := decodeMap enc c in
      if negb (out =? 255) then
        let dbuf := (dbuf ++ [out])%list in
        if (List.length dbuf =? 4)%nat then
          let '(bs, e) := decode_from enc rest si [] in
          ((quantum_bytes dbuf 4 ++ bs)%list, e)
        else decode_from enc rest si dbuf
      else if is_newline c then decode_from enc rest si dbuf
      else if negb (match padChar enc with Some p => Ascii.eqb c p | None => false end)
      then ([], Some (CorruptInputError (si - 1)))
      else
        match List.length dbuf with
        | O | 1%nat => ([], Some (CorruptInputError (si - 1)))
        | 2%nat =>
            let '(k, r) := skip_newlines rest in
            let si := si + k in
            match r with
            | EmptyString => ([], Some (CorruptInputError si))
            | String c2 r2 =>
                if negb (match padChar enc with Some p => Ascii.eqb c2 p | None => false end)
                then ([], Some (CorruptInputError (si - 1)))
                else after_padding dbuf (si + 1) r2
            end
        | _ => after_padding dbuf si rest
        end
  end.

Definition DecodeString (enc : Encoding) (s : string) : list ascii * option error :=
  decode_from enc s 0 [].

End base64.

(** ** [base64URLDecode] *)

Definition base64URLDecode (s : string) : list ascii * option error :=
  (* Add padding if necessary *)
  let s :=
    match len s mod 4 with
    | 2 => s ++ "=="
    | 3 => s ++ "="
    | _ => s
    end in
  (* Replace URL-safe characters *)
  let s := strings.ReplaceAll s "-" "+" in
  let s := strings.ReplaceAll s "_" "/" in
  (* Use standard base64 decoding *)
  base64.DecodeString base64.StdEncoding s.

(** ** Package [unicode/utf8]: where a well-formed multi-byte sequence
    starts, and how a code point is written. *)

Module utf8.

Definition between (lo : Z) (c : ascii) (hi : Z) : bool :=
  (lo <=? byte_val c) && (byte_val c <=? hi).

Definition cont (c : ascii) : bool := between 128 c 191.

(** For a leading byte: the length of its sequence and the range its
    second byte must lie in ([first] and [acceptRanges] of the library). *)
Definition lead (c : ascii) : option (nat * Z * Z) :=
  let b := byte_val c in
  if (194 <=? b) && (b <=? 223) then Some (2%nat, 128, 191)
  else if b =? 224 then Some (3%nat, 160, 191)
  else if b =? 237 then Some (3%nat, 128, 159)
  else if (225 <=? b) && (b <=? 239) then Some (3%nat, 128, 191)
  else if b =? 240 then Some (4%nat, 144, 191)
  else if (241 <=? b) && (b <=? 243) then Some (4%nat, 128, 191)
  else if b =? 244 then Some (4%nat, 128, 143)
  else None.

(** Length of the well-formed multi-byte sequence at the head of [s];
    [None] where [DecodeRune] answers [(RuneError, 1)]. *)
Definition rune_len (s : string) : option nat :=
  match s with
  | String c (String c1 r1) =>
      match lead c with
      | Some (n, lo, hi) =>
          if between lo c1 hi then
            match n, r1 with
            | 2%nat, _ => Some 2%nat
            | 3%nat, String c2 _ => if cont c2 then Some 3%nat else None
            | 4%nat, String c2 (String c3 _) =>
                if cont c2 && cont c3 then Some 4%nat else None
            | _, _ => None
            end
          else None
      | None => None
      end
  | _ => None
  end.

Fixpoint take (n : nat) (s : string) : string :=
  match n, s with
  | S n', String c s' => String c (take n' s')
  | _, _ => EmptyString
  end.

(** [ValidString]: every byte is ASCII or belongs to a well-formed
    sequence. *)
Fixpoint valid_from (fuel : nat) (s : string) : bool :=
  match fuel, s with
  | _, EmptyString => true
  | O, _ => false
  | S fuel, String c rest =>
      if byte_val c <? 128 then valid_from fuel rest
      else match rune_len s with
           | Some n => valid_from fuel (strings.drop n s)
           | None => false
           end
  end.

Definition ValidString (s : string) : bool := valid_from (String.length s) s.

(** [EncodeRune] for a code point that is neither a surrogate nor out
    of range. *)
Definition EncodeRune (r : Z) : string :=
  if r <? 128 then String (to_byte r) EmptyString
  else if r <? 2048 then
    String (to_byte (Z.lor 192 (Z.shiftr r 6)))
      (String (to_byte (Z.lor 128 (Z.land r 63))) EmptyString)
  else if r <? 65536 then
    String (to_byte (Z.lor 224 (Z.shiftr r 12)))
      (String (to_byte (Z.lor 128 (Z.land (Z.shiftr r 6) 63)))
         (String (to_byte (Z.lor 128 (Z.land r 63))) EmptyString))
  else
    String (to_byte (Z.lor 240 (Z.shiftr r 18)))
      (String (to_byte (Z.lor 128 (Z.land (Z.shiftr r 12) 63)))
         (String (to_byte (Z.lor 128 (Z.land (Z.shiftr r 6) 63)))
            (String (to_byte (Z.lor 128 (Z.land r 63))) EmptyString))).

Definition RuneError : Z := 65533.

End utf8.

(** ** Package [strconv]: decimal integers *)

Module strconv.

Definition digit (d : Z) : ascii := to_byte (48 + d).

Definition is_digit (c : ascii) : bool := utf8.between 48 c 57.

(** The decimal digits of [n > 0], most significant first, put in front
    of [acc]. *)
Fixpoint digits (fuel : nat) (n : Z) (acc : string) : string :=
  match fuel with
  | O => acc
  | S fuel =>
      if n <? 10 then String (digit n) acc
      else digits fuel (n / 10) (String (digit (n mod 10)) acc)
  end.

Definition FormatUint (n : Z) : string :=
  if n =? 0 then "0" else digits (S (Z.to_nat (Z.log2 n))) n EmptyString.

(** [FormatInt i 10] *)
Definition FormatInt (i : Z) : string :=
  if i <? 0 then String "-" (FormatUint (- i)) else FormatUint i.

(** Value of a run of decimal digits; [None] for another byte. *)
Fixpoint parse_digits (s : string) (acc : Z) : option Z :=
  match s with
  | EmptyString => Some acc
  | String c rest =>
      if is_digit c then parse_digits rest (acc * 10 + (byte_val c - 48)) else None
  end.

Definition parse_unsigned (s : string) : option Z :=
  match s with
  | EmptyString => None
  | _ => parse_digits s 0
  end.

(** [ParseInt s 10 64]: an optional sign, at least one digit, nothing
    else, and the value must fit 64 bits. *)
Definition ParseInt (s : string) : option Z :=
  let signed :=
    match s with
    | String c rest =>
        if Ascii.eqb c "-" then option_map Z.opp (parse_unsigned rest)
        else if Ascii.eqb c "+" then parse_unsigned rest
        else parse_unsigned s
    | EmptyString => None
    end in
  match signed with
  | Some v => if (- 2 ^ 63 <=? v) && (v <=? 2 ^ 63 - 1) then Some v else None
  | None => None
  end.

End strconv.

Definition int64 (z : Z) : Prop := - 2 ^ 63 <= z <= 2 ^ 63 - 1.

(** ** Package [encoding/json], for structs whose fields are strings and
    64-bit integers *)

Module json.

#[warnings="-register-all"]
Inductive Value : Type :=
| Null
| Bool (b : bool)
| Number (literal : string)
| Str (s : string)
| Array (elements : list Value)
| Object (members : list (string * Value)).

(** *** Encoding *)

Definition hex : string := "0123456789abcdef".

Definition hex_at (i : Z) : ascii :=
  match String.get (Z.to_nat i) hex with
  | Some c => c
  | None => "000"%char
  end.

(** [htmlSafeSet]: the ASCII bytes that are written as they are. *)
Definition htmlSafe (c : ascii) : bool :=
  utf8.between 32 c 127
  && negb (Ascii.eqb c dquote || Ascii.eqb c "&" || Ascii.eqb c "<"
           || Ascii.eqb c ">" || Ascii.eqb c "\").

Definition esc_u (digits : string) : string := String "\" (String "u" digits).

(** How [appendString] writes an ASCII byte. *)
Definition escape_byte (c : ascii) : string :=
  if htmlSafe c then String c EmptyString
  else if Ascii.eqb c "\" || Ascii.eqb c dquote then String "\" (String c EmptyString)
  else if Ascii.eqb c "008" then "\b"
  else if Ascii.eqb c "012" then "\f"
  else if Ascii.eqb c "010" then "\n"
  else if Ascii.eqb c "013" then "\r"
  else if Ascii.eqb c "009" then "\t"
  else esc_u "00" ++ String (hex_at (Z.shiftr (byte_val c) 4))
                   (String (hex_at (Z.land (byte_val c) 15)) EmptyString).

Definition LINE_SEPARATOR : string := utf8.EncodeRune 8232.
Definition PARAGRAPH_SEPARATOR : string := utf8.EncodeRune 8233.

(** The body of [appendString] (with HTML escaping, as [Marshal] sets
    it): ill-formed bytes become the replacement character, U+2028 and
    U+2029 are escaped, every other multi-byte sequence is copied. *)
Fixpoint escape_from (fuel : nat) (src : string) : string :=
  match fuel, src with
  | S fuel, String c rest =>
      if byte_val c <? 128 then escape_byte c ++ escape_from fuel rest
      else
        match utf8.rune_len src with
        | None => esc_u "fffd" ++ escape_from fuel rest
        | Some n =>
            if String.eqb (utf8.take n src) LINE_SEPARATOR then
              esc_u "2028" ++ escape_from fuel (strings.drop n src)
            else if String.eqb (utf8.take n src) PARAGRAPH_SEPARATOR then
              esc_u "2029" ++ escape_from fuel (strings.drop n src)
            else utf8.take n src ++ escape_from fuel (strings.drop n src)
        end
  | _, _ => EmptyString
  end.

Definition appendString (src : string) : string :=
  quoted (escape_from (String.length src) src).

(** An object with the given members, in order, as [Marshal] writes a
    struct. *)
Fixpoint join_members (ms : list (string * string)) : string :=
  match ms with
  | [] => EmptyString
  | [(k, v)] => quoted k ++ ":" ++ v
  | (k, v) :: ms' => quoted k ++ ":" ++ v ++ "," ++ join_members ms'
  end.

Definition encode_struct (ms : list (string * string)) : list ascii :=
  bytes_of ("{" ++ join_members ms ++ "}").

(** *** Decoding: the syntax *)

Definition is_space (c : ascii) : bool :=
  Ascii.eqb c " " || Ascii.eqb c "009" || Ascii.eqb c "013" || Ascii.eqb c "010".

Fixpoint skip_ws (s : string) : string :=
  match s with
  | String c rest => if is_space c then skip_ws rest else s
  | EmptyString => s
  end.

Definition hex_val (c : ascii) : option Z :=
  if utf8.between 48 c 57 then Some (byte_val c - 48)
  else if utf8.between 97 c 102 then Some (byte_val c - 97 + 10)
  else if utf8.between 65 c 70 then Some (byte_val c - 65 + 10)
  else None.

(** Four hexadecimal digits at the head of [s]. *)
Definition hex4 (s : string) : option (Z * string) :=
  match s with
  | String h1 (String h2 (String h3 (String h4 rest))) =>
      match hex_val h1, hex_val h2, hex_val h3, hex_val h4 with
      | Some a, Some b, Some c, Some d =>
          Some (((a * 16 + b) * 16 + c) * 16 + d, rest)
      | _, _, _, _ => None
      end
  | _ => None
  end.

(** [getu4]: a [\uXXXX] escape at the head of [s]. *)
Definition getu4 (s : string) : option (Z * string) :=
  match s with
  | String b (String u rest) =>
      if Ascii.eqb b "\" && Ascii.eqb u "u" then hex4 rest else None
  | _ => None
  end.

Definition simple_escape (e : ascii) : option ascii :=
  if Ascii.eqb e dquote || Ascii.eqb e "\" || Ascii.eqb e "/" then Some e
  else if Ascii.eqb e "b" then Some "008"%char
  else if Ascii.eqb e "f" then Some "012"%char
  else if Ascii.eqb e "n" then Some "010"%char
  else if Ascii.eqb e "r" then Some "013"%char
  else if Ascii.eqb e "t" then Some "009"%char
  else None.

Definition push (bs : string) (r : option (string * string)) : option (string * string) :=
  match r with
  | Some (s, rest) => Some (bs ++ s, rest)
  | None => None
  end.

(** A string literal after its opening quote: the unquoted value and
    the input after the closing quote.  Scanning and unquoting are done
    in one pass: control bytes and bad escapes are syntax errors, a
    surrogate escape without its partner and every ill-formed byte
    become the replacement character. *)
Fixpoint string_from (fuel : nat) (s : string) : option (string * string) :=
  match fuel, s with
  | S fuel, String c rest =>
      if Ascii.eqb c dquote then Some (EmptyString, rest)
      else if Ascii.eqb c "\" then
        match rest with
        | String e rest1 =>
            if Ascii.eqb e "u" then
              match hex4 rest1 with
              | Some (rr, rest2) =>
                  if (55296 <=? rr) && (rr <? 57344) then
                    match getu4 rest2 with
                    | Some (rr1, rest3) =>
                        if (rr <? 56320) && (56320 <=? rr1) && (rr1 <? 57344) then
                          push (utf8.EncodeRune
                                  (Z.lor (Z.shiftl (rr - 55296) 10) (rr1 - 56320) + 65536))
                            (string_from fuel rest3)
                        else push (utf8.EncodeRune utf8.RuneError) (string_from fuel rest2)
                    | None => push (utf8.EncodeRune utf8.RuneError) (string_from fuel rest2)
                    end
                  else push (utf8.EncodeRune rr) (string_from fuel rest2)
              | None => None
              end
            else
              match simple_escape e with
              | Some b => push (String b EmptyString) (string_from fuel rest1)
              | None => None
              end
        | EmptyString => None
        end
      else if byte_val c <? 32 then None
      else if byte_val c <? 128 then push (String c EmptyString) (string_from fuel rest)
      else
        match utf8.rune_len s with
        | Some n => push (utf8.take n s) (string_from fuel (strings.drop n s))
        | None => push (utf8.EncodeRune utf8.RuneError) (string_from fuel rest)
        end
  | _, _ => None
  end.

Definition string_literal (s : string) : option (string * string) :=
  string_from (String.length s) s.

Fixpoint span_digits (s : string) : string * string :=
  match s with
  | String c rest =>
      if strconv.is_digit c then let '(d, r) := span_digits rest in (String c d, r)
      else (EmptyString, s)
  | EmptyString => (EmptyString, s)
  end.

(** A number literal: an optional minus sign; a zero, or a digit other
    than zero and then any digits; optionally a point and at least one
    digit; optionally an exponent mark, a sign and at least one digit. *)
Definition number_literal (s : string) : option (string * string) :=
  let '(sign, s1) :=
    match s with
    | String c r => if Ascii.eqb c "-" then ("-", r) else (EmptyString, s)
    | EmptyString => (EmptyString, s)
    end in
  let int_part :=
    match s1 with
    | String c r =>
        if Ascii.eqb c "0" then Some ("0", r)
        else if strconv.is_digit c then let '(d, r') := span_digits r in Some (String c d, r')
        else None
    | EmptyString => None
    end in
  match int_part with
  | None => None
  | Some (ip, s2) =>
      let frac :=
        match s2 with
        | String c r =>
            if Ascii.eqb c "." then
              match span_digits r with
              | (EmptyString, _) => None
              | (d, r') => Some (String c d, r')
              end
            else Some (EmptyString, s2)
        | EmptyString => Some (EmptyString, s2)
        end in
      match frac with
      | None => None
      | Some (fp, s3) =>
          let exponent :=
            match s3 with
            | String c r =>
                if Ascii.eqb c "e" || Ascii.eqb c "E" then
                  let '(esign, r1) :=
                    match r with
                    | String g r' =>
                        if Ascii.eqb g "+" || Ascii.eqb g "-"
                        then (String g EmptyString, r') else (EmptyString, r)
                    | EmptyString => (EmptyString, r)
                    end in
                  match span_digits r1 with
                  | (EmptyString, _) => None
                  | (d, r2) => Some (String c (esign ++ d), r2)
                  end
                else Some (EmptyString, s3)
            | EmptyString => Some (EmptyString, s3)
            end in
          match exponent with
          | None => None
          | Some (ep, s4) => Some (sign ++ ip ++ fp ++ ep, s4)
          end
      end
  end.

Definition expect (word : string) (v : Value) (s : string) : option (Value * string) :=
  if strings.HasPrefix s word then Some (v, strings.drop (String.length word) s) else None.

Definition maxNestingDepth : Z := 10000.

(** A value, the members of an object after its brace or a comma, the
    elements of an array after its bracket or a comma.  [None] is a
    syntax error; [fuel] bounds the number of calls. *)
Fixpoint value (fuel : nat) (depth : Z) (s : string) {struct fuel}
  : option (Value * string) :=
  match fuel with
  | O => None
  | S fuel =>
      match skip_ws s with
      | EmptyString => None
      | String c rest =>
          if Ascii.eqb c "{" then
            if maxNestingDepth <? depth + 1 then None
            else
              match skip_ws rest with
              | String c1 r1 =>
                  if Ascii.eqb c1 "}" then Some (Object [], r1)
                  else
                    match members fuel (depth + 1) rest with
                    | Some (ms, r) => Some (Object ms, r)
                    | None => None
                    end
              | EmptyString => None
              end
          else if Ascii.eqb c "[" then
            if maxNestingDepth <? depth + 1 then None
            else
              match skip_ws rest with
              | String c1 r1 =>
                  if Ascii.eqb c1 "]" then Some (Array [], r1)
                  else
                    match elements fuel (depth + 1) rest with
                    | Some (vs, r) => Some (Array vs, r)
                    | None => None
                    end
              | EmptyString => None
              end
          else if Ascii.eqb c dquote then
            match string_literal rest with
            | Some (v, r) => Some (Str v, r)
            | None => None
            end
          else if Ascii.eqb c "-" || strconv.is_digit c then
            match number_literal (String c rest) with
            | Some (l, r) => Some (Number l, r)
            | None => None
            end
          else if Ascii.eqb c "t" then expect "true" (Bool true) (String c rest)
          else if Ascii.eqb c "f" then expect "false" (Bool false) (String c rest)
          else if Ascii.eqb c "n" then expect "null" Null (String c rest)
          else None
      end
  end
with members (fuel : nat) (depth : Z) (s : string) {struct fuel}
  : option (list (string * Value) * string) :=
  match fuel with
  | O => None
  | S fuel =>
      match skip_ws s with
      | String q r =>
          if Ascii.eqb q dquote then
            match string_literal r with
            | Some (key, r1) =>
                match skip_ws r1 with
                | String c2 r2 =>
                    if Ascii.eqb c2 ":" then
                      match value fuel depth r2 with
                      | Some (v, r3) =>
                          match skip_ws r3 with
                          | String c3 r4 =>
                              if Ascii.eqb c3 "," then
                                match members fuel depth r4 with
                                | Some (ms, r5) => Some ((key, v) :: ms, r5)
                                | None => None
                                end
                              else if Ascii.eqb c3 "}" then Some ([(key, v)], r4)
                              else None
                          | EmptyString => None
                          end
                      | None => None
                      end
                    else None
                | EmptyString => None
                end
            | None => None
            end
          else None
      | EmptyString => None
      end
  end
with elements (fuel : nat) (depth : Z) (s : string) {struct fuel}
  : option (list Value * string) :=
  match fuel with
  | O => None
  | S fuel =>
      match value fuel depth s with
      | Some (v, r) =>
          match skip_ws r with
          | String c r1 =>
              if Ascii.eqb c "," then
                match elements fuel depth r1 with
                | Some (vs, r2) => Some (v :: vs, r2)
                | None => None
                end
              else if Ascii.eqb c "]" then Some ([v], r1)
              else None
          | EmptyString => None
          end
      | None => None
      end
  end.

(** The whole input is one value between white space.  The fuel is the
    length of the input and one more: every call of [value], [members] or
    [elements] that ends in success has read at least one byte more than
    the calls it made ([parse_fuel] below: no larger fuel finds a value
    where this one does not). *)
Definition parse (data : string) : option Value :=
  match value (S (String.length data)) 0 data with
  | Some (v, rest) =>
      match skip_ws rest with
      | EmptyString => Some v
      | String _ _ => None
      end
  | None => None
  end.

(** *** Decoding: filling a struct *)

(** A field of the target struct: its name in the input and how a value
    is stored in it; [None] is a type mismatch. *)
Record Field (T : Type) : Type := {
  name : string;
  store : Value -> T -> option T
}.
Arguments name {T} _.
Arguments store {T} _ _ _.

(** A [string] field takes a string, ignores [null], refuses the rest. *)
Definition store_string {T : Type} (set : string -> T -> T) (v : Value) (t : T) : option T :=
  match v with
  | Str s => Some (set s t)
  | Null => Some t
  | _ => None
  end.

(** An [int64] field takes a number that [ParseInt] reads and that fits,
    ignores [null], refuses the rest. *)
Definition store_int64 {T : Type} (set : Z -> T -> T) (v : Value) (t : T) : option T :=
  match v with
  | Number l =>
      match strconv.ParseInt l with
      | Some n => Some (set n t)
      | None => None
      end
  | Null => Some t
  | _ => None
  end.

Definition upper (c : ascii) : ascii :=
  if utf8.between 97 c 122 then to_byte (byte_val c - 32) else c.

(** Whether [key] folds to the same name as [name], for a [name] made of
    ASCII bytes: letters match in either case, and the two code points
    outside ASCII that fold to a letter, U+017F and U+212A, match [s]
    and [k]. *)
Fixpoint equalFold (key name : string) : bool :=
  match name with
  | EmptyString => match key with EmptyString => true | String _ _ => false end
  | String n name' =>
      match key with
      | EmptyString => false
      | String k key1 =>
          if byte_val k <? 128 then Ascii.eqb (upper k) (upper n) && equalFold key1 name'
          else
            match key1 with
            | String k1 key2 =>
                if Ascii.eqb k "197" && Ascii.eqb k1 "191" then
                  Ascii.eqb (upper n) "S" && equalFold key2 name'
                else
                  match key2 with
                  | String k2 key3 =>
                      if Ascii.eqb k "226" && Ascii.eqb k1 "132" && Ascii.eqb k2 "170" then
                        Ascii.eqb (upper n) "K" && equalFold key3 name'
                      else false
                  | EmptyString => false
                  end
            | EmptyString => false
            end
      end
  end.

(** The field a key names: the one with exactly that name, else the
    first whose name is equal up to case folding. *)
Definition find_field {T : Type} (fields : list (Field T)) (key : string) : option (Field T) :=
  match List.find (fun f => String.eqb (name f) key) fields with
  | Some f => Some f
  | None => List.find (fun f => equalFold key (name f)) fields
  end.

(** Members are stored in input order (a later duplicate overwrites); a
    member no field answers to is skipped; after a type mismatch decoding
    goes on and the error is reported at the end. *)
Fixpoint fill {T : Type} (fields : list (Field T)) (ms : list (string * Value)) (t : T)
  : T * option error :=
  match ms with
  | [] => (t, None)
  | (key, v) :: ms' =>
      match find_field fields key with
      | Some f =>
          match store f v t with
          | Some t' => fill fields ms' t'
          | None => (fst (fill fields ms' t), Some (jsonError UnmarshalTypeError))
          end
      | None => fill fields ms' t
      end
  end.

(** [Unmarshal data &t]: the target after the call and the error. *)
Definition Unmarshal {T : Type} (fields : list (Field T)) (data : list ascii) (t : T)
  : T * option error :=
  match parse (string_of data) with
  | None => (t, Some (jsonError SyntaxError))
  | Some (Object ms) => fill fields ms t
  | Some Null => (t, None)
  | Some _ => (t, Some (jsonError UnmarshalTypeError))
  end.

End json.

(** ** The HTTP side: requests, responses, and the world *)

Inductive result (A E : Type) : Type :=
| Ok (a : A)
| Err (e : E).
Arguments Ok {A E} _.
Arguments Err {A E} _.

Module http.

Definition StatusOK : Z := 200.
Definition StatusNoContent : Z := 204.

(** [http.Header]: keys are in canonical form. *)
Abbreviation Header := (gmap string (list string)).

Definition Get (h : Header) (key : string) : string :=
  match h !! key with
  | Some (v :: _) => v
  | _ => EmptyString
  end.

Definition Set_ (h : Header) (key value : string) : Header := <[key := [value]]> h.

Record Request : Type := {
  Method : string;
  URL : string;
  Headers : Header
}.

Record Response : Type := {
  StatusCode : Z;
  Body : result (list ascii) error     (* what [io.ReadAll] gets from the body *)
}.

End http.

(** What a run depends on outside the package: the clock, whether a URL
    can be made into a request, and what the HTTP client answers.  Within
    one run the clock is read once and the client answers a request the
    same way each time it is sent. *)
Record World : Type := {
  now : Z;                                            (* [time.Now().Unix()] *)
  NewRequest_error : string -> option error;          (* [http.NewRequestWithContext] on that URL *)
  Do : http.Request -> result http.Response error     (* [httpClient.Do] *)
}.

Inductive Arg : Type :=
| arg_s (s : string)
| arg_d (n : Z)
| arg_v (e : error).

(** What a run does that can be seen from outside, in order. *)
Inductive Event : Type :=
| Sent (req : http.Request)                    (* a call of [httpClient.Do] *)
| Errorf (format : string) (args : list Arg)   (* the logger of the request context *)
| Infof (format : string) (args : list Arg).

Definition is_Sent (e : Event) : bool :=
  match e with
  | Sent _ => true
  | _ => false
  end.

(** ** The controller *)

Definition githubAPIURL_default : string := "https://api.github.com".
Definition githubUserEndpoint : string := "/user".

Record Client : Type := { Timeout : Z (* nanoseconds *) }.

Record accessController : Type := {
  realm : string;
  githubAPIURL : string;
  allowedOrgs : list string;
  allowedRepos : list string;
  httpClient : Client;
  enableOIDC : bool;
  oidcAudience : string
}.

Record githubUser : Type := {
  Login : string;
  ID : Z;
  Type_ : string
}.

Record oidcTokenPayload : Type := {
  Sub : string;
  Aud : string;
  Repository : string;
  Actor : string;
  Workflow : string;
  Ref : string;
  Exp : Z;
  Iat : Z
}.

Definition githubUser_zero : githubUser :=
  {| Login := EmptyString; ID := 0; Type_ := EmptyString |}.

Definition oidcTokenPayload_zero : oidcTokenPayload :=
  {| Sub := EmptyString; Aud := EmptyString; Repository := EmptyString;
     Actor := EmptyString; Workflow := EmptyString; Ref := EmptyString;
     Exp := 0; Iat := 0 |}.

(** The [json] tags of the two structs. *)
Definition githubUser_fields : list (json.Field githubUser) :=
  [ {| json.name := "login";
       json.store := json.store_string
         (fun s u => {| Login := s; ID := ID u; Type_ := Type_ u |}) |};
    {| json.name := "id";
       json.store := json.store_int64
         (fun n u => {| Login := Login u; ID := n; Type_ := Type_ u |}) |};
    {| json.name := "type";
       json.store := json.store_string
         (fun s u => {| Login := Login u; ID := ID u; Type_ := s |}) |} ].

Definition oidcTokenPayload_fields : list (json.Field oidcTokenPayload) :=
  [ {| json.name := "sub";
       json.store := json.store_string (fun s p =>
         {| Sub := s; Aud := Aud p; Repository := Repository p; Actor := Actor p;
            Workflow := Workflow p; Ref := Ref p; Exp := Exp p; Iat := Iat p |}) |};
    {| json.name := "aud";
       json.store := json.store_string (fun s p =>
         {| Sub := Sub p; Aud := s; Repository := Repository p; Actor := Actor p;
            Workflow := Workflow p; Ref := Ref p; Exp := Exp p; Iat := Iat p |}) |};
    {| json.name := "repository";
       json.store := json.store_string (fun s p =>
         {| Sub := Sub p; Aud := Aud p; Repository := s; Actor := Actor p;
            Workflow := Workflow p; Ref := Ref p; Exp := Exp p; Iat := Iat p |}) |};
    {| json.name := "actor";
       json.store := json.store_string (fun s p =>
         {| Sub := Sub p; Aud := Aud p; Repository := Repository p; Actor := s;
            Workflow := Workflow p; Ref := Ref p; Exp := Exp p; Iat := Iat p |}) |};
    {| json.name := "workflow";
       json.store := json.store_string (fun s p =>
         {| Sub := Sub p; Aud := Aud p; Repository := Repository p; Actor := Actor p;
            Workflow := s; Ref := Ref p; Exp := Exp p; Iat := Iat p |}) |};
    {| json.name := "ref";
       json.store := json.store_string (fun s p =>
         {| Sub := Sub p; Aud := Aud p; Repository := Repository p; Actor := Actor p;
            Workflow := Workflow p; Ref := s; Exp := Exp p; Iat := Iat p |}) |};
    {| json.name := "exp";
       json.store := json.store_int64 (fun n p =>
         {| Sub := Sub p; Aud := Aud p; Repository := Repository p; Actor := Actor p;
            Workflow := Workflow p; Ref := Ref p; Exp := n; Iat := Iat p |}) |};
    {| json.name := "iat";
       json.store := json.store_int64 (fun n p =>
         {| Sub := Sub p; Aud := Aud p; Repository := Repository p; Actor := Actor p;
            Workflow := Workflow p; Ref := Ref p; Exp := Exp p; Iat := n |}) |} ].

(** [json.Marshal] of a payload: the fields in declaration order. *)
Definition Marshal_oidcTokenPayload (p : oidcTokenPayload) : list ascii :=
  json.encode_struct
    [ ("sub", json.appendString (Sub p));
      ("aud", json.appendString (Aud p));
      ("repository", json.appendString (Repository p));
      ("actor", json.appendString (Actor p));
      ("workflow", json.appendString (Workflow p));
      ("ref", json.appendString (Ref p));
      ("exp", strconv.FormatInt (Exp p));
      ("iat", strconv.FormatInt (Iat p)) ].

(** Values of the options map ([interface{}]), by dynamic type. *)
#[warnings="-register-all"]
Inductive Any : Type :=
| any_nil
| any_string (s : string)
| any_bool (b : bool)
| any_int (n : Z)
| any_strings (l : list string)        (* [[]string] *)
| any_slice (l : list Any).            (* [[]interface{}] *)

Definition as_string (v : option Any) : option string :=
  match v with
  | Some (any_string s) => Some s
  | _ => None
  end.

(** The strings of a [[]interface{}], in order; other elements are left
    out, as the loops over [allowed_orgs] and [allowed_repos] do. *)
Fixpoint strings_in (l : list Any) : list string :=
  match l with
  | [] => []
  | any_string s :: l' => s :: strings_in l'
  | _ :: l' => strings_in l'
  end.

Definition realm_error : error :=
  errorString (quoted "realm" ++ " must be set for github access controller").

Definition newAccessController (options : gmap string Any) : result accessController error :=
  match as_string (options !! "realm") with
  | None => Err realm_error
  | Some realm =>
      Ok {| realm := realm;
            (* Optional: GitHub API URL (for GitHub Enterprise) *)
            githubAPIURL :=
              match as_string (options !! "api_url") with
              | Some apiURL =>
                  if negb (String.eqb apiURL EmptyString)
                  then strings.TrimRight apiURL "/" else githubAPIURL_default
              | None => githubAPIURL_default
              end;
            (* Optional: Allowed organizations *)
            allowedOrgs :=
              match options !! "allowed_orgs" with
              | Some (any_slice orgs) => strings_in orgs
              | _ => []
              end;
            (* Optional: Allowed repositories *)
            allowedRepos :=
              match options !! "allowed_repos" with
              | Some (any_slice repos) => strings_in repos
              | _ => []
              end;
            httpClient := {| Timeout := 10 * 1000000000 |};
            (* Optional: Enable OIDC support *)
            enableOIDC :=
              match options !! "enable_oidc" with
              | Some (any_bool enableOIDC) => enableOIDC
              | _ => false
              end;
            (* Optional: OIDC audience *)
            oidcAudience :=
              match as_string (options !! "oidc_audience") with
              | Some oidcAud => if negb (String.eqb oidcAud EmptyString) then oidcAud else EmptyString
              | None => EmptyString
              end |}
  end.

(** [challenge] implements the [auth.Challenge] interface. *)
Record challenge : Type := {
  ch_realm : string;
  ch_err : error
}.

Record Grant : Type := { User_Name : string }.

Definition mkchallenge (ac : accessController) (e : error) : challenge :=
  {| ch_realm := realm ac; ch_err := e |}.

(** Header set on the two outbound calls. *)
Definition api_request (url token : string) : http.Request :=
  {| http.Method := "GET";
     http.URL := url;
     http.Headers :=
       http.Set_ (http.Set_ ∅ "Authorization" ("token " ++ token))
         "Accept" "application/vnd.github+json" |}.

Definition decodeOIDCToken (token : string) : result oidcTokenPayload error :=
  (* Split JWT token *)
  let parts := strings.Split token "." in
  if negb (List.length parts =? 3)%nat then Err (errorString "invalid JWT token format")
  else
    (* Decode payload (base64url) *)
    match base64URLDecode (nth 1 parts EmptyString) with
    | (_, Some err) => Err (wrapError "failed to decode token payload: " err)
    | (payloadBytes, None) =>
        match json.Unmarshal oidcTokenPayload_fields payloadBytes oidcTokenPayload_zero with
        | (_, Some err) => Err (wrapError "failed to parse token payload: " err)
        | (payload, None) => Ok payload
        end
    end.

Section Controller.

Variable w : World.
Variable ac : accessController.

(** [fmt.Sprintf("%s/orgs/%s/members/%s", ac.githubAPIURL, org, username)] *)
Definition org_url (org username : string) : string :=
  githubAPIURL ac ++ "/orgs/" ++ org ++ "/members/" ++ username.

Fixpoint checkOrgMembership_loop (orgs : list string) (token username : string)
  : bool * list Event :=
  match orgs with
  | [] => (false, [])
  | org :: orgs' =>
      let url := org_url org username in
      match NewRequest_error w url with
      | Some _ => checkOrgMembership_loop orgs' token username
      | None =>
          let req := api_request url token in
          match Do w req with
          | Err _ =>
              let '(b, tr) := checkOrgMembership_loop orgs' token username in
              (b, Sent req :: tr)
          | Ok resp =>
              if http.StatusCode resp =? http.StatusNoContent then (true, [Sent req])
              else
                let '(b, tr) := checkOrgMembership_loop orgs' token username in
                (b, Sent req :: tr)
          end
      end
  end.

Definition checkOrgMembership (token username : string) : bool * list Event :=
  checkOrgMembership_loop (allowedOrgs ac) token username.

Definition authenticateGitHub (token : string) : result Grant challenge * list Event :=
  (* Create request to GitHub API *)
  let url := githubAPIURL ac ++ githubUserEndpoint in
  match NewRequest_error w url with
  | Some err => (Err (mkchallenge ac (wrapError "failed to create request: " err)), [])
  | None =>
      let apiReq := api_request url token in
      (* Make request *)
      match Do w apiReq with
      | Err err =>
          (Err (mkchallenge ac ErrAuthenticationFailure),
           [Sent apiReq; Errorf "error calling GitHub API: %v" [arg_v err]])
      | Ok resp =>
          if negb (http.StatusCode resp =? http.StatusOK) then
            (Err (mkchallenge ac ErrAuthenticationFailure),
             [Sent apiReq; Errorf "GitHub API returned status: %d" [arg_d (http.StatusCode resp)]])
          else
            (* Parse response *)
            match http.Body resp with
            | Err _ => (Err (mkchallenge ac ErrAuthenticationFailure), [Sent apiReq])
            | Ok body =>
                match json.Unmarshal githubUser_fields body githubUser_zero with
                | (_, Some err) =>
                    (Err (mkchallenge ac ErrAuthenticationFailure),
                     [Sent apiReq; Errorf "error parsing GitHub user: %v" [arg_v err]])
                | (user, None) =>
                    (* Check organization membership if required *)
                    let '(member, tr) :=
                      if (0 <? List.length (allowedOrgs ac))%nat
                      then checkOrgMembership token (Login user)
                      else (true, []) in
                    if negb member then
                      (Err (mkchallenge ac ErrAuthenticationFailure),
                       (Sent apiReq :: tr ++
                        [Errorf "user %s is not a member of allowed organizations"
                           [arg_s (Login user)]])%list)
                    else
                      (Ok {| User_Name := Login user |},
                       (Sent apiReq :: tr ++
                        [Infof "GitHub user %s authenticated successfully"
                           [arg_s (Login user)]])%list)
                end
            end
      end
  end.

Definition authenticateOIDC (token : string) : result Grant challenge * list Event :=
  (* Decode JWT token *)
  match decodeOIDCToken token with
  | Err err => (Err (mkchallenge ac (wrapError "invalid OIDC token: " err)), [])
  | Ok payload =>
      (* Verify audience if specified *)
      if negb (String.eqb (oidcAudience ac) EmptyString)
         && negb (String.eqb (Aud payload) (oidcAudience ac))
      then (Err (mkchallenge ac (errorString "invalid OIDC audience")), [])
      (* Verify expiration *)
      else if Exp payload <? now w
      then (Err (mkchallenge ac (errorString "OIDC token expired")), [])
      (* Check repository restrictions *)
      else if (0 <? List.length (allowedRepos ac))%nat
              && negb (existsb (String.eqb (Repository payload)) (allowedRepos ac))
      then (Err (mkchallenge ac
                   (errorString ("repository " ++ Repository payload ++ " not allowed"))), [])
      else
        (* Use actor as username *)
        (Ok {| User_Name := Actor payload |},
         [Infof "GitHub Actions OIDC authenticated: actor=%s, repo=%s"
            [arg_s (Actor payload); arg_s (Repository payload)]])
  end.

(** The second half of [Authorized]: the claims verifier first when it is
    enabled, the GitHub API when it is disabled or has failed. *)
Definition verify (token : string) : result Grant challenge * list Event :=
  (* Try to authenticate with GitHub OIDC token first if enabled *)
  let oidc := if enableOIDC ac then Some (authenticateOIDC token) else None in
  match oidc with
  | Some (Ok grant, tr) => (Ok grant, tr)
  | Some (Err _, tr) =>
      (* If OIDC authentication fails, try regular GitHub token *)
      let '(r, tr') := authenticateGitHub token in (r, (tr ++ tr')%list)
  | None =>
      (* Authenticate with GitHub API *)
      authenticateGitHub token
  end.

Definition Authorized (req : http.Request) : result Grant challenge * list Event :=
  (* Extract token from Authorization header *)
  let authHeader := http.Get (http.Headers req) "Authorization" in
  if String.eqb authHeader EmptyString then
    (Err (mkchallenge ac ErrInvalidCredential), [])
  else
    (* Support both prefixes *)
    let token :=
      if strings.HasPrefix authHeader "Bearer " then
        Some (strings.TrimPrefix authHeader "Bearer ")
      else if strings.HasPrefix authHeader "token " then
        Some (strings.TrimPrefix authHeader "token ")
      else None in
    match token with
    | None => (Err (mkchallenge ac ErrInvalidCredential), [])
    | Some token =>
        if String.eqb token EmptyString then
          (Err (mkchallenge ac ErrInvalidCredential), [])
        else verify token
    end.

End Controller.

(** ** What a challenge shows *)

Section Rendering.

(** The [%q] verb of [fmt] ([strconv.Quote]) and the wording of the
    errors of [encoding/json] are left open. *)
Variable Quote : string -> string.
Variable jsonErrorText : jsonErrorKind -> string.




End Rendering.

(** * Statements

    The notions the statements are written with, and the instances they
    are tried on. *)

(** ** Notions *)

(** The header is one of the two prefixes followed by the token [t], which
    is not empty. *)
Definition well_formed_header (h t : string) : Prop :=
  t <> EmptyString /\ (h = "Bearer " ++ t \/ h = "token " ++ t).

(** No call of the HTTP client in a trace. *)
Definition no_remote_call (tr : list Event) : Prop := filter is_Sent tr = [].

(** A membership request for the organization can be built. *)
Definition org_asked (w : World) (ac : accessController) (username org : string) : bool :=
  match NewRequest_error w (org_url ac org username) with
  | Some _ => false
  | None => true
  end.

(** The organization answers the membership request with 204. *)
Definition org_confirms (w : World) (ac : accessController) (token username org : string) : bool :=
  match NewRequest_error w (org_url ac org username) with
  | Some _ => false
  | None =>
      match Do w (api_request (org_url ac org username) token) with
      | Ok resp => http.StatusCode resp =? http.StatusNoContent
      | Err _ => false
      end
  end.

(** The elements up to and including the first that satisfies [p]. *)
Fixpoint upto_first {A : Type} (p : A -> bool) (l : list A) : list A :=
  match l with
  | [] => []
  | x :: l' => if p x then [x] else x :: upto_first p l'
  end.

(** The profile call for the token succeeds and yields [user]. *)
Definition profile_call (w : World) (ac : accessController) (token : string) (user : githubUser) : Prop :=
  NewRequest_error w (githubAPIURL ac ++ githubUserEndpoint) = None /\
  exists resp body,
    Do w (api_request (githubAPIURL ac ++ githubUserEndpoint) token) = Ok resp /\
    http.StatusCode resp = http.StatusOK /\
    http.Body resp = Ok body /\
    json.Unmarshal githubUser_fields body githubUser_zero = (user, None).


(** The two checks of the claims verifier on configured values. *)
Definition audience_accepted (ac : accessController) (payload : oidcTokenPayload) : Prop :=
  oidcAudience ac = EmptyString \/ Aud payload = oidcAudience ac.

Definition repository_accepted (ac : accessController) (payload : oidcTokenPayload) : Prop :=
  allowedRepos ac = [] \/ In (Repository payload) (allowedRepos ac).

(** The standard alphabet in place of the URL alphabet. *)
Definition std_char (c : ascii) : ascii :=
  let c1 := if Ascii.eqb c "-" then "+"%char else c in
  if Ascii.eqb c1 "_" then "/"%char else c1.

Definition to_std (s : string) : string :=
  strings.ReplaceAll (strings.ReplaceAll s "-" "+") "_" "/".

(** The first step of [base64URLDecode]. *)
Definition pad4 (s : string) : string :=
  match len s mod 4 with
  | 2 => s ++ "=="
  | 3 => s ++ "="
  | _ => s
  end.

(** What [base64URLDecode] appends before decoding. *)
Definition added_padding (s : string) : string :=
  match len s mod 4 with
  | 2 => "=="
  | 3 => "="
  | _ => EmptyString
  end.

(** The padding [base64URLDecode] adds to the unpadded encoding of [bs]. *)
Fixpoint raw_padding (bs : list ascii) : string :=
  match bs with
  | [] => EmptyString
  | [_] => "=="
  | [_; _] => "="
  | _ :: _ :: _ :: rest => raw_padding rest
  end.

Definition no_newline (s : string) : Prop :=
  strings.Contains s LF = false /\ strings.Contains s CR = false.

Fixpoint all_digits (s : string) : bool :=
  match s with
  | EmptyString => true
  | String c s' => strconv.is_digit c && all_digits s'
  end.

(** A byte that ends a number: no digit, point or exponent mark. *)
Definition number_end (c : ascii) : bool :=
  negb (strconv.is_digit c || Ascii.eqb c "." || Ascii.eqb c "e" || Ascii.eqb c "E").

(** A key that is read back as it is written between quotes. *)
Definition plain_key (k : string) : Prop :=
  forall x, json.string_literal (k ++ String dquote x) = Some (k, x).

(** A payload as the wire format can carry it: well-formed UTF-8 in the
    strings, 64-bit integers in the times. *)
Record valid_payload (p : oidcTokenPayload) : Prop := {
  valid_Sub : utf8.ValidString (Sub p) = true;
  valid_Aud : utf8.ValidString (Aud p) = true;
  valid_Repository : utf8.ValidString (Repository p) = true;
  valid_Actor : utf8.ValidString (Actor p) = true;
  valid_Workflow : utf8.ValidString (Workflow p) = true;
  valid_Ref : utf8.ValidString (Ref p) = true;
  valid_Exp : int64 (Exp p);
  valid_Iat : int64 (Iat p)
}.

(** The members of the object [Marshal] writes for a payload. *)
Definition payload_members (p : oidcTokenPayload) : list (string * json.Value) :=
  [ ("sub", json.Str (Sub p)); ("aud", json.Str (Aud p));
    ("repository", json.Str (Repository p)); ("actor", json.Str (Actor p));
    ("workflow", json.Str (Workflow p)); ("ref", json.Str (Ref p));
    ("exp", json.Number (strconv.FormatInt (Exp p)));
    ("iat", json.Number (strconv.FormatInt (Iat p))) ].

(** The wire format: the JSON of the payload, in the unpadded URL
    alphabet, as the middle one of three segments. *)
Definition wire (header : string) (p : oidcTokenPayload) (signature : string) : string :=
  header ++ "." ++ base64.EncodeToString base64.RawURLEncoding (Marshal_oidcTokenPayload p)
  ++ "." ++ signature.

(** The payload of the test suite. *)
Definition sample_payload : oidcTokenPayload :=
  {| Sub := "repo:owner/repo:ref:refs/heads/main";
     Aud := "https://example.com";
     Repository := "owner/repo";
     Actor := "github-actions";
     Workflow := "CI";
     Ref := "refs/heads/main";
     Exp := 1700003600;
     Iat := 1700000000 |}.

Definition token_of (p : oidcTokenPayload) : string :=
  "eyJhbGciOiJSUzI1NiIsInR5cCI6IkpXVCJ9."
  ++ base64.EncodeToString base64.RawURLEncoding (Marshal_oidcTokenPayload p)
  ++ ".fake-signature".

Definition sample_token : string := Eval vm_compute in token_of sample_payload.

Definition ill_formed_payload : oidcTokenPayload :=
  {| Sub := "repo:owner/repo:ref:refs/heads/main";
     Aud := "https://example.com";
     Repository := "owner/repo";
     Actor := String "255" EmptyString;
     Workflow := "CI";
     Ref := "refs/heads/main";
     Exp := 1700003600;
     Iat := 1700000000 |}.

Definition request_with (authorization : string) : http.Request :=
  {| http.Method := "GET"; http.URL := "/v2/";
     http.Headers := http.Set_ ∅ "Authorization" authorization |}.

Definition request_without : http.Request :=
  {| http.Method := "GET"; http.URL := "/v2/"; http.Headers := ∅ |}.

Definition alice : githubUser := {| Login := "alice"; ID := 1; Type_ := "User" |}.

Definition alice_body : list ascii :=
  bytes_of ("{" ++ quoted "login" ++ ":" ++ quoted "alice" ++ "," ++ quoted "id" ++ ":1,"
            ++ quoted "type" ++ ":" ++ quoted "User" ++ "}").

(** A server that knows one user and no organization. *)
Definition world_alice (t : Z) : World :=
  {| now := t;
     NewRequest_error := fun _ => None;
     Do := fun req =>
       if String.eqb (http.URL req) "https://api.github.com/user"
       then Ok {| http.StatusCode := 200; http.Body := Ok alice_body |}
       else Ok {| http.StatusCode := 404; http.Body := Ok [] |} |}.

Definition world_unauthorized (t : Z) : World :=
  {| now := t;
     NewRequest_error := fun _ => None;
     Do := fun _ => Ok {| http.StatusCode := 401; http.Body := Ok [] |} |}.

(** A server where that user is a member of [testorg]. *)
Definition world_member (t : Z) : World :=
  {| now := t;
     NewRequest_error := fun _ => None;
     Do := fun req =>
       if String.eqb (http.URL req) "https://api.github.com/user"
       then Ok {| http.StatusCode := 200; http.Body := Ok alice_body |}
       else if String.eqb (http.URL req) "https://api.github.com/orgs/testorg/members/alice"
       then Ok {| http.StatusCode := 204; http.Body := Ok [] |}
       else Ok {| http.StatusCode := 404; http.Body := Ok [] |} |}.

Definition trace_member : list Event :=
  [ Sent (api_request "https://api.github.com/user" "valid-token");
    Sent (api_request "https://api.github.com/orgs/testorg/members/alice" "valid-token");
    Infof "GitHub user %s authenticated successfully" [arg_s "alice"] ].

Definition controller (oidc : bool) (orgs repos : list string) : accessController :=
  {| realm := "test-realm";
     githubAPIURL := githubAPIURL_default;
     allowedOrgs := orgs;
     allowedRepos := repos;
     httpClient := {| Timeout := 10 * 1000000000 |};
     enableOIDC := oidc;
     oidcAudience := "https://example.com" |}.

(** What it means for a parser of the JSON syntax to have fuel enough at
    [f]: a result it gives there has consumed input, and any fuel that
    covers the consumed bytes gives the same result. *)
Definition fuel_enough {A : Type} (parse : nat -> Z -> string -> option (A * string))
    (f : nat) : Prop :=
  forall d s v r,
    parse f d s = Some (v, r) ->
    (String.length r < String.length s)%nat
    /\ forall f', (String.length s - String.length r <= f')%nat -> parse f' d s = Some (v, r).

(** ** Further notions *)

(** How many times the byte [sep] occurs in [s]. *)
Fixpoint occurrences (s : string) (sep : ascii) : nat :=
  match s with
  | EmptyString => O
  | String c s' => if Ascii.eqb c sep then S (occurrences s' sep) else occurrences s' sep
  end.

Definition is_Infof (e : Event) : bool :=
  match e with
  | Infof _ _ => true
  | _ => false
  end.

(** A request the controller may send for [token]: the profile call, or
    the membership call for one of the configured organizations. *)
Definition outbound (ac : accessController) (token : string) (req : http.Request) : Prop :=
  req = api_request (githubAPIURL ac ++ githubUserEndpoint) token
  \/ exists org username,
       In org (allowedOrgs ac) /\ req = api_request (org_url ac org username) token.

(** The controller with another list of organizations. *)
Definition with_orgs (ac : accessController) (orgs : list string) : accessController :=
  {| realm := realm ac;
     githubAPIURL := githubAPIURL ac;
     allowedOrgs := orgs;
     allowedRepos := allowedRepos ac;
     httpClient := httpClient ac;
     enableOIDC := enableOIDC ac;
     oidcAudience := oidcAudience ac |}.

(** The bytes [base64URLDecode] reads without an error of their own: the
    two alphabets, the padding and the two newlines. *)
Definition accepted_bytes : string :=
  base64.encodeStd ++ "-_=" ++ String CR (String LF EmptyString).

(** A byte that stops the standard decoder wherever it stands. *)
Definition stops (c : ascii) : Prop :=
  base64.decodeMap base64.StdEncoding c = 255
  /\ base64.is_newline c = false
  /\ Ascii.eqb c "=" = false.

(** [json.Marshal] of a user, and what [json.NewEncoder(w).Encode] writes
    for it, as the mock server of the test suite does: the same bytes and
    a newline. *)
Definition Marshal_githubUser (u : githubUser) : list ascii :=
  json.encode_struct
    [ ("login", json.appendString (Login u));
      ("id", strconv.FormatInt (ID u));
      ("type", json.appendString (Type_ u)) ].

Definition Encode_githubUser (u : githubUser) : list ascii :=
  (Marshal_githubUser u ++ [LF])%list.

(** A user as the wire format can carry it. *)
Record valid_user (u : githubUser) : Prop := {
  valid_Login : utf8.ValidString (Login u) = true;
  valid_ID : int64 (ID u);
  valid_Type : utf8.ValidString (Type_ u) = true
}.

(** The document has no member whose key answers to the field [name]. *)
Definition no_member (name : string) (v : json.Value) : Prop :=
  match v with
  | json.Object ms => forall k x, In (k, x) ms -> json.equalFold k name = false
  | _ => True
  end.

(** Further instances: options as a configuration file gives them, and a
    server that answers with an error document under status 200. *)
Definition options_enterprise : gmap string Any :=
  <["api_url" := any_string "https://ghe.example.com/api/v3//"]>
    (<["realm" := any_string "test-realm"]> ∅).

Definition controller_enterprise : accessController :=
  {| realm := "test-realm";
     githubAPIURL := "https://ghe.example.com/api/v3";
     allowedOrgs := [];
     allowedRepos := [];
     httpClient := {| Timeout := 10 * 1000000000 |};
     enableOIDC := false;
     oidcAudience := EmptyString |}.

Definition options_lists : gmap string Any :=
  <["allowed_orgs" := any_slice [any_string "org1"; any_int 7; any_string "org2"]]>
    (<["allowed_repos" := any_strings ["owner/repo"]]>
       (<["realm" := any_string "test-realm"]> ∅)).

Definition controller_lists : accessController :=
  {| realm := "test-realm";
     githubAPIURL := githubAPIURL_default;
     allowedOrgs := ["org1"; "org2"];
     allowedRepos := [];
     httpClient := {| Timeout := 10 * 1000000000 |};
     enableOIDC := false;
     oidcAudience := EmptyString |}.

Definition options_realm : gmap string Any := <["realm" := any_string "test-realm"]> ∅.

Definition controller_realm : accessController :=
  {| realm := "test-realm";
     githubAPIURL := githubAPIURL_default;
     allowedOrgs := [];
     allowedRepos := [];
     httpClient := {| Timeout := 10 * 1000000000 |};
     enableOIDC := false;
     oidcAudience := EmptyString |}.

Definition testuser : githubUser := {| Login := "testuser"; ID := 12345; Type_ := "User" |}.

(** The mock server of the test suite. *)
Definition world_testuser : World :=
  {| now := 0;
     NewRequest_error := fun _ => None;
     Do := fun req =>
       if String.eqb (http.URL req) "https://api.github.com/user" then
         if negb (String.eqb (http.Get (http.Headers req) "Authorization") "token valid-token")
         then Ok {| http.StatusCode := 401; http.Body := Ok [] |}
         else Ok {| http.StatusCode := 200; http.Body := Ok (Encode_githubUser testuser) |}
       else Ok {| http.StatusCode := 200; http.Body := Ok [] |} |}.

Definition error_document : list ascii :=
  bytes_of ("{" ++ quoted "message" ++ ":" ++ quoted "Bad credentials" ++ "}").

Definition world_error_document : World :=
  {| now := 0;
     NewRequest_error := fun _ => None;
     Do := fun _ => Ok {| http.StatusCode := 200; http.Body := Ok error_document |} |}.

(** The controller with the claims verifier switched on or off. *)
Definition with_oidc (ac : accessController) (enabled : bool) : accessController :=
  {| realm := realm ac;
     githubAPIURL := githubAPIURL ac;
     allowedOrgs := allowedOrgs ac;
     allowedRepos := allowedRepos ac;
     httpClient := httpClient ac;
     enableOIDC := enabled;
     oidcAudience := oidcAudience ac |}.

Definition options_claims : gmap string Any :=
  <["enable_oidc" := any_bool true]>
    (<["oidc_audience" := any_string "https://example.com"]>
       (<["allowed_repos" := any_slice [any_string "owner/repo"]]>
          (<["realm" := any_string "test-realm"]> ∅))).

(** * Proofs *)

#[local] Arguments org_url : simpl never.

(** ** Strings and lists *)

Lemma HasPrefix_app (p t : string) : strings.HasPrefix (p ++ t) p = true.
Proof.
  induction p as [|c p IH]; simpl; [reflexivity|].
  now rewrite Ascii.eqb_refl, IH.
Qed.

Lemma drop_app (p t : string) : strings.drop (String.length p) (p ++ t) = t.
Proof. induction p as [|c p IH]; simpl; [reflexivity | exact IH]. Qed.

Lemma HasPrefix_inv (s p : string) :
  strings.HasPrefix s p = true -> s = p ++ strings.drop (String.length p) s.
Proof.
  revert s; induction p as [|c p IH]; intros s H; simpl in *; [reflexivity|].
  destruct s as [|d s]; [discriminate|].
  apply andb_true_iff in H as [Hc Hp].
  apply Ascii.eqb_eq in Hc; subst d.
  simpl. f_equal. now apply IH.
Qed.

Lemma TrimPrefix_app (p t : string) : strings.TrimPrefix (p ++ t) p = t.
Proof. unfold strings.TrimPrefix. now rewrite HasPrefix_app, drop_app. Qed.

Lemma eqb_empty_false (t : string) : t <> EmptyString -> String.eqb t EmptyString = false.
Proof. intros H. now apply String.eqb_neq. Qed.

Lemma string_length_app (s t : string) :
  String.length (s ++ t) = (String.length s + String.length t)%nat.
Proof. induction s as [|c s IH]; [reflexivity|]. simpl. now rewrite IH. Qed.

Lemma len_app (s t : string) : len (s ++ t) = len s + len t.
Proof. unfold len. rewrite string_length_app. lia. Qed.

Lemma append_assoc (a b c : string) : (a ++ b) ++ c = a ++ (b ++ c).
Proof. induction a as [|x a IH]; [reflexivity|]. simpl. now rewrite IH. Qed.

Lemma append_nil_r (a : string) : a ++ EmptyString = a.
Proof. induction a as [|x a IH]; [reflexivity|]. simpl. now rewrite IH. Qed.

Lemma take_drop (n : nat) (s : string) : utf8.take n s ++ strings.drop n s = s.
Proof.
  revert s; induction n as [|n IH]; intros s; [reflexivity|].
  destruct s as [|c s]; [reflexivity|]. simpl. now rewrite IH.
Qed.

Lemma take_app (p x : string) : utf8.take (String.length p) (p ++ x) = p.
Proof. induction p as [|c p IH]; simpl; [now destruct x | now rewrite IH]. Qed.

Lemma string_of_bytes_of (s : string) : string_of (bytes_of s) = s.
Proof. induction s as [|c s IH]; [reflexivity|]. simpl. now rewrite IH. Qed.

Lemma quoted_app (k y : string) : quoted k ++ y = String dquote (k ++ String dquote y).
Proof. unfold quoted. cbn [String.append]. now rewrite append_assoc. Qed.

Lemma Split_no_sep (s : string) (sep : ascii) :
  strings.Contains s sep = false -> strings.Split s sep = [s].
Proof.
  induction s as [|c s IH]; [reflexivity|].
  cbn [strings.Contains strings.Split]. intros H.
  apply orb_false_iff in H as [Hc Hs]. rewrite Hc, (IH Hs). reflexivity.
Qed.

Lemma Split_app (s t : string) (sep : ascii) :
  strings.Contains s sep = false ->
  strings.Split (s ++ String sep t) sep = s :: strings.Split t sep.
Proof.
  induction s as [|c s IH]; intros H.
  - cbn [String.append strings.Split]. now rewrite Ascii.eqb_refl.
  - cbn [strings.Contains] in H. apply orb_false_iff in H as [Hc Hs].
    cbn [String.append strings.Split]. rewrite Hc, (IH Hs). reflexivity.
Qed.

Lemma list_ind3 {A : Type} (P : list A -> Prop) :
  P [] -> (forall a, P [a]) -> (forall a b, P [a; b]) ->
  (forall a b c l, P l -> P (a :: b :: c :: l)) ->
  forall l, P l.
Proof.
  intros H0 H1 H2 H3 l.
  assert (H : P l /\ (forall a, P (a :: l)) /\ (forall a b, P (a :: b :: l))).
  { induction l as [|x l (IH0 & IH1 & IH2)]; [now repeat split|].
    split; [apply IH1|]. split; [intros a; apply IH2|]. intros a b. now apply H3. }
  apply H.
Qed.

(** ** The controller *)

Lemma classic_header (h : string) :
  (exists t, well_formed_header h t) \/ (forall t, ~ well_formed_header h t).
Proof.
  destruct (strings.HasPrefix h "Bearer ") eqn:Hb.
  - apply HasPrefix_inv in Hb.
    destruct (strings.drop (String.length "Bearer ") h) as [|c t] eqn:Ed.
    + right. intros t [Ht [E|E]]; rewrite E in Hb.
      * apply (f_equal String.length) in Hb. simpl in Hb.
        destruct t; [congruence|]. simpl in Hb. lia.
      * discriminate.
    + left. exists (String c t). split; [discriminate|]. now left.
  - destruct (strings.HasPrefix h "token ") eqn:Hk.
    + apply HasPrefix_inv in Hk.
      destruct (strings.drop (String.length "token ") h) as [|c t] eqn:Ed.
      * right. intros t [Ht [E|E]]; rewrite E in Hk.
        -- discriminate.
        -- apply (f_equal String.length) in Hk. simpl in Hk.
           destruct t; [congruence|]. simpl in Hk. lia.
      * left. exists (String c t). split; [discriminate|]. now right.
    + right. intros t [Ht [E|E]]; subst h.
      * now rewrite (HasPrefix_app "Bearer " t) in Hb.
      * now rewrite (HasPrefix_app "token " t) in Hk.
Qed.

Lemma Authorized_well_formed (w : World) (ac : accessController) (req : http.Request) (t : string) :
  well_formed_header (http.Get (http.Headers req) "Authorization") t ->
  Authorized w ac req = verify w ac t.
Proof.
  intros [Ht Hh]. unfold Authorized.
  destruct Hh as [-> | ->].
  - change (strings.HasPrefix ("Bearer " ++ t) "Bearer ") with true.
    cbv iota. rewrite (TrimPrefix_app "Bearer " t).
    simpl String.eqb at 1. now rewrite eqb_empty_false.
  - change (strings.HasPrefix ("token " ++ t) "Bearer ") with false.
    change (strings.HasPrefix ("token " ++ t) "token ") with true.
    cbv iota. rewrite (TrimPrefix_app "token " t).
    simpl String.eqb at 1. now rewrite eqb_empty_false.
Qed.

Lemma Authorized_ill_formed (w : World) (ac : accessController) (req : http.Request) :
  (forall t, ~ well_formed_header (http.Get (http.Headers req) "Authorization") t) ->
  Authorized w ac req = (Err (mkchallenge ac ErrInvalidCredential), []).
Proof.
  intros H. unfold Authorized.
  set (h := http.Get (http.Headers req) "Authorization") in *.
  destruct (String.eqb h EmptyString) eqn:He; [reflexivity|].
  destruct (strings.HasPrefix h "Bearer ") eqn:Hb.
  - unfold strings.TrimPrefix. rewrite Hb.
    destruct (String.eqb (strings.drop (String.length "Bearer ") h) EmptyString) eqn:Ht;
      [reflexivity|].
    exfalso. apply (H (strings.drop (String.length "Bearer ") h)). split.
    + now apply String.eqb_neq.
    + left. now apply HasPrefix_inv.
  - destruct (strings.HasPrefix h "token ") eqn:Hk; [|reflexivity].
    unfold strings.TrimPrefix. rewrite Hk.
    destruct (String.eqb (strings.drop (String.length "token ") h) EmptyString) eqn:Ht;
      [reflexivity|].
    exfalso. apply (H (strings.drop (String.length "token ") h)). split.
    + now apply String.eqb_neq.
    + right. now apply HasPrefix_inv.
Qed.

Lemma Authorized_Ok_well_formed (w : World) (ac : accessController) (req : http.Request)
    (g : Grant) (tr : list Event) :
  Authorized w ac req = (Ok g, tr) ->
  exists token, well_formed_header (http.Get (http.Headers req) "Authorization") token.
Proof.
  intros H.
  destruct (classic_header (http.Get (http.Headers req) "Authorization")) as [[t Ht]|Hn].
  - now exists t.
  - rewrite (Authorized_ill_formed w ac req Hn) in H. discriminate.
Qed.

Lemma authenticateOIDC_trace (w : World) (ac : accessController) (token : string) :
  filter is_Sent (snd (authenticateOIDC w ac token)) = []
  /\ forall c tr, authenticateOIDC w ac token = (Err c, tr) -> tr = [].
Proof.
  unfold authenticateOIDC.
  destruct (decodeOIDCToken token) as [payload|err]; simpl.
  2: { split; [reflexivity|]. intros c tr H; now inversion H. }
  repeat match goal with
         | |- context [if ?b then _ else _] => destruct b
         end; simpl; (split; [reflexivity|]); intros c tr H; now inversion H.
Qed.

Lemma authenticateGitHub_Err (w : World) (ac : accessController) (token : string)
    (c : challenge) (tr : list Event) :
  authenticateGitHub w ac token = (Err c, tr) ->
  ch_realm c = realm ac
  /\ (ch_err c = ErrAuthenticationFailure
      \/ exists e, NewRequest_error w (githubAPIURL ac ++ githubUserEndpoint) = Some e
                   /\ ch_err c = wrapError "failed to create request: " e).
Proof.
  unfold authenticateGitHub. intros H.
  destruct (NewRequest_error w _) as [e|] eqn:En.
  { injection H as <- _. split; [reflexivity|]. right. now exists e. }
  destruct (Do w _) as [resp|]; [|injection H as <- _; split; [reflexivity | now left]].
  destruct (negb _); [injection H as <- _; split; [reflexivity | now left]|].
  destruct (http.Body resp) as [body|]; [|injection H as <- _; split; [reflexivity | now left]].
  destruct (json.Unmarshal _ _ _) as [user [err|]];
    [injection H as <- _; split; [reflexivity | now left]|].
  destruct (if (0 <? List.length (allowedOrgs ac))%nat then _ else _) as [member tr'].
  destruct (negb member); [|discriminate].
  injection H as <- _; split; [reflexivity | now left].
Qed.




Lemma checkOrgMembership_loop_spec (w : World) (ac : accessController)
    (token username : string) (orgs : list string) :
  checkOrgMembership_loop w ac orgs token username
  = (existsb (org_confirms w ac token username) orgs,
     map (fun org => Sent (api_request (org_url ac org username) token))
       (List.filter (org_asked w ac username)
          (upto_first (org_confirms w ac token username) orgs))).
Proof.
  induction orgs as [|org orgs IH]; [reflexivity|].
  simpl. unfold org_confirms at 1 3, org_asked at 1.
  destruct (NewRequest_error w (org_url ac org username)) as [e|] eqn:En.
  - rewrite IH. simpl. unfold org_asked at 1. now rewrite En.
  - destruct (Do w (api_request (org_url ac org username) token)) as [resp|e].
    + destruct (http.StatusCode resp =? http.StatusNoContent).
      * simpl. unfold org_asked. now rewrite En.
      * rewrite IH. simpl. unfold org_asked at 1. now rewrite En.
    + rewrite IH. simpl. unfold org_asked at 1. now rewrite En.
Qed.

Lemma authenticateGitHub_Ok (w : World) (ac : accessController) (token : string)
    (g : Grant) (tr : list Event) :
  authenticateGitHub w ac token = (Ok g, tr) ->
  allowedOrgs ac <> [] ->
  existsb (org_confirms w ac token (User_Name g)) (allowedOrgs ac) = true.
Proof.
  unfold authenticateGitHub. intros H Hne.
  destruct (NewRequest_error w _); [discriminate|].
  destruct (Do w _) as [resp|]; [|discriminate].
  destruct (negb _); [discriminate|].
  destruct (http.Body resp) as [body|]; [|discriminate].
  destruct (json.Unmarshal _ _ _) as [user [err|]]; [discriminate|].
  destruct (allowedOrgs ac) as [|o os] eqn:Eo; [congruence|].
  change (0 <? List.length (o :: os))%nat with true in H. cbv iota in H.
  unfold checkOrgMembership in H. rewrite Eo, checkOrgMembership_loop_spec in H.
  destruct (existsb _ (o :: os)) eqn:Ex; simpl in H; [|discriminate].
  injection H as <- _. exact Ex.
Qed.

Lemma audience_check (ac : accessController) (payload : oidcTokenPayload) :
  audience_accepted ac payload ->
  negb (String.eqb (oidcAudience ac) EmptyString)
  && negb (String.eqb (Aud payload) (oidcAudience ac)) = false.
Proof.
  intros [H|H]; rewrite H.
  - reflexivity.
  - rewrite String.eqb_refl. now rewrite andb_false_r.
Qed.

Lemma repository_check (ac : accessController) (payload : oidcTokenPayload) :
  repository_accepted ac payload ->
  (0 <? List.length (allowedRepos ac))%nat
  && negb (existsb (String.eqb (Repository payload)) (allowedRepos ac)) = false.
Proof.
  intros [H|H].
  - now rewrite H.
  - assert (E : existsb (String.eqb (Repository payload)) (allowedRepos ac) = true).
    { apply existsb_exists. exists (Repository payload). split; [exact H|].
      apply String.eqb_refl. }
    rewrite E. now rewrite andb_false_r.
Qed.

(** ** Machine arithmetic and base64 *)

Lemma lor_disjoint (x y k : Z) :
  0 <= k -> x mod 2 ^ k = 0 -> 0 <= y < 2 ^ k -> Z.lor x y = x + y.
Proof.
  intros Hk Hx Hy. symmetry. apply Z.add_nocarry_lor.
  apply Z.bits_inj'. intros n Hn. rewrite Z.land_spec, Z.bits_0.
  destruct (Z.lt_ge_cases n k) as [Hlt|Hge].
  - assert (Ex : x = x / 2 ^ k * 2 ^ k).
    { pose proof (Z.div_mod x (2 ^ k)). lia. }
    rewrite Ex, Z.mul_pow2_bits_low by lia. reflexivity.
  - assert (Ey : Z.testbit y n = false).
    { destruct (Z.eq_dec y 0) as [->|Hy0]; [apply Z.bits_0|].
      apply Z.bits_above_log2; [lia|].
      assert (Z.log2 y < k) by (apply Z.log2_lt_pow2; lia). lia. }
    rewrite Ey. apply andb_false_r.
Qed.

Lemma byte_val_range (c : ascii) : 0 <= byte_val c < 256.
Proof.
  unfold byte_val. pose proof (N_ascii_bounded c). lia.
Qed.

Lemma to_byte_val (c : ascii) (v : Z) : v mod 256 = byte_val c -> to_byte v = c.
Proof.
  intros H. unfold to_byte. change 255 with (Z.ones 8).
  rewrite Z.land_ones by lia. change (2 ^ 8) with 256. rewrite H.
  unfold byte_val. rewrite N2Z.id. apply ascii_N_embedding.
Qed.

Lemma land63 (v : Z) : Z.land v 63 = v mod 64.
Proof. change 63 with (Z.ones 6). now rewrite Z.land_ones by lia. Qed.

Ltac shifts :=
  rewrite ?Z.shiftl_mul_pow2, ?Z.shiftr_div_pow2, ?land63 by lia;
  change (2 ^ 18) with 262144; change (2 ^ 16) with 65536; change (2 ^ 12) with 4096;
  change (2 ^ 8) with 256; change (2 ^ 6) with 64; change (2 ^ 0) with 1.

Lemma pack3 (a b c : Z) :
  0 <= a < 256 -> 0 <= b < 256 -> 0 <= c < 256 ->
  Z.lor (Z.lor (Z.shiftl a 16) (Z.shiftl b 8)) c = a * 65536 + b * 256 + c.
Proof.
  intros Ha Hb Hc. shifts.
  rewrite (lor_disjoint (a * 65536) (b * 256) 16) by (try apply Z_mod_mult'; lia || (change (2^16) with 65536; rewrite ?Z.mod_mul; lia)).
  rewrite (lor_disjoint (a * 65536 + b * 256) c 8); [reflexivity | lia | | change (2 ^ 8) with 256; lia].
  change (2 ^ 8) with 256. Z.div_mod_to_equations; lia.
Qed.

Lemma pack4 (s0 s1 s2 s3 : Z) :
  0 <= s0 < 64 -> 0 <= s1 < 64 -> 0 <= s2 < 64 -> 0 <= s3 < 64 ->
  Z.lor (Z.lor (Z.lor (Z.shiftl s0 18) (Z.shiftl s1 12)) (Z.shiftl s2 6)) s3
  = s0 * 262144 + s1 * 4096 + s2 * 64 + s3.
Proof.
  intros H0 H1 H2 H3. shifts.
  rewrite (lor_disjoint (s0 * 262144) (s1 * 4096) 18);
    [| lia | change (2 ^ 18) with 262144; Z.div_mod_to_equations; lia
     | change (2 ^ 18) with 262144; lia].
  rewrite (lor_disjoint (s0 * 262144 + s1 * 4096) (s2 * 64) 12);
    [| lia | change (2 ^ 12) with 4096; Z.div_mod_to_equations; lia
     | change (2 ^ 12) with 4096; lia].
  rewrite (lor_disjoint (s0 * 262144 + s1 * 4096 + s2 * 64) s3 6);
    [reflexivity | lia | change (2 ^ 6) with 64; Z.div_mod_to_equations; lia
     | change (2 ^ 6) with 64; lia].
Qed.

Lemma mod64_range (v : Z) : 0 <= v mod 64 < 64.
Proof. apply Z.mod_pos_bound. lia. Qed.

Lemma sextet_range (v : Z) : 0 <= Z.land v 63 < 64.
Proof. rewrite land63. apply mod64_range. Qed.

Lemma quantum_bytes_4 (a b c : ascii) :
  let val := Z.lor (Z.lor (Z.shiftl (byte_val a) 16) (Z.shiftl (byte_val b) 8)) (byte_val c) in
  base64.quantum_bytes
    [Z.land (Z.shiftr val 18) 63; Z.land (Z.shiftr val 12) 63;
     Z.land (Z.shiftr val 6) 63; Z.land val 63] 4
  = [a; b; c].
Proof.
  intros val. unfold base64.quantum_bytes. cbn [nth Nat.sub firstn].
  pose proof (byte_val_range a) as Ha. pose proof (byte_val_range b) as Hb.
  pose proof (byte_val_range c) as Hc.
  subst val. rewrite (pack3 _ _ _ Ha Hb Hc), !land63.
  rewrite pack4 by apply mod64_range.
  f_equal; [|f_equal; [|f_equal]]; apply to_byte_val; shifts;
    Z.div_mod_to_equations; lia.
Qed.

Lemma quantum_bytes_3 (a b : ascii) :
  let val := Z.lor (Z.shiftl (byte_val a) 16) (Z.shiftl (byte_val b) 8) in
  base64.quantum_bytes
    [Z.land (Z.shiftr val 18) 63; Z.land (Z.shiftr val 12) 63;
     Z.land (Z.shiftr val 6) 63] 3
  = [a; b].
Proof.
  intros val. unfold base64.quantum_bytes. cbn [nth Nat.sub firstn].
  pose proof (byte_val_range a) as Ha. pose proof (byte_val_range b) as Hb.
  assert (E : val = byte_val a * 65536 + byte_val b * 256 + 0).
  { subst val. rewrite <- (pack3 (byte_val a) (byte_val b) 0) by lia.
    now rewrite Z.lor_0_r. }
  rewrite E, !land63.
  rewrite pack4 by (apply mod64_range || lia).
  f_equal; [|f_equal]; apply to_byte_val; shifts; Z.div_mod_to_equations; lia.
Qed.

Lemma quantum_bytes_2 (a : ascii) :
  let val := Z.shiftl (byte_val a) 16 in
  base64.quantum_bytes [Z.land (Z.shiftr val 18) 63; Z.land (Z.shiftr val 12) 63] 2 = [a].
Proof.
  intros val. unfold base64.quantum_bytes. cbn [nth Nat.sub firstn].
  pose proof (byte_val_range a) as Ha.
  subst val. rewrite !land63.
  rewrite pack4 by (apply mod64_range || lia).
  f_equal. apply to_byte_val; shifts; Z.div_mod_to_equations; lia.
Qed.

Lemma to_std_cons (c : ascii) (s : string) :
  to_std (String c s) = String (std_char c) (to_std s).
Proof. reflexivity. Qed.

Lemma to_std_app (s t : string) : to_std (s ++ t) = to_std s ++ to_std t.
Proof.
  induction s as [|c s IH]; [reflexivity|].
  change (String c s ++ t) with (String c (s ++ t)).
  rewrite !to_std_cons, IH. reflexivity.
Qed.

Lemma std_char_idem (c : ascii) : std_char (std_char c) = std_char c.
Proof.
  unfold std_char.
  destruct (Ascii.eqb c "-") eqn:E1; [reflexivity|].
  destruct (Ascii.eqb c "_") eqn:E2; [reflexivity|].
  now rewrite E1, E2.
Qed.

Lemma to_std_idem (s : string) : to_std (to_std s) = to_std s.
Proof.
  induction s as [|c s IH]; [reflexivity|].
  now rewrite !to_std_cons, std_char_idem, IH.
Qed.

Lemma to_std_length (s : string) : String.length (to_std s) = String.length s.
Proof. induction s as [|c s IH]; [reflexivity|]. rewrite to_std_cons. simpl. now rewrite IH. Qed.

Lemma alphabet_inverse (v : Z) :
  0 <= v < 64 ->
  base64.decodeMap base64.StdEncoding (std_char (base64.encode_at base64.RawURLEncoding v)) = v.
Proof.
  intros Hv.
  assert (Hn : forall n : nat, (n < 64)%nat ->
            base64.decodeMap base64.StdEncoding
              (std_char (base64.encode_at base64.RawURLEncoding (Z.of_nat n))) = Z.of_nat n).
  { intros n Hn.
    do 64 (destruct n as [|n]; [vm_compute; reflexivity|]). lia. }
  rewrite <- (Z2Nat.id v) by lia. apply Hn. lia.
Qed.

Lemma encode_at_no_dot (v : Z) :
  Ascii.eqb (base64.encode_at base64.RawURLEncoding (Z.land v 63)) "." = false.
Proof.
  assert (Hr : 0 <= Z.land v 63 < 64).
  { change 63 with (Z.ones 6). rewrite Z.land_ones by lia. apply Z.mod_pos_bound. lia. }
  assert (Hn : forall n : nat, (n < 64)%nat ->
            Ascii.eqb (base64.encode_at base64.RawURLEncoding (Z.of_nat n)) "." = false).
  { intros n Hn. do 64 (destruct n as [|n]; [vm_compute; reflexivity|]). lia. }
  rewrite <- (Z2Nat.id (Z.land v 63)) by lia. apply Hn. lia.
Qed.

Lemma encoded_no_dot (bs : list ascii) :
  strings.Contains (base64.EncodeToString base64.RawURLEncoding bs) "." = false.
Proof.
  induction bs as [| a | a b | a b c bs IH] using list_ind3.
  - reflexivity.
  - cbn [base64.EncodeToString strings.Contains]. cbv zeta.
    now rewrite !encode_at_no_dot.
  - cbn [base64.EncodeToString strings.Contains]. cbv zeta.
    now rewrite !encode_at_no_dot.
  - cbn [base64.EncodeToString strings.Contains]. cbv zeta.
    now rewrite !encode_at_no_dot, IH.
Qed.

Lemma decode_step (enc : base64.Encoding) (c : ascii) (rest : string) (si : Z) (dbuf : list Z) :
  base64.decodeMap enc c <> 255 ->
  base64.decode_from enc (String c rest) si dbuf
  = if (List.length (dbuf ++ [base64.decodeMap enc c]) =? 4)%nat
    then let '(bs, e) := base64.decode_from enc rest (si + 1) [] in
         ((base64.quantum_bytes (dbuf ++ [base64.decodeMap enc c]) 4 ++ bs)%list, e)
    else base64.decode_from enc rest (si + 1) (dbuf ++ [base64.decodeMap enc c]).
Proof.
  intros H. cbn [base64.decode_from].
  apply Z.eqb_neq in H. now rewrite H.
Qed.

Lemma decode_sextet (v : Z) (rest : string) (si : Z) (dbuf : list Z) :
  let c := std_char (base64.encode_at base64.RawURLEncoding (Z.land v 63)) in
  base64.decode_from base64.StdEncoding (String c rest) si dbuf
  = if (List.length (dbuf ++ [Z.land v 63]) =? 4)%nat
    then let '(bs, e) := base64.decode_from base64.StdEncoding rest (si + 1) [] in
         ((base64.quantum_bytes (dbuf ++ [Z.land v 63]) 4 ++ bs)%list, e)
    else base64.decode_from base64.StdEncoding rest (si + 1) (dbuf ++ [Z.land v 63]).
Proof.
  intros c. pose proof (sextet_range v) as Hr.
  pose proof (alphabet_inverse (Z.land v 63) Hr) as E. fold c in E.
  rewrite decode_step; rewrite E; [reflexivity | lia].
Qed.

Lemma decode_pad2 (d0 d1 si : Z) :
  base64.decode_from base64.StdEncoding "==" si [d0; d1]
  = (base64.quantum_bytes [d0; d1] 2, None).
Proof. reflexivity. Qed.

Lemma decode_pad1 (d0 d1 d2 si : Z) :
  base64.decode_from base64.StdEncoding "=" si [d0; d1; d2]
  = (base64.quantum_bytes [d0; d1; d2] 3, None).
Proof. reflexivity. Qed.

Lemma pad4_skip (a b c d : ascii) (s : string) :
  pad4 (String a (String b (String c (String d s))))
  = String a (String b (String c (String d (pad4 s)))).
Proof.
  unfold pad4, len. cbn [String.length].
  replace (Z.of_nat (S (S (S (S (String.length s)))))) with (Z.of_nat (String.length s) + 1 * 4) by lia.
  rewrite Z.mod_add by lia.
  destruct (Z.of_nat (String.length s) mod 4) as [|p|p]; try reflexivity;
    destruct p as [[?|?|]|[?|?|]|]; reflexivity.
Qed.

Lemma pad4_encoded (bs : list ascii) :
  pad4 (base64.EncodeToString base64.RawURLEncoding bs)
  = base64.EncodeToString base64.RawURLEncoding bs ++ raw_padding bs.
Proof.
  induction bs as [| a | a b | a b c bs IH] using list_ind3; try reflexivity.
  cbn [base64.EncodeToString raw_padding]. cbv zeta.
  rewrite pad4_skip, IH. reflexivity.
Qed.

Lemma pad4_added (s : string) : pad4 s = s ++ added_padding s.
Proof.
  unfold pad4, added_padding.
  destruct (len s mod 4) as [|p|p]; try (now rewrite append_nil_r);
    destruct p as [[?|?|]|[?|?|]|]; try reflexivity; now rewrite append_nil_r.
Qed.

Lemma decode_encoded (bs : list ascii) :
  forall si,
    base64.decode_from base64.StdEncoding
      (to_std (base64.EncodeToString base64.RawURLEncoding bs ++ raw_padding bs)) si []
    = (bs, None).
Proof.
  induction bs as [| a | a b | a b c bs IH] using list_ind3; intros si.
  - reflexivity.
  - cbn [base64.EncodeToString raw_padding base64.pad_bytes base64.padChar
           base64.RawURLEncoding]. cbv zeta.
    cbn [String.append]. rewrite !to_std_cons.
    rewrite !decode_sextet. cbn [app List.length Nat.eqb].
    change (to_std "==") with "==".
    rewrite decode_pad2, (quantum_bytes_2 a). reflexivity.
  - cbn [base64.EncodeToString raw_padding base64.pad_bytes base64.padChar
           base64.RawURLEncoding]. cbv zeta.
    cbn [String.append]. rewrite !to_std_cons.
    rewrite !decode_sextet. cbn [app List.length Nat.eqb].
    change (to_std "=") with "=".
    rewrite decode_pad1, (quantum_bytes_3 a b). reflexivity.
  - cbn [base64.EncodeToString raw_padding]. cbv zeta.
    cbn [String.append]. rewrite !to_std_cons.
    rewrite !decode_sextet. cbn [app List.length Nat.eqb].
    rewrite IH, (quantum_bytes_4 a b c). reflexivity.
Qed.

Theorem base64URLDecode_encoded (bs : list ascii) :
  base64URLDecode (base64.EncodeToString base64.RawURLEncoding bs) = (bs, None).
Proof.
  unfold base64URLDecode. fold (pad4 (base64.EncodeToString base64.RawURLEncoding bs)).
  rewrite pad4_encoded. apply decode_encoded.
Qed.

Lemma base64URLDecode_unfold (s : string) :
  base64URLDecode s = base64.DecodeString base64.StdEncoding (to_std (pad4 s)).
Proof. reflexivity. Qed.

Lemma pad4_to_std (s : string) : pad4 (to_std s) = to_std (pad4 s).
Proof.
  unfold pad4, len. rewrite to_std_length.
  destruct (Z.of_nat (String.length s) mod 4) as [|p|p]; try reflexivity;
    destruct p as [[?|?|]|[?|?|]|]; try reflexivity; now rewrite to_std_app.
Qed.

Lemma base64URLDecode_to_std (s : string) : base64URLDecode (to_std s) = base64URLDecode s.
Proof. now rewrite !base64URLDecode_unfold, pad4_to_std, to_std_idem. Qed.

Lemma pad4_explicit (s : string) :
  (len s mod 4 = 2 -> pad4 (s ++ "==") = pad4 s)
  /\ (len s mod 4 = 3 -> pad4 (s ++ "=") = pad4 s)
  /\ (len s mod 4 = 0 \/ len s mod 4 = 1 -> pad4 s = s).
Proof.
  unfold pad4. split; [|split]; intros H.
  - rewrite len_app. change (len "==") with 2.
    replace ((len s + 2) mod 4) with 0 by (Z.div_mod_to_equations; lia).
    now rewrite H.
  - rewrite len_app. change (len "=") with 1.
    replace ((len s + 1) mod 4) with 0 by (Z.div_mod_to_equations; lia).
    now rewrite H.
  - destruct H as [-> | ->]; reflexivity.
Qed.

Lemma no_newline_cons (c : ascii) (s : string) :
  no_newline (String c s) -> base64.is_newline c = false /\ no_newline s.
Proof.
  unfold no_newline, base64.is_newline. cbn [strings.Contains].
  intros [H1 H2]. apply orb_false_iff in H1 as [H1 H1'], H2 as [H2 H2'].
  now rewrite H1, H2.
Qed.

Lemma no_newline_to_std (s : string) : no_newline s -> no_newline (to_std s).
Proof.
  induction s as [|c s IH]; [trivial|]. intros H.
  destruct (no_newline_cons c s H) as [Hc Hs]. specialize (IH Hs).
  rewrite to_std_cons. unfold no_newline in *. cbn [strings.Contains].
  destruct IH as [-> ->]. rewrite !orb_false_r.
  unfold base64.is_newline in Hc. apply orb_false_iff in Hc as [Hl Hr].
  unfold std_char.
  destruct (Ascii.eqb c "-") eqn:E1.
  - split; reflexivity.
  - destruct (Ascii.eqb c "_") eqn:E2; [split; reflexivity|]. now rewrite Hl, Hr.
Qed.

Lemma skip_no_newline (s : string) : no_newline s -> base64.skip_newlines s = (0, s).
Proof.
  destruct s as [|c s]; [reflexivity|]. intros H.
  destruct (no_newline_cons c s H) as [Hc _]. cbn [base64.skip_newlines]. now rewrite Hc.
Qed.

(** Without newlines, a successful decoding has read whole quanta. *)
Lemma decode_success_length (src : string) :
  forall (si : Z) (dbuf : list Z) (bs : list ascii),
    no_newline src -> (List.length dbuf < 4)%nat ->
    base64.decode_from base64.StdEncoding src si dbuf = (bs, None) ->
    (Z.of_nat (List.length dbuf) + len src) mod 4 = 0.
Proof.
  induction src as [|c rest IH]; intros si dbuf bs Hn Hd H.
  - cbn [base64.decode_from] in H.
    destruct dbuf as [|d0 [|d1 dbuf]]; cbn [List.length] in H; try discriminate.
    reflexivity.
  - destruct (no_newline_cons c rest Hn) as [Hc Hrest].
    cbn [base64.decode_from] in H. cbv zeta in H.
    destruct (negb (base64.decodeMap base64.StdEncoding c =? 255)) eqn:Ev.
    + rewrite List.length_app in H. cbn [List.length] in H.
      destruct (List.length dbuf + 1 =? 4)%nat eqn:E4.
      * apply Nat.eqb_eq in E4.
        destruct (base64.decode_from base64.StdEncoding rest (si + 1) []) as [bs' e'] eqn:Er.
        injection H as _ ->.
        specialize (IH (si + 1) [] bs' Hrest ltac:(simpl; lia) Er).
        cbn [List.length] in IH. unfold len in *. cbn [String.length].
        replace (Z.of_nat (List.length dbuf) + Z.of_nat (S (String.length rest)))
          with (Z.of_nat 0 + Z.of_nat (String.length rest) + 1 * 4) by lia.
        now rewrite Z.mod_add by lia.
      * apply Nat.eqb_neq in E4.
        specialize (IH (si + 1) (dbuf ++ [base64.decodeMap base64.StdEncoding c])%list bs Hrest).
        rewrite List.length_app in IH. cbn [List.length] in IH.
        specialize (IH ltac:(lia) H). unfold len in *. cbn [String.length].
        replace (Z.of_nat (List.length dbuf) + Z.of_nat (S (String.length rest)))
          with (Z.of_nat (List.length dbuf + 1) + Z.of_nat (String.length rest)) by lia.
        exact IH.
    + rewrite Hc in H. cbn [base64.padChar base64.StdEncoding] in H.
      destruct (negb (Ascii.eqb c "=")); [discriminate|].
      destruct dbuf as [|d0 [|d1 [|d2 [|d3 dbuf]]]]; cbn [List.length] in H, Hd;
        try discriminate; try lia.
      * rewrite (skip_no_newline rest Hrest) in H.
        destruct rest as [|c2 r2]; [discriminate|].
        destruct (negb (Ascii.eqb c2 "=")); [discriminate|].
        destruct (no_newline_cons c2 r2 Hrest) as [_ Hr2].
        unfold base64.after_padding in H. rewrite (skip_no_newline r2 Hr2) in H.
        destruct r2; [reflexivity | discriminate].
      * unfold base64.after_padding in H. rewrite (skip_no_newline rest Hrest) in H.
        destruct rest; [reflexivity | discriminate].
Qed.

Lemma base64URLDecode_bad_length (s : string) :
  len s mod 4 = 1 -> no_newline s ->
  exists bs e, base64URLDecode s = (bs, Some e).
Proof.
  intros Hl Hn. rewrite base64URLDecode_unfold.
  destruct (pad4_explicit s) as (_ & _ & Hp). rewrite (Hp (or_intror Hl)).
  unfold base64.DecodeString.
  destruct (base64.decode_from base64.StdEncoding (to_std s) 0 []) as [bs [e|]] eqn:E.
  - now exists bs, e.
  - exfalso.
    pose proof (decode_success_length (to_std s) 0 [] bs (no_newline_to_std s Hn)
                  ltac:(simpl; lia) E) as H.
    unfold len in *. rewrite to_std_length in H. cbn [List.length] in H.
    rewrite Z.add_0_l in H. lia.
Qed.

(** ** JSON *)

Lemma rune_len_inv (s : string) (k : nat) :
  utf8.rune_len s = Some k ->
  String.length (utf8.take k s) = k
  /\ (1 < k)%nat
  /\ forall x, utf8.rune_len (utf8.take k s ++ x) = Some k.
Proof.
  unfold utf8.rune_len.
  destruct s as [|c [|c1 r1]]; try discriminate.
  destruct (utf8.lead c) as [[[n lo] hi]|] eqn:El; [|discriminate].
  destruct (utf8.between lo c1 hi) eqn:E1; [|discriminate].
  destruct n as [|[|[|[|[|n]]]]]; try discriminate.
  - intros [= <-]. split; [reflexivity|]. split; [lia|]. intros x. simpl. now rewrite El, E1.
  - destruct r1 as [|c2 r2]; [discriminate|].
    destruct (utf8.cont c2) eqn:E2; [|discriminate].
    intros [= <-]. split; [reflexivity|]. split; [lia|]. intros x. simpl. now rewrite El, E1, E2.
  - destruct r1 as [|c2 [|c3 r3]]; try discriminate.
    destruct (utf8.cont c2 && utf8.cont c3) eqn:E2; [|discriminate].
    intros [= <-]. split; [reflexivity|]. split; [lia|]. intros x. simpl. now rewrite El, E1, E2.
Qed.

Lemma lead_high (c : ascii) (v : nat * Z * Z) : utf8.lead c = Some v -> 194 <= byte_val c.
Proof.
  unfold utf8.lead. intros H.
  repeat match type of H with
         | (if ?b then _ else _) = _ => destruct b eqn:?
         end; try discriminate; lia.
Qed.

Lemma rune_len_head (c : ascii) (s : string) (k : nat) :
  utf8.rune_len (String c s) = Some k -> 194 <= byte_val c.
Proof.
  unfold utf8.rune_len. destruct s as [|c1 r1]; [discriminate|].
  destruct (utf8.lead c) as [v|] eqn:El; [|discriminate].
  intros _. exact (lead_high c v El).
Qed.

Lemma push_one (c : ascii) (r : option (string * string)) (s rest : string) :
  r = Some (s, rest) -> json.push (String c EmptyString) r = Some (String c s, rest).
Proof. now intros ->. Qed.

Lemma push_app (p : string) (r : option (string * string)) (s rest : string) :
  r = Some (s, rest) -> json.push p r = Some (p ++ s, rest).
Proof. now intros ->. Qed.

(** One ASCII byte, as written by [escape_byte], is read back in one step. *)
Lemma string_from_escape_byte (c : ascii) (m : nat) (x : string) :
  byte_val c < 128 ->
  json.string_from (S m) (json.escape_byte c ++ x)
  = json.push (String c EmptyString) (json.string_from m x).
Proof.
  intros Hc.
  destruct c as [[] [] [] [] [] [] [] []];
    first [ exfalso; vm_compute in Hc; discriminate Hc | reflexivity ].
Qed.

(** A well-formed sequence that is not escaped is copied in one step. *)
Lemma string_from_rune (c : ascii) (s x : string) (k m : nat) :
  utf8.rune_len (String c s) = Some k ->
  json.string_from (S m) (utf8.take k (String c s) ++ x)
  = json.push (utf8.take k (String c s)) (json.string_from m x).
Proof.
  intros Hk. pose proof (rune_len_head c s k Hk) as Hc.
  destruct (rune_len_inv (String c s) k Hk) as (Hlen & Hk1 & Hx).
  specialize (Hx x).
  destruct k as [|k]; [lia|]. cbn [utf8.take] in *. cbn [String.append] in *.
  cbn [json.string_from].
  assert (E1 : Ascii.eqb c dquote = false).
  { apply Ascii.eqb_neq. intros ->. vm_compute in Hc. now apply Hc. }
  assert (E2 : Ascii.eqb c "\" = false).
  { apply Ascii.eqb_neq. intros ->. vm_compute in Hc. now apply Hc. }
  assert (E3 : (byte_val c <? 32) = false) by (apply Z.ltb_ge; lia).
  assert (E4 : (byte_val c <? 128) = false) by (apply Z.ltb_ge; lia).
  rewrite E1, E2, E3, E4, Hx.
  change (String c (utf8.take k s ++ x)) with (String c (utf8.take k s) ++ x).
  rewrite <- Hlen. now rewrite take_app, drop_app.
Qed.

Lemma string_from_separator (m : nat) (x : string) :
  json.string_from (S m) (json.esc_u "2028" ++ x)
  = json.push json.LINE_SEPARATOR (json.string_from m x)
  /\ json.string_from (S m) (json.esc_u "2029" ++ x)
     = json.push json.PARAGRAPH_SEPARATOR (json.string_from m x).
Proof. split; reflexivity. Qed.

Lemma escape_byte_length (c : ascii) : (1 <= String.length (json.escape_byte c))%nat.
Proof.
  unfold json.escape_byte.
  repeat match goal with
         | |- context [if ?b then _ else _] => destruct b
         end; simpl; lia.
Qed.

(** What [appendString] writes between the quotes is read back as the
    string it was written from, when that string is well-formed. *)
Lemma string_from_escaped (n : nat) :
  forall (s rest : string) (m : nat),
    (String.length s <= n)%nat ->
    utf8.valid_from n s = true ->
    (String.length (json.escape_from n s) < m)%nat ->
    json.string_from m (json.escape_from n s ++ String dquote rest) = Some (s, rest).
Proof.
  induction n as [|n IH]; intros s rest m Hn Hv Hm.
  - destruct s; [|simpl in Hn; lia].
    destruct m as [|m]; [simpl in Hm; lia|]. reflexivity.
  - destruct s as [|c s].
    { destruct m as [|m]; [simpl in Hm; lia|]. reflexivity. }
    cbn [utf8.valid_from] in Hv. cbn [json.escape_from] in *.
    destruct (byte_val c <? 128) eqn:Ec.
    + apply Z.ltb_lt in Ec.
      rewrite string_length_app in Hm. pose proof (escape_byte_length c) as Hl.
      destruct m as [|m]; [lia|].
      rewrite append_assoc, (string_from_escape_byte c m _ Ec).
      apply push_one. apply IH; [simpl in Hn; lia | exact Hv | lia].
    + destruct (utf8.rune_len (String c s)) as [k|] eqn:Ek; [|discriminate].
      destruct (rune_len_inv _ k Ek) as (Hlen & Hk1 & _).
      assert (Hd : (String.length (strings.drop k (String c s)) <= n)%nat).
      { pose proof (take_drop k (String c s)) as E.
        apply (f_equal String.length) in E. rewrite string_length_app, Hlen in E.
        simpl in E, Hn. lia. }
      destruct m as [|m]; [lia|].
      destruct (String.eqb (utf8.take k (String c s)) json.LINE_SEPARATOR) eqn:E1;
        [|destruct (String.eqb (utf8.take k (String c s)) json.PARAGRAPH_SEPARATOR) eqn:E2].
      * apply String.eqb_eq in E1.
        rewrite append_assoc, (proj1 (string_from_separator m _)), <- E1.
        rewrite <- (take_drop k (String c s)) at 3. apply push_app.
        apply IH; [exact Hd | exact Hv |].
        rewrite string_length_app in Hm. simpl in Hm. lia.
      * apply String.eqb_eq in E2.
        rewrite append_assoc, (proj2 (string_from_separator m _)), <- E2.
        rewrite <- (take_drop k (String c s)) at 3. apply push_app.
        apply IH; [exact Hd | exact Hv |].
        rewrite string_length_app in Hm. simpl in Hm. lia.
      * rewrite append_assoc, (string_from_rune c s _ k m Ek).
        rewrite <- (take_drop k (String c s)) at 3. apply push_app.
        apply IH; [exact Hd | exact Hv |].
        rewrite string_length_app, Hlen in Hm. lia.
Qed.

Lemma string_literal_appendString (s rest : string) :
  utf8.ValidString s = true ->
  json.string_literal (json.escape_from (String.length s) s ++ String dquote rest)
  = Some (s, rest).
Proof.
  intros Hv. unfold json.string_literal.
  apply string_from_escaped; [lia | exact Hv |].
  rewrite string_length_app. simpl. lia.
Qed.

Lemma digit_spec (d : Z) :
  0 <= d < 10 ->
  strconv.is_digit (strconv.digit d) = true
  /\ byte_val (strconv.digit d) - 48 = d
  /\ (0 < d -> Ascii.eqb (strconv.digit d) "0" = false).
Proof.
  intros H.
  assert (E : d = 0 \/ d = 1 \/ d = 2 \/ d = 3 \/ d = 4 \/ d = 5 \/ d = 6 \/ d = 7
              \/ d = 8 \/ d = 9) by lia.
  repeat destruct E as [-> | E]; try subst d;
    (split; [reflexivity | split; [reflexivity | intros H0; try lia; reflexivity]]).
Qed.

Lemma all_digits_app (s t : string) : all_digits (s ++ t) = all_digits s && all_digits t.
Proof.
  induction s as [|c s IH]; [reflexivity|].
  simpl. rewrite IH. now rewrite andb_assoc.
Qed.

Lemma parse_digits_app (s t : string) :
  forall a, all_digits s = true ->
  exists a', strconv.parse_digits s a = Some a'
             /\ strconv.parse_digits (s ++ t) a = strconv.parse_digits t a'.
Proof.
  induction s as [|c s IH]; intros a H.
  - exists a. now split.
  - simpl in H. apply andb_true_iff in H as [Hc Hs].
    cbn [String.append strconv.parse_digits]. rewrite Hc. now apply IH.
Qed.

(** The digits [digits] writes: a digit other than zero, then digits, and
    they read back as the number. *)
Lemma digits_spec (fuel : nat) :
  forall (n : Z) (acc : string),
    0 < n < 10 ^ Z.of_nat fuel ->
    exists (d : ascii) (ds : string),
      strconv.digits fuel n acc = String d (ds ++ acc)
      /\ strconv.is_digit d = true /\ Ascii.eqb d "0" = false
      /\ all_digits ds = true
      /\ forall a, strconv.parse_digits (String d ds) a
                   = Some (a * 10 ^ Z.of_nat (String.length (String d ds)) + n).
Proof.
  induction fuel as [|fuel IH]; intros n acc Hn.
  - simpl in Hn. lia.
  - cbn [strconv.digits]. destruct (n <? 10) eqn:E.
    + apply Z.ltb_lt in E. destruct (digit_spec n ltac:(lia)) as (H1 & H2 & H3).
      exists (strconv.digit n), EmptyString. repeat split; try assumption.
      * apply H3. lia.
      * intros a. cbn [strconv.parse_digits]. rewrite H1, H2. reflexivity.
    + apply Z.ltb_ge in E.
      assert (Hq : 0 < n / 10 < 10 ^ Z.of_nat fuel).
      { rewrite Nat2Z.inj_succ, Z.pow_succ_r in Hn by lia.
        split; [apply Z.div_str_pos; lia | apply Z.div_lt_upper_bound; lia]. }
      destruct (IH (n / 10) (String (strconv.digit (n mod 10)) acc) Hq)
        as (d & ds & Hd & H1 & H2 & H3 & H4).
      destruct (digit_spec (n mod 10) ltac:(apply Z.mod_pos_bound; lia)) as (G1 & G2 & _).
      exists d, (ds ++ String (strconv.digit (n mod 10)) EmptyString).
      split; [rewrite Hd, append_assoc; reflexivity|].
      split; [exact H1|]. split; [exact H2|].
      split; [rewrite all_digits_app, H3; simpl; now rewrite G1|].
      intros a.
      change (String d (ds ++ String (strconv.digit (n mod 10)) EmptyString))
        with (String d ds ++ String (strconv.digit (n mod 10)) EmptyString).
      destruct (parse_digits_app (String d ds) (String (strconv.digit (n mod 10)) EmptyString) a)
        as (a' & Ha & ->).
      { simpl. now rewrite H1, H3. }
      rewrite H4 in Ha. injection Ha as <-.
      cbn [strconv.parse_digits]. rewrite G1, G2. f_equal.
      rewrite string_length_app. cbn [String.length].
      rewrite Nat2Z.inj_add, Z.pow_add_r by lia. change (10 ^ Z.of_nat 1) with 10.
      pose proof (Z.div_mod n 10 ltac:(lia)). lia.
Qed.

Lemma FormatUint_spec (n : Z) :
  0 <= n ->
  exists (d : ascii) (ds : string),
    strconv.FormatUint n = String d ds
    /\ strconv.is_digit d = true
    /\ (ds <> EmptyString -> Ascii.eqb d "0" = false)
    /\ all_digits ds = true
    /\ strconv.parse_digits (String d ds) 0 = Some n.
Proof.
  intros Hn. unfold strconv.FormatUint.
  destruct (n =? 0) eqn:E.
  - apply Z.eqb_eq in E. subst n. exists "0"%char, EmptyString.
    repeat split; try reflexivity. intros H; now elim H.
  - apply Z.eqb_neq in E.
    assert (Hf : 0 < n < 10 ^ Z.of_nat (S (Z.to_nat (Z.log2 n)))).
    { split; [lia|]. pose proof (Z.log2_nonneg n).
      rewrite Nat2Z.inj_succ, Z2Nat.id by lia.
      destruct (Z.log2_spec n ltac:(lia)) as [_ Hlt].
      apply Z.lt_le_trans with (1 := Hlt).
      apply Z.pow_le_mono_l. lia. }
    destruct (digits_spec _ n EmptyString Hf) as (d & ds & Hd & H1 & H2 & H3 & H4).
    exists d, ds. rewrite Hd, append_nil_r.
    refine (conj eq_refl (conj H1 (conj (fun _ => H2) (conj H3 _)))).
    rewrite H4. reflexivity.
Qed.

Lemma ParseInt_FormatInt (z : Z) : int64 z -> strconv.ParseInt (strconv.FormatInt z) = Some z.
Proof.
  intros Hz. unfold int64 in Hz. unfold strconv.FormatInt, strconv.ParseInt.
  assert (Hr : (- 2 ^ 63 <=? z) && (z <=? 2 ^ 63 - 1) = true).
  { apply andb_true_iff. split; apply Z.leb_le; lia. }
  destruct (z <? 0) eqn:E.
  - apply Z.ltb_lt in E.
    destruct (FormatUint_spec (- z) ltac:(lia)) as (d & ds & -> & H1 & _ & _ & H4).
    change (Ascii.eqb "-" "-") with true. cbv iota.
    unfold strconv.parse_unsigned. rewrite H4. simpl option_map.
    rewrite Z.opp_involutive. now rewrite Hr.
  - apply Z.ltb_ge in E.
    destruct (FormatUint_spec z ltac:(lia)) as (d & ds & -> & H1 & _ & _ & H4).
    assert (Em : Ascii.eqb d "-" = false).
    { apply Ascii.eqb_neq. intros ->. discriminate. }
    assert (Ep : Ascii.eqb d "+" = false).
    { apply Ascii.eqb_neq. intros ->. discriminate. }
    rewrite Em, Ep. unfold strconv.parse_unsigned. rewrite H4. now rewrite Hr.
Qed.

Lemma span_digits_app (ds : string) (c : ascii) (rest : string) :
  all_digits ds = true -> strconv.is_digit c = false ->
  json.span_digits (ds ++ String c rest) = (ds, String c rest).
Proof.
  intros Hd Hc. induction ds as [|x ds IH].
  - simpl. now rewrite Hc.
  - simpl in Hd. apply andb_true_iff in Hd as [Hx Hd].
    cbn [String.append json.span_digits]. rewrite Hx, (IH Hd). reflexivity.
Qed.

Lemma number_literal_unsigned (sign : string) (n : Z) (c : ascii) (rest : string) :
  0 <= n -> number_end c = true ->
  (sign = EmptyString \/ sign = "-") ->
  json.number_literal (sign ++ strconv.FormatUint n ++ String c rest)
  = Some (sign ++ strconv.FormatUint n, String c rest).
Proof.
  intros Hn Hc Hs.
  unfold number_end in Hc. apply negb_true_iff in Hc.
  apply orb_false_iff in Hc as [Hc HE]. apply orb_false_iff in Hc as [Hc He].
  apply orb_false_iff in Hc as [Hd Hp].
  destruct (FormatUint_spec n Hn) as (d & ds & E & H1 & H2 & H3 & _). rewrite E.
  assert (Em : Ascii.eqb d "-" = false).
  { apply Ascii.eqb_neq. intros ->. discriminate. }
  unfold json.number_literal.
  destruct Hs as [-> | ->].
  - cbn [String.append]. rewrite Em.
    destruct (Ascii.eqb d "0") eqn:E0.
    + apply Ascii.eqb_eq in E0. subst d.
      destruct ds as [|x ds]; [|specialize (H2 ltac:(discriminate)); discriminate].
      cbn [String.append]. rewrite Hp, He, HE. reflexivity.
    + rewrite H1, (span_digits_app ds c rest H3 Hd). rewrite Hp, He, HE.
      cbn [orb String.append]. now rewrite append_nil_r.
  - cbn [String.append]. change (Ascii.eqb "-" "-") with true. cbv iota.
    destruct (Ascii.eqb d "0") eqn:E0.
    + apply Ascii.eqb_eq in E0. subst d.
      destruct ds as [|x ds]; [|specialize (H2 ltac:(discriminate)); discriminate].
      cbn [String.append]. rewrite Hp, He, HE. reflexivity.
    + rewrite H1, (span_digits_app ds c rest H3 Hd). rewrite Hp, He, HE.
      cbn [orb String.append]. now rewrite append_nil_r.
Qed.

Lemma value_string (f : nat) (d : Z) (s rest : string) :
  utf8.ValidString s = true ->
  json.value (S f) d (json.appendString s ++ rest) = Some (json.Str s, rest).
Proof.
  intros Hv. unfold json.appendString. rewrite quoted_app.
  cbn [json.value json.skip_ws].
  change (json.is_space dquote) with false. cbv iota.
  change (Ascii.eqb dquote "{") with false. change (Ascii.eqb dquote "[") with false.
  change (Ascii.eqb dquote dquote) with true. cbv iota.
  now rewrite (string_literal_appendString s rest Hv).
Qed.

Lemma digit_not_structural (c : ascii) :
  strconv.is_digit c = true ->
  json.is_space c = false /\ Ascii.eqb c "{" = false /\ Ascii.eqb c "[" = false
  /\ Ascii.eqb c dquote = false.
Proof.
  destruct c as [[] [] [] [] [] [] [] []]; intros H;
    first [ discriminate H | repeat split ].
Qed.

Lemma value_int (f : nat) (d : Z) (z : Z) (c : ascii) (rest : string) :
  number_end c = true ->
  json.value (S f) d (strconv.FormatInt z ++ String c rest)
  = Some (json.Number (strconv.FormatInt z), String c rest).
Proof.
  intros Hc. unfold strconv.FormatInt.
  destruct (z <? 0) eqn:E.
  - apply Z.ltb_lt in E.
    change (String "-" (strconv.FormatUint (- z)) ++ String c rest)
      with ("-" ++ strconv.FormatUint (- z) ++ String c rest).
    pose proof (number_literal_unsigned "-" (- z) c rest ltac:(lia) Hc (or_intror eq_refl)) as H.
    cbn [String.append] in H |- *. cbn [json.value json.skip_ws].
    change (json.is_space "-") with false. cbv iota.
    change (Ascii.eqb "-" "{") with false. change (Ascii.eqb "-" "[") with false.
    change (Ascii.eqb "-" dquote) with false. change (Ascii.eqb "-" "-") with true.
    cbv iota. cbn [orb]. now rewrite H.
  - apply Z.ltb_ge in E.
    pose proof (number_literal_unsigned EmptyString z c rest E Hc (or_introl eq_refl)) as H.
    cbn [String.append] in H.
    destruct (FormatUint_spec z E) as (x & ds & Ex & H1 & _). rewrite Ex in *.
    destruct (digit_not_structural x H1) as (G1 & G2 & G3 & G4).
    cbn [String.append] in H |- *. cbn [json.value json.skip_ws].
    rewrite G1, G2, G3, G4, H1, orb_true_r. now rewrite H.
Qed.

Lemma members_more (f : nat) (d : Z) (k vtext : string) (v : json.Value) (rest : string) :
  plain_key k ->
  json.value (S f) d (vtext ++ String "," rest) = Some (v, String "," rest) ->
  json.members (S (S f)) d (quoted k ++ ":" ++ vtext ++ "," ++ rest)
  = match json.members (S f) d rest with
    | Some (ms, r) => Some ((k, v) :: ms, r)
    | None => None
    end.
Proof.
  intros Hk Hv. rewrite quoted_app. cbn [String.append] in *.
  cbn [json.members json.skip_ws].
  change (json.is_space dquote) with false. cbv iota.
  change (Ascii.eqb dquote dquote) with true. cbv iota.
  rewrite Hk. cbn [json.skip_ws].
  change (json.is_space ":") with false. cbv iota.
  change (Ascii.eqb ":" ":") with true. cbv iota.
  rewrite Hv. cbn [json.skip_ws].
  change (json.is_space ",") with false. cbv iota.
  change (Ascii.eqb "," ",") with true. cbv iota. reflexivity.
Qed.

Lemma members_last (f : nat) (d : Z) (k vtext : string) (v : json.Value) (rest : string) :
  plain_key k ->
  json.value f d (vtext ++ String "}" rest) = Some (v, String "}" rest) ->
  json.members (S f) d (quoted k ++ ":" ++ vtext ++ "}" ++ rest)
  = Some ([(k, v)], rest).
Proof.
  intros Hk Hv. rewrite quoted_app. cbn [String.append] in *.
  cbn [json.members json.skip_ws].
  change (json.is_space dquote) with false. cbv iota.
  change (Ascii.eqb dquote dquote) with true. cbv iota.
  rewrite Hk. cbn [json.skip_ws].
  change (json.is_space ":") with false. cbv iota.
  change (Ascii.eqb ":" ":") with true. cbv iota.
  rewrite Hv. cbn [json.skip_ws].
  change (json.is_space "}") with false. cbv iota.
  change (Ascii.eqb "}" ",") with false. change (Ascii.eqb "}" "}") with true.
  cbv iota. reflexivity.
Qed.

Lemma value_object (f : nat) (k x : string) (ms : list (string * json.Value)) (r : string) :
  json.members f 1 (quoted k ++ x) = Some (ms, r) ->
  json.value (S f) 0 ("{" ++ quoted k ++ x) = Some (json.Object ms, r).
Proof.
  rewrite quoted_app. intros H. cbn [String.append json.value json.skip_ws].
  change (json.is_space "{") with false. cbv iota.
  change (Ascii.eqb "{" "{") with true. cbv iota.
  change (json.maxNestingDepth <? 0 + 1) with false. cbv iota.
  change (json.is_space dquote) with false. cbv iota.
  change (Ascii.eqb dquote "}") with false. cbv iota.
  change (0 + 1) with 1. now rewrite H.
Qed.

Lemma members_Marshal (p : oidcTokenPayload) (f : nat) :
  valid_payload p ->
  json.members (9 + f) 1
    (json.join_members
       [ ("sub", json.appendString (Sub p));
         ("aud", json.appendString (Aud p));
         ("repository", json.appendString (Repository p));
         ("actor", json.appendString (Actor p));
         ("workflow", json.appendString (Workflow p));
         ("ref", json.appendString (Ref p));
         ("exp", strconv.FormatInt (Exp p));
         ("iat", strconv.FormatInt (Iat p)) ] ++ "}")
  = Some (payload_members p, EmptyString).
Proof.
  intros [H1 H2 H3 H4 H5 H6 _ _].
  cbn [json.join_members Nat.add].
  repeat (rewrite append_assoc; cbn [String.append]).
  assert (Hs : forall f d s rest,
             utf8.ValidString s = true ->
             json.value (S f) d (json.appendString s ++ String "," rest)
             = Some (json.Str s, String "," rest))
    by (intros; now apply value_string).
  pose proof members_more as M. cbn [String.append] in M.
  pose proof members_last as L. cbn [String.append] in L.
  rewrite (M _ _ "sub" _ (json.Str (Sub p))); [|intros x; reflexivity | now apply Hs].
  rewrite (M _ _ "aud" _ (json.Str (Aud p))); [|intros x; reflexivity | now apply Hs].
  rewrite (M _ _ "repository" _ (json.Str (Repository p)));
    [|intros x; reflexivity | now apply Hs].
  rewrite (M _ _ "actor" _ (json.Str (Actor p))); [|intros x; reflexivity | now apply Hs].
  rewrite (M _ _ "workflow" _ (json.Str (Workflow p)));
    [|intros x; reflexivity | now apply Hs].
  rewrite (M _ _ "ref" _ (json.Str (Ref p))); [|intros x; reflexivity | now apply Hs].
  rewrite (M _ _ "exp" _ (json.Number (strconv.FormatInt (Exp p))));
    [|intros x; reflexivity | now apply value_int].
  rewrite (L _ _ "iat" _ (json.Number (strconv.FormatInt (Iat p))) EmptyString);
    [|intros x; reflexivity | now apply value_int].
  reflexivity.
Qed.

Lemma parse_Marshal (p : oidcTokenPayload) :
  valid_payload p ->
  json.parse (string_of (Marshal_oidcTokenPayload p)) = Some (json.Object (payload_members p)).
Proof.
  intros Hp.
  unfold Marshal_oidcTokenPayload, json.encode_struct. rewrite string_of_bytes_of.
  unfold json.parse.
  set (text := "{" ++ json.join_members _ ++ "}").
  assert (Hlen : exists f, String.length text = (9 + f)%nat).
  { exists (String.length text - 9)%nat. subst text. cbn [json.join_members].
    repeat (rewrite string_length_app; cbn [String.length quoted]). lia. }
  destruct Hlen as [f ->]. subst text.
  pose proof (members_Marshal p f Hp) as Hm.
  set (J := json.join_members _) in *.
  assert (EJ : exists x, J ++ "}" = quoted "sub" ++ x).
  { eexists. subst J. cbn [json.join_members]. rewrite append_assoc. reflexivity. }
  destruct EJ as [x EJ]. rewrite EJ in Hm |- *.
  rewrite (value_object _ _ _ _ _ Hm). reflexivity.
Qed.

Lemma fill_stored {T : Type} (fields : list (json.Field T)) (f : json.Field T)
    (key : string) (v : json.Value) (ms : list (string * json.Value)) (t t' : T) :
  json.find_field fields key = Some f ->
  json.store f v t = Some t' ->
  json.fill fields ((key, v) :: ms) t = json.fill fields ms t'.
Proof. intros Hf Hs. cbn [json.fill]. now rewrite Hf, Hs. Qed.

Lemma store_FormatInt {T : Type} (set : Z -> T -> T) (z : Z) (t : T) :
  int64 z ->
  json.store_int64 set (json.Number (strconv.FormatInt z)) t = Some (set z t).
Proof. intros Hz. unfold json.store_int64. now rewrite (ParseInt_FormatInt z Hz). Qed.

Lemma Unmarshal_Marshal (p : oidcTokenPayload) :
  valid_payload p ->
  json.Unmarshal oidcTokenPayload_fields (Marshal_oidcTokenPayload p) oidcTokenPayload_zero
  = (p, None).
Proof.
  intros Hp. unfold json.Unmarshal. rewrite (parse_Marshal p Hp).
  destruct Hp as [_ _ _ _ _ _ He Hi].
  destruct p as [sub aud repository actor workflow ref exp iat].
  unfold payload_members, oidcTokenPayload_zero.
  cbn [Sub Aud Repository Actor Workflow Ref Exp Iat] in *.
  do 6 (erewrite fill_stored; [| reflexivity | reflexivity];
        cbn [Sub Aud Repository Actor Workflow Ref Exp Iat]).
  erewrite fill_stored; [| reflexivity | apply (store_FormatInt _ _ _ He)].
  cbn [Sub Aud Repository Actor Workflow Ref Exp Iat].
  erewrite fill_stored; [| reflexivity | apply (store_FormatInt _ _ _ Hi)].
  reflexivity.
Qed.

(** ** The fuel of the parser *)

Lemma skip_ws_length (s : string) : (String.length (json.skip_ws s) <= String.length s)%nat.
Proof.
  induction s as [|c s IH]; [simpl; lia|].
  cbn [json.skip_ws]. destruct (json.is_space c); simpl in *; lia.
Qed.

Lemma drop_length (n : nat) (s : string) :
  String.length (strings.drop n s) = (String.length s - n)%nat.
Proof.
  revert s; induction n as [|n IH]; intros s; [simpl; lia|].
  destruct s as [|c s]; [reflexivity|]. simpl. apply IH.
Qed.

Lemma push_some (bs : string) (r : option (string * string)) (v rest : string) :
  json.push bs r = Some (v, rest) -> exists v', r = Some (v', rest).
Proof. destruct r as [[v' rest']|]; [|discriminate]. intros [= _ <-]. now exists v'. Qed.

Lemma hex4_length (s : string) (x : Z) (r : string) :
  json.hex4 s = Some (x, r) -> (String.length r < String.length s)%nat.
Proof.
  unfold json.hex4. destruct s as [|h1 [|h2 [|h3 [|h4 rest]]]]; try discriminate.
  destruct (json.hex_val h1), (json.hex_val h2), (json.hex_val h3), (json.hex_val h4);
    try discriminate.
  intros [= _ <-]. simpl. lia.
Qed.

Lemma getu4_length (s : string) (x : Z) (r : string) :
  json.getu4 s = Some (x, r) -> (String.length r < String.length s)%nat.
Proof.
  unfold json.getu4. destruct s as [|b [|u rest]]; try discriminate.
  destruct (Ascii.eqb b "\" && Ascii.eqb u "u"); [|discriminate].
  intros H. apply hex4_length in H. simpl. lia.
Qed.

Lemma string_from_length (f : nat) :
  forall s v r, json.string_from f s = Some (v, r) -> (String.length r < String.length s)%nat.
Proof.
  induction f as [|f IH]; intros s v r H; [discriminate|].
  destruct s as [|c rest]; [discriminate|]. cbn [json.string_from] in H.
  destruct (Ascii.eqb c dquote); [injection H as _ <-; simpl; lia|].
  destruct (Ascii.eqb c "\").
  - destruct rest as [|e rest1]; [discriminate|].
    destruct (Ascii.eqb e "u").
    + destruct (json.hex4 rest1) as [[rr rest2]|] eqn:E4; [|discriminate].
      apply hex4_length in E4.
      destruct ((55296 <=? rr) && (rr <? 57344)).
      * destruct (json.getu4 rest2) as [[rr1 rest3]|] eqn:Eu.
        -- apply getu4_length in Eu.
           destruct ((rr <? 56320) && (56320 <=? rr1) && (rr1 <? 57344));
             apply push_some in H as [v' H]; apply IH in H; simpl; lia.
        -- apply push_some in H as [v' H]; apply IH in H; simpl; lia.
      * apply push_some in H as [v' H]; apply IH in H; simpl; lia.
    + destruct (json.simple_escape e); [|discriminate].
      apply push_some in H as [v' H]; apply IH in H; simpl; lia.
  - destruct (byte_val c <? 32); [discriminate|].
    destruct (byte_val c <? 128).
    + apply push_some in H as [v' H]; apply IH in H; simpl; lia.
    + destruct (utf8.rune_len (String c rest)) as [n|] eqn:En.
      * apply push_some in H as [v' H]; apply IH in H.
        rewrite drop_length in H. simpl in *. lia.
      * apply push_some in H as [v' H]; apply IH in H; simpl; lia.
Qed.

Lemma span_digits_length (s d r : string) :
  json.span_digits s = (d, r) -> (String.length r <= String.length s)%nat.
Proof.
  revert d r; induction s as [|c s IH]; intros d r H.
  - injection H as _ <-. simpl; lia.
  - cbn [json.span_digits] in H. destruct (strconv.is_digit c).
    + destruct (json.span_digits s) as [d' r'] eqn:E. injection H as _ <-.
      specialize (IH d' r' eq_refl). simpl; lia.
    + injection H as _ <-. simpl; lia.
Qed.

Lemma number_literal_length (s l r : string) :
  json.number_literal s = Some (l, r) -> (String.length r < String.length s)%nat.
Proof.
  unfold json.number_literal.
  set (p := match s with
            | String c r0 => if Ascii.eqb c "-" then ("-", r0) else (EmptyString, s)
            | EmptyString => (EmptyString, s)
            end).
  assert (Hp : (String.length (snd p) <= String.length s)%nat).
  { subst p. destruct s as [|c r0]; [simpl; lia|].
    destruct (Ascii.eqb c "-"); simpl; lia. }
  destruct p as [sign s1]. cbn [snd] in Hp.
  set (ip := match s1 with
             | String c r0 =>
                 if Ascii.eqb c "0" then Some ("0", r0)
                 else if strconv.is_digit c
                      then let '(d, r') := json.span_digits r0 in Some (String c d, r')
                      else None
             | EmptyString => None
             end).
  assert (Hi : forall x s2, ip = Some (x, s2) -> (String.length s2 < String.length s1)%nat).
  { subst ip. intros x s2 H. destruct s1 as [|c r0]; [discriminate|].
    destruct (Ascii.eqb c "0"); [injection H as _ <-; simpl; lia|].
    destruct (strconv.is_digit c); [|discriminate].
    destruct (json.span_digits r0) as [d r'] eqn:E. injection H as _ <-.
    apply span_digits_length in E. simpl; lia. }
  destruct ip as [[x s2]|]; [|discriminate]. specialize (Hi x s2 eq_refl).
  set (fr := match s2 with
             | String c r0 =>
                 if Ascii.eqb c "." then
                   match json.span_digits r0 with
                   | (EmptyString, _) => None
                   | (d, r') => Some (String c d, r')
                   end
                 else Some (EmptyString, s2)
             | EmptyString => Some (EmptyString, s2)
             end).
  assert (Hf : forall y s3, fr = Some (y, s3) -> (String.length s3 <= String.length s2)%nat).
  { subst fr. intros y s3 H. destruct s2 as [|c r0]; [injection H as _ <-; simpl; lia|].
    destruct (Ascii.eqb c "."); [|injection H as _ <-; simpl; lia].
    destruct (json.span_digits r0) as [d r'] eqn:E. apply span_digits_length in E.
    destruct d; [discriminate|]. injection H as _ <-. simpl; lia. }
  destruct fr as [[y s3]|]; [|discriminate]. specialize (Hf y s3 eq_refl).
  set (ex := match s3 with
             | String c r0 =>
                 if Ascii.eqb c "e" || Ascii.eqb c "E" then
                   let '(esign, r1) :=
                     match r0 with
                     | String g r' =>
                         if Ascii.eqb g "+" || Ascii.eqb g "-"
                         then (String g EmptyString, r') else (EmptyString, r0)
                     | EmptyString => (EmptyString, r0)
                     end in
                   match json.span_digits r1 with
                   | (EmptyString, _) => None
                   | (d, r2) => Some (String c (esign ++ d), r2)
                   end
                 else Some (EmptyString, s3)
             | EmptyString => Some (EmptyString, s3)
             end).
  assert (He : forall z s4, ex = Some (z, s4) -> (String.length s4 <= String.length s3)%nat).
  { subst ex. intros z s4 H. destruct s3 as [|c r0]; [injection H as _ <-; simpl; lia|].
    destruct (Ascii.eqb c "e" || Ascii.eqb c "E"); [|injection H as _ <-; simpl; lia].
    set (q := match r0 with
              | String g r' =>
                  if Ascii.eqb g "+" || Ascii.eqb g "-"
                  then (String g EmptyString, r') else (EmptyString, r0)
              | EmptyString => (EmptyString, r0)
              end) in H.
    assert (Hq : (String.length (snd q) <= String.length r0)%nat).
    { subst q. destruct r0 as [|g r']; [simpl; lia|].
      destruct (Ascii.eqb g "+" || Ascii.eqb g "-"); simpl; lia. }
    destruct q as [esign r1]. cbn [snd] in Hq.
    destruct (json.span_digits r1) as [d r2] eqn:E. apply span_digits_length in E.
    destruct d; [discriminate|]. injection H as _ <-. simpl; lia. }
  destruct ex as [[z s4]|]; [|discriminate]. specialize (He z s4 eq_refl).
  intros [= _ <-]. lia.
Qed.

Lemma expect_length (word : string) (v v' : json.Value) (s r : string) :
  word <> EmptyString ->
  json.expect word v s = Some (v', r) -> (String.length r < String.length s)%nat.
Proof.
  unfold json.expect. intros Hw H.
  destruct (strings.HasPrefix s word) eqn:E; [|discriminate].
  injection H as _ <-. rewrite drop_length.
  assert (String.length word <= String.length s)%nat.
  { clear Hw. revert s E. induction word as [|c w IH]; intros s E; [simpl; lia|].
    destruct s as [|d s]; [discriminate|]. simpl in E.
    apply andb_true_iff in E as [_ E]. apply IH in E. simpl; lia. }
  destruct word; [congruence|]. simpl in *. lia.
Qed.

Lemma fuel_enough_value_step (f : nat) :
  fuel_enough json.members f -> fuel_enough json.elements f -> fuel_enough json.value (S f).
Proof.
  intros IHm IHe d s v r H.
  cbn [json.value] in H.
  pose proof (skip_ws_length s) as Hs.
  destruct (json.skip_ws s) as [|c rest] eqn:Es; [discriminate|]. cbn [String.length] in Hs.
  destruct (Ascii.eqb c "{") eqn:Ec1.
  { destruct (json.maxNestingDepth <? d + 1) eqn:Ed; [discriminate|].
    pose proof (skip_ws_length rest) as Hr.
    destruct (json.skip_ws rest) as [|c1 r1] eqn:Er; [discriminate|]. cbn [String.length] in Hr.
    destruct (Ascii.eqb c1 "}") eqn:Ec2.
    - injection H as <- <-. split; [lia|]. intros f' Hf'.
      destruct f' as [|f']; [lia|]. cbn [json.value]. now rewrite Es, Ec1, Ed, Er, Ec2.
    - destruct (json.members f (d + 1) rest) as [[ms r']|] eqn:Em; [|discriminate].
      injection H as <- <-. destruct (IHm _ _ _ _ Em) as [Hl Hst].
      split; [lia|]. intros f' Hf'.
      destruct f' as [|f']; [lia|]. cbn [json.value].
      rewrite Es, Ec1, Ed, Er, Ec2, (Hst f' ltac:(lia)). reflexivity. }
  destruct (Ascii.eqb c "[") eqn:Ec2.
  { destruct (json.maxNestingDepth <? d + 1) eqn:Ed; [discriminate|].
    pose proof (skip_ws_length rest) as Hr.
    destruct (json.skip_ws rest) as [|c1 r1] eqn:Er; [discriminate|]. cbn [String.length] in Hr.
    destruct (Ascii.eqb c1 "]") eqn:Ec3.
    - injection H as <- <-. split; [lia|]. intros f' Hf'.
      destruct f' as [|f']; [lia|]. cbn [json.value]. now rewrite Es, Ec1, Ec2, Ed, Er, Ec3.
    - destruct (json.elements f (d + 1) rest) as [[vs r']|] eqn:Em; [|discriminate].
      injection H as <- <-. destruct (IHe _ _ _ _ Em) as [Hl Hst].
      split; [lia|]. intros f' Hf'.
      destruct f' as [|f']; [lia|]. cbn [json.value].
      rewrite Es, Ec1, Ec2, Ed, Er, Ec3, (Hst f' ltac:(lia)). reflexivity. }
  assert (Hleaf : forall x : option (json.Value * string),
             x = Some (v, r) ->
             (forall v' r', x = Some (v', r') -> (String.length r' < S (String.length rest))%nat) ->
             (forall f', json.value (S f') d s = x) ->
             (String.length r < String.length s)%nat
             /\ forall f', (String.length s - String.length r <= f')%nat ->
                           json.value f' d s = Some (v, r)).
  { intros x Hx Hlen Hv. specialize (Hlen v r Hx). split; [lia|].
    intros f' Hf'. destruct f' as [|f']; [lia|]. now rewrite Hv. }
  destruct (Ascii.eqb c dquote) eqn:Ec3.
  { apply (Hleaf _ H).
    - intros v' r'. destruct (json.string_literal rest) as [[v0 r0]|] eqn:E; [|discriminate].
      intros [= _ <-]. unfold json.string_literal in E. apply string_from_length in E. lia.
    - intros f'. cbn [json.value]. now rewrite Es, Ec1, Ec2, Ec3. }
  destruct (Ascii.eqb c "-" || strconv.is_digit c) eqn:Ec4.
  { apply (Hleaf _ H).
    - intros v' r'. destruct (json.number_literal (String c rest)) as [[l0 r0]|] eqn:E;
        [|discriminate].
      intros [= _ <-]. apply number_literal_length in E. simpl in E. lia.
    - intros f'. cbn [json.value]. now rewrite Es, Ec1, Ec2, Ec3, Ec4. }
  destruct (Ascii.eqb c "t") eqn:Ec5.
  { apply (Hleaf _ H).
    - intros v' r' E. apply expect_length in E; [simpl in E; lia | discriminate].
    - intros f'. cbn [json.value]. now rewrite Es, Ec1, Ec2, Ec3, Ec4, Ec5. }
  destruct (Ascii.eqb c "f") eqn:Ec6.
  { apply (Hleaf _ H).
    - intros v' r' E. apply expect_length in E; [simpl in E; lia | discriminate].
    - intros f'. cbn [json.value]. now rewrite Es, Ec1, Ec2, Ec3, Ec4, Ec5, Ec6. }
  destruct (Ascii.eqb c "n") eqn:Ec7; [|discriminate].
  apply (Hleaf _ H).
  - intros v' r' E. apply expect_length in E; [simpl in E; lia | discriminate].
  - intros f'. cbn [json.value]. now rewrite Es, Ec1, Ec2, Ec3, Ec4, Ec5, Ec6, Ec7.
Qed.

Lemma fuel_enough_members_step (f : nat) :
  fuel_enough json.value f -> fuel_enough json.members f -> fuel_enough json.members (S f).
Proof.
  intros IHv IHm d s v r H.
  cbn [json.members] in H.
  pose proof (skip_ws_length s) as Hs.
  destruct (json.skip_ws s) as [|q r0] eqn:Es; [discriminate|]. cbn [String.length] in Hs.
  destruct (Ascii.eqb q dquote) eqn:Eq; [|discriminate].
  destruct (json.string_literal r0) as [[key r1]|] eqn:Ek; [|discriminate].
  pose proof Ek as Hk. unfold json.string_literal in Hk. apply string_from_length in Hk.
  pose proof (skip_ws_length r1) as Hr1.
  destruct (json.skip_ws r1) as [|c2 r2] eqn:E1; [discriminate|]. cbn [String.length] in Hr1.
  destruct (Ascii.eqb c2 ":") eqn:Ec2; [|discriminate].
  destruct (json.value f d r2) as [[v0 r3]|] eqn:Ev; [|discriminate].
  destruct (IHv _ _ _ _ Ev) as [Hl3 Hst3].
  pose proof (skip_ws_length r3) as Hr3.
  destruct (json.skip_ws r3) as [|c3 r4] eqn:E3; [discriminate|]. cbn [String.length] in Hr3.
  destruct (Ascii.eqb c3 ",") eqn:Ec3.
  - destruct (json.members f d r4) as [[ms r5]|] eqn:Em; [|discriminate].
    destruct (IHm _ _ _ _ Em) as [Hl5 Hst5]. injection H as <- <-.
    split; [lia|]. intros f' Hf'. destruct f' as [|f']; [lia|].
    cbn [json.members].
    rewrite Es, Eq, Ek, E1, Ec2, (Hst3 f' ltac:(lia)), E3, Ec3, (Hst5 f' ltac:(lia)).
    reflexivity.
  - destruct (Ascii.eqb c3 "}") eqn:Ec4; [|discriminate]. injection H as <- <-.
    split; [lia|]. intros f' Hf'. destruct f' as [|f']; [lia|].
    cbn [json.members].
    rewrite Es, Eq, Ek, E1, Ec2, (Hst3 f' ltac:(lia)), E3, Ec3, Ec4. reflexivity.
Qed.

Lemma fuel_enough_elements_step (f : nat) :
  fuel_enough json.value f -> fuel_enough json.elements f -> fuel_enough json.elements (S f).
Proof.
  intros IHv IHe d s v r H.
  cbn [json.elements] in H.
  destruct (json.value f d s) as [[v0 r0]|] eqn:Ev; [|discriminate].
  destruct (IHv _ _ _ _ Ev) as [Hl0 Hst0].
  pose proof (skip_ws_length r0) as Hr0.
  destruct (json.skip_ws r0) as [|c r1] eqn:E0; [discriminate|]. cbn [String.length] in Hr0.
  destruct (Ascii.eqb c ",") eqn:Ec.
  - destruct (json.elements f d r1) as [[vs r2]|] eqn:Ee; [|discriminate].
    destruct (IHe _ _ _ _ Ee) as [Hl2 Hst2]. injection H as <- <-.
    split; [lia|]. intros f' Hf'. destruct f' as [|f']; [lia|].
    cbn [json.elements].
    rewrite (Hst0 f' ltac:(lia)), E0, Ec, (Hst2 f' ltac:(lia)). reflexivity.
  - destruct (Ascii.eqb c "]") eqn:Ec2; [|discriminate]. injection H as <- <-.
    split; [lia|]. intros f' Hf'. destruct f' as [|f']; [lia|].
    cbn [json.elements]. rewrite (Hst0 f' ltac:(lia)), E0, Ec, Ec2. reflexivity.
Qed.

Lemma fuel_enough_all (f : nat) :
  fuel_enough json.value f /\ fuel_enough json.members f /\ fuel_enough json.elements f.
Proof.
  induction f as [|f (IHv & IHm & IHe)].
  - split; [|split]; intros ? ? ? ? H; discriminate H.
  - split; [now apply fuel_enough_value_step|].
    split; [now apply fuel_enough_members_step | now apply fuel_enough_elements_step].
Qed.

(** No fuel beyond the length of the input and one is ever needed: a
    value found with any fuel is found by [parse]. *)
Theorem parse_fuel (data : string) (f : nat) (v : json.Value) (rest : string) :
  json.value f 0 data = Some (v, rest) ->
  json.value (S (String.length data)) 0 data = Some (v, rest).
Proof.
  intros H. destruct (fuel_enough_all f) as [Hv _].
  destruct (Hv 0 data v rest H) as [_ Hst]. apply Hst. lia.
Qed.

Lemma push_fuel (bs : string) (f : nat) (s1 v r : string)
    (IH : forall s v r, json.string_from f s = Some (v, r) ->
          (String.length r < String.length s)%nat
          /\ forall f', (String.length s - String.length r <= f')%nat ->
                        json.string_from f' s = Some (v, r)) :
  json.push bs (json.string_from f s1) = Some (v, r) ->
  (String.length r < String.length s1)%nat
  /\ forall f', (String.length s1 - String.length r <= f')%nat ->
                json.push bs (json.string_from f' s1) = Some (v, r).
Proof.
  intros H. destruct (json.string_from f s1) as [[v1 r1]|] eqn:E; [|discriminate].
  injection H as <- <-. destruct (IH _ _ _ E) as [Hl Hst].
  split; [exact Hl|]. intros f' Hf'. now rewrite (Hst f' Hf').
Qed.

Lemma string_from_fuel (f : nat) :
  forall s v r,
    json.string_from f s = Some (v, r) ->
    (String.length r < String.length s)%nat
    /\ forall f', (String.length s - String.length r <= f')%nat ->
                  json.string_from f' s = Some (v, r).
Proof.
  induction f as [|f IH]; intros s v r H; [discriminate|].
  destruct s as [|c rest]; [discriminate|]. cbn [json.string_from] in H.
  assert (Hstep : forall bs s1,
             (String.length s1 < String.length (String c rest))%nat ->
             json.push bs (json.string_from f s1) = Some (v, r) ->
             (forall f', json.string_from (S f') (String c rest)
                         = json.push bs (json.string_from f' s1)) ->
             (String.length r < String.length (String c rest))%nat
             /\ forall f', (String.length (String c rest) - String.length r <= f')%nat ->
                           json.string_from f' (String c rest) = Some (v, r)).
  { intros bs s1 Hs1 Hp Hunf. destruct (push_fuel bs f s1 v r IH Hp) as [Hl Hst].
    split; [lia|]. intros f' Hf'. destruct f' as [|f']; [lia|].
    rewrite Hunf. apply Hst. lia. }
  destruct (Ascii.eqb c dquote) eqn:E1.
  { injection H as <- <-. split; [simpl; lia|]. intros f' Hf'.
    destruct f' as [|f']; [simpl in Hf'; lia|]. cbn [json.string_from]. now rewrite E1. }
  destruct (Ascii.eqb c "\") eqn:E2.
  - destruct rest as [|e rest1]; [discriminate|].
    destruct (Ascii.eqb e "u") eqn:E3.
    + destruct (json.hex4 rest1) as [[rr rest2]|] eqn:E4; [|discriminate].
      pose proof (hex4_length _ _ _ E4) as H4.
      destruct ((55296 <=? rr) && (rr <? 57344)) eqn:E5.
      * destruct (json.getu4 rest2) as [[rr1 rest3]|] eqn:Eu.
        -- pose proof (getu4_length _ _ _ Eu) as Hu.
           destruct ((rr <? 56320) && (56320 <=? rr1) && (rr1 <? 57344)) eqn:E6.
           ++ eapply (Hstep _ rest3); [simpl; lia | exact H |].
              intros f'. cbn [json.string_from]. now rewrite E1, E2, E3, E4, E5, Eu, E6.
           ++ eapply (Hstep _ rest2); [simpl; lia | exact H |].
              intros f'. cbn [json.string_from]. now rewrite E1, E2, E3, E4, E5, Eu, E6.
        -- eapply (Hstep _ rest2); [simpl; lia | exact H |].
           intros f'. cbn [json.string_from]. now rewrite E1, E2, E3, E4, E5, Eu.
      * eapply (Hstep _ rest2); [simpl; lia | exact H |].
        intros f'. cbn [json.string_from]. now rewrite E1, E2, E3, E4, E5.
    + destruct (json.simple_escape e) as [b|] eqn:E4; [|discriminate].
      eapply (Hstep _ rest1); [simpl; lia | exact H |].
      intros f'. cbn [json.string_from]. now rewrite E1, E2, E3, E4.
  - destruct (byte_val c <? 32) eqn:E3; [discriminate|].
    destruct (byte_val c <? 128) eqn:E4.
    + eapply (Hstep _ rest); [simpl; lia | exact H |].
      intros f'. cbn [json.string_from]. now rewrite E1, E2, E3, E4.
    + destruct (utf8.rune_len (String c rest)) as [n|] eqn:En.
      * eapply (Hstep _ (strings.drop n (String c rest))); [| exact H |].
        -- rewrite drop_length.
           assert (0 < n)%nat; [|simpl; lia].
           unfold utf8.rune_len in En. destruct rest as [|c1 r1]; [discriminate|].
           destruct (utf8.lead c) as [[[k lo] hi]|]; [|discriminate].
           destruct (utf8.between lo c1 hi); [|discriminate].
           destruct k as [|[|[|[|[|k]]]]]; try discriminate.
           ++ injection En as <-. lia.
           ++ destruct r1 as [|c2 r2]; [discriminate|].
              destruct (utf8.cont c2); [injection En as <-; lia | discriminate].
           ++ destruct r1 as [|c2 [|c3 r3]]; try discriminate.
              destruct (utf8.cont c2 && utf8.cont c3); [injection En as <-; lia | discriminate].
        -- intros f'. cbn [json.string_from]. now rewrite E1, E2, E3, E4, En.
      * eapply (Hstep _ rest); [simpl; lia | exact H |].
        intros f'. cbn [json.string_from]. now rewrite E1, E2, E3, E4, En.
Qed.

(** Likewise for a string literal. *)
Theorem string_literal_fuel (s : string) (f : nat) (v rest : string) :
  json.string_from f s = Some (v, rest) -> json.string_literal s = Some (v, rest).
Proof.
  intros H. destruct (string_from_fuel f s v rest H) as [_ Hst].
  unfold json.string_literal. apply Hst. lia.
Qed.

Lemma rune_len_pos (s : string) (n : nat) : utf8.rune_len s = Some n -> (0 < n)%nat.
Proof.
  unfold utf8.rune_len. destruct s as [|c [|c1 r1]]; try discriminate.
  destruct (utf8.lead c) as [[[k lo] hi]|]; [|discriminate].
  destruct (utf8.between lo c1 hi); [|discriminate].
  destruct k as [|[|[|[|[|k]]]]]; try discriminate.
  - intros [= <-]. lia.
  - destruct r1 as [|c2 r2]; [discriminate|].
    destruct (utf8.cont c2); [intros [= <-]; lia | discriminate].
  - destruct r1 as [|c2 [|c3 r3]]; try discriminate.
    destruct (utf8.cont c2 && utf8.cont c3); [intros [= <-]; lia | discriminate].
Qed.

(** The encoder and the validity test never run out of fuel either. *)
Lemma escape_from_fuel (n : nat) :
  forall m s, (String.length s <= n)%nat -> (String.length s <= m)%nat ->
              json.escape_from n s = json.escape_from m s.
Proof.
  induction n as [|n IH]; intros m s Hn Hm.
  - destruct s; [now destruct m | simpl in Hn; lia].
  - destruct s as [|c rest]; [now destruct m|].
    destruct m as [|m]; [simpl in Hm; lia|]. simpl in Hn, Hm.
    cbn [json.escape_from].
    destruct (byte_val c <? 128); [now rewrite (IH m rest) by lia|].
    destruct (utf8.rune_len (String c rest)) as [k|] eqn:Ek;
      [|now rewrite (IH m rest) by lia].
    pose proof (rune_len_pos _ _ Ek) as Hk.
    assert (Hd : (String.length (strings.drop k (String c rest)) <= String.length rest)%nat)
      by (rewrite drop_length; simpl; lia).
    now rewrite (IH m (strings.drop k (String c rest))) by lia.
Qed.

Lemma valid_from_fuel (n : nat) :
  forall m s, (String.length s <= n)%nat -> (String.length s <= m)%nat ->
              utf8.valid_from n s = utf8.valid_from m s.
Proof.
  induction n as [|n IH]; intros m s Hn Hm.
  - destruct s; [now destruct m | simpl in Hn; lia].
  - destruct s as [|c rest]; [now destruct m|].
    destruct m as [|m]; [simpl in Hm; lia|]. simpl in Hn, Hm.
    cbn [utf8.valid_from].
    destruct (byte_val c <? 128); [now rewrite (IH m rest) by lia|].
    destruct (utf8.rune_len (String c rest)) as [k|] eqn:Ek; [|reflexivity].
    pose proof (rune_len_pos _ _ Ek) as Hk.
    assert (Hd : (String.length (strings.drop k (String c rest)) <= String.length rest)%nat)
      by (rewrite drop_length; simpl; lia).
    now rewrite (IH m (strings.drop k (String c rest))) by lia.
Qed.

(** ** The segments of a token *)

Lemma Split_length (s : string) (sep : ascii) :
  List.length (strings.Split s sep) = S (occurrences s sep).
Proof.
  induction s as [|c s IH]; [reflexivity|].
  cbn [strings.Split occurrences]. destruct (Ascii.eqb c sep).
  - cbn [List.length]. now rewrite IH.
  - destruct (strings.Split s sep) as [|p ps]; [discriminate IH | exact IH].
Qed.

Lemma occurrences_app (s t : string) (sep : ascii) :
  occurrences (s ++ t) sep = (occurrences s sep + occurrences t sep)%nat.
Proof.
  induction s as [|c s IH]; [reflexivity|].
  cbn [String.append occurrences]. destruct (Ascii.eqb c sep); lia.
Qed.

Lemma Contains_occurrences (s : string) (sep : ascii) :
  strings.Contains s sep = false <-> occurrences s sep = O.
Proof.
  induction s as [|c s IH]; [easy|].
  cbn [strings.Contains occurrences]. destruct (Ascii.eqb c sep); [easy|]. exact IH.
Qed.

Lemma decodeOIDCToken_format (token : string) :
  occurrences token "." <> 2%nat ->
  decodeOIDCToken token = Err (errorString "invalid JWT token format").
Proof.
  intros H. unfold decodeOIDCToken. rewrite Split_length.
  destruct (Nat.eqb_spec (S (occurrences token ".")) 3) as [E|E]; [lia | reflexivity].
Qed.

(** Between two segments without a dot, the middle one alone decides. *)
Lemma decodeOIDCToken_middle (h p s : string) :
  strings.Contains h "." = false ->
  strings.Contains s "." = false ->
  decodeOIDCToken (h ++ "." ++ p ++ "." ++ s)
  = if strings.Contains p "." then Err (errorString "invalid JWT token format")
    else match base64URLDecode p with
         | (_, Some err) => Err (wrapError "failed to decode token payload: " err)
         | (payloadBytes, None) =>
             match json.Unmarshal oidcTokenPayload_fields payloadBytes oidcTokenPayload_zero with
             | (_, Some err) => Err (wrapError "failed to parse token payload: " err)
             | (payload, None) => Ok payload
             end
         end.
Proof.
  intros Hh Hs.
  destruct (strings.Contains p ".") eqn:Hp.
  - apply decodeOIDCToken_format.
    rewrite !occurrences_app.
    apply Contains_occurrences in Hh, Hs. rewrite Hh, Hs.
    assert (occurrences p "." <> O).
    { intros E. apply Contains_occurrences in E. congruence. }
    cbn [occurrences Ascii.eqb Bool.eqb]. simpl. lia.
  - unfold decodeOIDCToken.
    change ("." ++ p ++ "." ++ s) with (String "." (p ++ String "." s)).
    rewrite (Split_app h _ "." Hh), (Split_app p s "." Hp), (Split_no_sep s "." Hs).
    reflexivity.
Qed.

(** ** The verifiers read backwards: from a grant to its reasons *)

Lemma audience_check_inv (ac : accessController) (payload : oidcTokenPayload) :
  negb (String.eqb (oidcAudience ac) EmptyString)
  && negb (String.eqb (Aud payload) (oidcAudience ac)) = false ->
  audience_accepted ac payload.
Proof.
  intros H. apply andb_false_iff in H. destruct H as [H|H]; apply negb_false_iff in H;
    apply String.eqb_eq in H; [now left | now right].
Qed.

Lemma repository_check_inv (ac : accessController) (payload : oidcTokenPayload) :
  (0 <? List.length (allowedRepos ac))%nat
  && negb (existsb (String.eqb (Repository payload)) (allowedRepos ac)) = false ->
  repository_accepted ac payload.
Proof.
  intros H. apply andb_false_iff in H. destruct H as [H|H].
  - left. destruct (allowedRepos ac); [reflexivity | discriminate H].
  - right. apply negb_false_iff, existsb_exists in H. destruct H as [r [Hr E]].
    apply String.eqb_eq in E. now subst r.
Qed.

Lemma authenticateOIDC_Ok (w : World) (ac : accessController) (token : string)
    (g : Grant) (tr : list Event) :
  authenticateOIDC w ac token = (Ok g, tr) ->
  exists payload,
    decodeOIDCToken token = Ok payload
    /\ audience_accepted ac payload
    /\ now w <= Exp payload
    /\ repository_accepted ac payload
    /\ g = {| User_Name := Actor payload |}
    /\ tr = [Infof "GitHub Actions OIDC authenticated: actor=%s, repo=%s"
               [arg_s (Actor payload); arg_s (Repository payload)]].
Proof.
  unfold authenticateOIDC.
  destruct (decodeOIDCToken token) as [payload|err]; [|discriminate].
  destruct (negb _ && negb _) eqn:Ea; [discriminate|].
  destruct (Exp payload <? now w) eqn:Ee; [discriminate|].
  destruct ((0 <? _)%nat && negb _) eqn:Er; [discriminate|].
  intros [= <- <-]. exists payload.
  split; [reflexivity|]. split; [now apply audience_check_inv|].
  split; [now apply Z.ltb_ge|]. split; [now apply repository_check_inv|].
  split; reflexivity.
Qed.

Lemma authenticateOIDC_intro (w : World) (ac : accessController) (token : string)
    (payload : oidcTokenPayload) :
  decodeOIDCToken token = Ok payload ->
  audience_accepted ac payload ->
  now w <= Exp payload ->
  repository_accepted ac payload ->
  authenticateOIDC w ac token
  = (Ok {| User_Name := Actor payload |},
     [Infof "GitHub Actions OIDC authenticated: actor=%s, repo=%s"
        [arg_s (Actor payload); arg_s (Repository payload)]]).
Proof.
  intros Hd Ha He Hr. unfold authenticateOIDC.
  rewrite Hd, (audience_check ac payload Ha), (repository_check ac payload Hr).
  apply Z.ltb_ge in He. now rewrite He.
Qed.

Lemma authenticateGitHub_Ok_profile (w : World) (ac : accessController) (token : string)
    (g : Grant) (tr : list Event) :
  authenticateGitHub w ac token = (Ok g, tr) ->
  exists user tr',
    profile_call w ac token user
    /\ g = {| User_Name := Login user |}
    /\ tr = Sent (api_request (githubAPIURL ac ++ githubUserEndpoint) token) :: tr'.
Proof.
  unfold authenticateGitHub, profile_call. intros H.
  destruct (NewRequest_error w _) as [e|]; [discriminate|].
  destruct (Do w _) as [resp|e]; [|discriminate].
  destruct (http.StatusCode resp =? http.StatusOK) eqn:Es; [|discriminate].
  cbn [negb] in H.
  destruct (http.Body resp) as [body|e] eqn:Eb; [|discriminate].
  destruct (json.Unmarshal _ _ _) as [user [err|]] eqn:Eu; [discriminate|].
  destruct (if (0 <? List.length (allowedOrgs ac))%nat then _ else _) as [member tr0].
  destruct (negb member); [discriminate|].
  injection H as <- <-. exists user. eexists.
  split; [|split; reflexivity].
  split; [reflexivity|]. exists resp, body.
  split; [reflexivity|]. split; [now apply Z.eqb_eq|]. split; [exact Eb | exact Eu].
Qed.

Lemma verify_fst (w : World) (ac : accessController) (token : string) :
  fst (verify w ac token)
  = match (if enableOIDC ac then fst (authenticateOIDC w ac token)
           else Err (mkchallenge ac ErrInvalidCredential)) with
    | Ok g => Ok g
    | Err _ => fst (authenticateGitHub w ac token)
    end.
Proof.
  unfold verify. destruct (enableOIDC ac); [|reflexivity].
  destruct (authenticateOIDC w ac token) as [[g|c] tr]; [reflexivity|].
  now destruct (authenticateGitHub w ac token).
Qed.

(** ** Requests and log lines of a run *)

Lemma checkOrgMembership_loop_sent (w : World) (ac : accessController)
    (token username : string) (orgs : list string) :
  Forall (fun e => exists org, In org orgs
                     /\ e = Sent (api_request (org_url ac org username) token))
    (snd (checkOrgMembership_loop w ac orgs token username))
  /\ (List.length (snd (checkOrgMembership_loop w ac orgs token username))
      <= List.length orgs)%nat.
Proof.
  rewrite checkOrgMembership_loop_spec. cbn [snd].
  set (confirms := org_confirms w ac token username).
  set (asked := org_asked w ac username).
  split.
  - apply List.Forall_forall. intros e He. apply List.in_map_iff in He.
    destruct He as [org [<- Ho]]. exists org. split; [|reflexivity].
    apply List.filter_In in Ho. destruct Ho as [Ho _].
    clear -Ho. induction orgs as [|o os IH]; [contradiction|].
    cbn [upto_first] in Ho. destruct (confirms o).
    + destruct Ho as [<-|[]]. now left.
    + destruct Ho as [<-|Ho]; [now left | right; now apply IH].
  - rewrite length_map.
    etransitivity; [apply List.filter_length_le|].
    clear. induction orgs as [|o os IH]; [reflexivity|].
    cbn [upto_first]. destruct (confirms o); cbn [List.length]; lia.
Qed.

Lemma authenticateGitHub_sent (w : World) (ac : accessController) (token : string) :
  (forall r, In (Sent r) (snd (authenticateGitHub w ac token)) -> outbound ac token r)
  /\ (List.length (List.filter is_Sent (snd (authenticateGitHub w ac token)))
      <= 1 + List.length (allowedOrgs ac))%nat.
Proof.
  unfold authenticateGitHub.
  set (apiReq := api_request (githubAPIURL ac ++ githubUserEndpoint) token).
  assert (Hone : forall l, (forall e, In e l -> is_Sent e = false) ->
            (forall r, In (Sent r) (Sent apiReq :: l) -> outbound ac token r)
            /\ (List.length (List.filter is_Sent (Sent apiReq :: l))
                <= 1 + List.length (allowedOrgs ac))%nat).
  { intros l Hl. split.
    - intros r [[= <-]|Hr]; [now left|]. now apply Hl in Hr.
    - cbn [List.filter is_Sent List.length].
      assert (E : List.filter is_Sent l = []).
      { clear -Hl. induction l as [|e l IH]; [reflexivity|].
        cbn [List.filter]. rewrite (Hl e) by now left.
        apply IH. intros e' He'. apply Hl. now right. }
      rewrite E. cbn [List.length]. lia. }
  destruct (NewRequest_error w _) as [e|]; [split; [intros r []|cbn; lia]|].
  destruct (Do w apiReq) as [resp|e].
  2: { apply Hone. intros e' [<-|[]]. reflexivity. }
  destruct (negb _).
  { apply Hone. intros e' [<-|[]]. reflexivity. }
  destruct (http.Body resp) as [body|e]; [|apply Hone; intros e' []].
  destruct (json.Unmarshal _ _ _) as [user [err|]].
  { apply Hone. intros e' [<-|[]]. reflexivity. }
  destruct (if (0 <? List.length (allowedOrgs ac))%nat then _ else _) as [member tr] eqn:Em.
  assert (Ht : Forall (fun e => exists org, In org (allowedOrgs ac)
                         /\ e = Sent (api_request (org_url ac org (Login user)) token)) tr
               /\ (List.length tr <= List.length (allowedOrgs ac))%nat).
  { destruct (0 <? List.length (allowedOrgs ac))%nat.
    - unfold checkOrgMembership in Em.
      pose proof (checkOrgMembership_loop_sent w ac token (Login user) (allowedOrgs ac)) as H.
      rewrite Em in H. exact H.
    - injection Em as _ <-. split; [constructor | cbn; lia]. }
  destruct Ht as [Hf Hl].
  assert (Hm : forall log, is_Sent log = false ->
            (forall r, In (Sent r) (Sent apiReq :: tr ++ [log])%list -> outbound ac token r)
            /\ (List.length (List.filter is_Sent (Sent apiReq :: tr ++ [log])%list)
                <= 1 + List.length (allowedOrgs ac))%nat).
  { intros log Hlog. split.
    - intros r [[= <-]|Hr]; [now left|].
      apply List.in_app_iff in Hr. destruct Hr as [Hr|[Hr|[]]].
      + rewrite List.Forall_forall in Hf. destruct (Hf _ Hr) as [org [Ho [= ->]]].
        right. now exists org, (Login user).
      + subst log. discriminate Hlog.
    - cbn [List.filter is_Sent List.length]. rewrite List.filter_app, List.length_app.
      cbn [List.filter]. rewrite Hlog. cbn [List.length].
      pose proof (List.filter_length_le is_Sent tr). lia. }
  destruct (negb member); cbn [snd]; apply Hm; reflexivity.
Qed.

Lemma api_request_shape (url token : string) :
  http.Method (api_request url token) = "GET"
  /\ http.URL (api_request url token) = url
  /\ http.Get (http.Headers (api_request url token)) "Authorization" = "token " ++ token.
Proof.
  split; [reflexivity|]. split; [reflexivity|].
  unfold api_request, http.Get, http.Set_. cbn [http.Headers].
  rewrite lookup_insert_ne by discriminate. now rewrite lookup_insert_eq.
Qed.

Lemma authenticateGitHub_log (w : World) (ac : accessController) (token : string) :
  match authenticateGitHub w ac token with
  | (Ok g, tr) =>
      exists pre, tr = (pre ++ [Infof "GitHub user %s authenticated successfully"
                                  [arg_s (User_Name g)]])%list
                  /\ Forall (fun e => is_Infof e = false) pre
  | (Err _, tr) => Forall (fun e => is_Infof e = false) tr
  end.
Proof.
  unfold authenticateGitHub.
  destruct (NewRequest_error w _) as [e|]; [constructor|].
  destruct (Do w _) as [resp|e]; [|repeat constructor].
  destruct (negb _); [repeat constructor|].
  destruct (http.Body resp) as [body|e]; [|repeat constructor].
  destruct (json.Unmarshal _ _ _) as [user [err|]]; [repeat constructor|].
  destruct (if (0 <? List.length (allowedOrgs ac))%nat then _ else _) as [member tr0] eqn:Em.
  assert (Ht : Forall (fun e => is_Infof e = false) tr0).
  { destruct (0 <? List.length (allowedOrgs ac))%nat.
    - pose proof (checkOrgMembership_loop_sent w ac token (Login user) (allowedOrgs ac)) as [H _].
      unfold checkOrgMembership in Em. rewrite Em in H. cbn [snd] in H.
      eapply List.Forall_impl; [|exact H]. now intros e' (org & _ & ->).
    - injection Em as _ <-. constructor. }
  destruct (negb member).
  - constructor; [reflexivity|]. apply List.Forall_app. split; [exact Ht | repeat constructor].
  - eexists (_ :: tr0). split; [reflexivity|]. now constructor.
Qed.

(** ** The list of organizations *)

Lemma authenticateOIDC_with_orgs (w : World) (ac : accessController) (orgs : list string)
    (token : string) :
  authenticateOIDC w (with_orgs ac orgs) token = authenticateOIDC w ac token.
Proof. reflexivity. Qed.

Lemma org_confirms_with_orgs (w : World) (ac : accessController) (orgs : list string)
    (token username org : string) :
  org_confirms w (with_orgs ac orgs) token username org = org_confirms w ac token username org.
Proof. reflexivity. Qed.

(** The verdict of the GitHub verifier under a list of organizations, from
    its verdict under none. *)
Lemma authenticateGitHub_with_orgs (w : World) (ac : accessController) (orgs : list string)
    (token : string) :
  fst (authenticateGitHub w (with_orgs ac orgs) token)
  = match fst (authenticateGitHub w (with_orgs ac []) token) with
    | Ok g =>
        match orgs with
        | [] => Ok g
        | _ :: _ =>
            if existsb (org_confirms w ac token (User_Name g)) orgs then Ok g
            else Err (mkchallenge ac ErrAuthenticationFailure)
        end
    | Err c => Err c
    end.
Proof.
  unfold authenticateGitHub.
  change (githubAPIURL (with_orgs ac orgs)) with (githubAPIURL ac).
  change (githubAPIURL (with_orgs ac [])) with (githubAPIURL ac).
  change (allowedOrgs (with_orgs ac orgs)) with orgs.
  change (allowedOrgs (with_orgs ac [])) with (@nil string).
  destruct (NewRequest_error w _) as [e|]; [reflexivity|].
  destruct (Do w _) as [resp|e]; [|reflexivity].
  destruct (negb _); [reflexivity|].
  destruct (http.Body resp) as [body|e]; [|reflexivity].
  destruct (json.Unmarshal _ _ _) as [user [err|]]; [reflexivity|].
  cbn [List.length Nat.ltb Nat.leb negb fst User_Name].
  destruct orgs as [|o os]; [reflexivity|].
  change (0 <? List.length (o :: os))%nat with true. cbv iota.
  unfold checkOrgMembership.
  change (allowedOrgs (with_orgs ac (o :: os))) with (o :: os).
  change (checkOrgMembership_loop w (with_orgs ac (o :: os)))
    with (checkOrgMembership_loop w ac).
  rewrite checkOrgMembership_loop_spec.
  now destruct (existsb _ (o :: os)).
Qed.

Lemma existsb_incl {A : Type} (p : A -> bool) (l l' : list A) :
  (forall x, In x l -> In x l') -> existsb p l = true -> existsb p l' = true.
Proof.
  intros Hi H. apply existsb_exists in H. destruct H as [x [Hx Hp]].
  apply existsb_exists. exists x. split; [now apply Hi | exact Hp].
Qed.

(** ** Options *)

Lemma TrimRight_suffix (s : string) (cut : ascii) :
  exists n, s = strings.TrimRight s cut ++ string_of (repeat cut n).
Proof.
  induction s as [|c s [n IH]]; [now exists O|].
  cbn [strings.TrimRight].
  destruct (strings.TrimRight s cut) as [|d t] eqn:E.
  - destruct (Ascii.eqb_spec c cut) as [->|Hc].
    + exists (S n). cbn [repeat string_of String.append]. now rewrite IH at 1.
    + exists n. cbn [String.append]. now rewrite IH at 1.
  - exists n. cbn [String.append]. now rewrite IH at 1.
Qed.

Lemma TrimRight_end (s : string) (cut : ascii) (t : string) :
  strings.TrimRight s cut <> t ++ String cut EmptyString.
Proof.
  revert t. induction s as [|c s IH]; intros t.
  - destruct t; discriminate.
  - cbn [strings.TrimRight].
    destruct (strings.TrimRight s cut) as [|d u] eqn:E.
    + destruct (Ascii.eqb_spec c cut) as [->|Hc].
      * destruct t; discriminate.
      * destruct t as [|a [|b t]]; cbn [String.append]; try discriminate.
        intros [= ->]. congruence.
    + destruct t as [|a t]; cbn [String.append].
      * discriminate.
      * intros [= _ H]. now apply (IH t).
Qed.

Lemma strings_in_all (l : list string) : strings_in (map any_string l) = l.
Proof. induction l as [|s l IH]; [reflexivity|]. cbn [map strings_in]. now rewrite IH. Qed.

Lemma strings_in_In (l : list Any) (s : string) :
  In s (strings_in l) <-> In (any_string s) l.
Proof.
  induction l as [|v l IH]; [easy|].
  destruct v as [| s' | | | |]; cbn [strings_in In].
  2: { split; (intros [H|H]; [left | right; now apply IH]);
         [now subst | now injection H]. }
  all: split; [intros H; right; now apply IH | intros [H|H]; [discriminate | now apply IH]].
Qed.

(** ** The standard encoding, and bytes outside the alphabets *)

Lemma encode_at_std (v : Z) :
  0 <= v < 64 ->
  base64.encode_at base64.StdEncoding v
  = std_char (base64.encode_at base64.RawURLEncoding v).
Proof.
  intros Hv.
  assert (Hn : forall n : nat, (n < 64)%nat ->
            base64.encode_at base64.StdEncoding (Z.of_nat n)
            = std_char (base64.encode_at base64.RawURLEncoding (Z.of_nat n))).
  { intros n Hn. do 64 (destruct n as [|n]; [vm_compute; reflexivity|]). lia. }
  rewrite <- (Z2Nat.id v) by lia. apply Hn. lia.
Qed.

Lemma EncodeToString_std (bs : list ascii) :
  base64.EncodeToString base64.StdEncoding bs
  = to_std (base64.EncodeToString base64.RawURLEncoding bs ++ raw_padding bs).
Proof.
  induction bs as [| a | a b | a b c bs IH] using list_ind3.
  - reflexivity.
  - cbn [base64.EncodeToString raw_padding base64.pad_bytes base64.padChar
           base64.RawURLEncoding base64.StdEncoding repeat string_of]. cbv zeta.
    cbn [String.append]. rewrite !to_std_cons, !encode_at_std by apply sextet_range.
    reflexivity.
  - cbn [base64.EncodeToString raw_padding base64.pad_bytes base64.padChar
           base64.RawURLEncoding base64.StdEncoding repeat string_of]. cbv zeta.
    cbn [String.append]. rewrite !to_std_cons, !encode_at_std by apply sextet_range.
    reflexivity.
  - cbn [base64.EncodeToString raw_padding]. cbv zeta.
    cbn [String.append]. rewrite !to_std_cons, !encode_at_std by apply sextet_range.
    now rewrite IH.
Qed.

Lemma pad4_std (bs : list ascii) :
  pad4 (base64.EncodeToString base64.StdEncoding bs)
  = base64.EncodeToString base64.StdEncoding bs.
Proof.
  induction bs as [| a | a b | a b c bs IH] using list_ind3; try reflexivity.
  cbn [base64.EncodeToString]. cbv zeta. rewrite pad4_skip, IH. reflexivity.
Qed.

Lemma Contains_app (s t : string) (c : ascii) :
  strings.Contains (s ++ t) c = strings.Contains s c || strings.Contains t c.
Proof.
  induction s as [|d s IH]; [reflexivity|].
  cbn [String.append strings.Contains]. now rewrite IH, orb_assoc.
Qed.

Lemma Contains_to_std (s : string) (c : ascii) :
  strings.Contains s c = true -> strings.Contains (to_std s) (std_char c) = true.
Proof.
  induction s as [|d s IH]; [discriminate|].
  rewrite to_std_cons. cbn [strings.Contains]. intros H.
  apply orb_true_iff in H. destruct H as [H|H].
  - apply Ascii.eqb_eq in H. subst d. now rewrite Ascii.eqb_refl.
  - rewrite (IH H). apply orb_true_r.
Qed.

Lemma not_accepted_stops (c : ascii) :
  strings.Contains accepted_bytes c = false -> stops (std_char c).
Proof.
  destruct c as [[] [] [] [] [] [] [] []]; intros H;
    first [ discriminate H | repeat split ].
Qed.

Lemma skip_newlines_keeps (s : string) (c : ascii) :
  base64.is_newline c = false ->
  strings.Contains s c = true ->
  exists d r, snd (base64.skip_newlines s) = String d r.
Proof.
  intros Hc. induction s as [|d s IH]; [discriminate|].
  cbn [strings.Contains base64.skip_newlines]. intros H.
  destruct (base64.is_newline d) eqn:Ed.
  - destruct (Ascii.eqb_spec d c) as [->|Hd]; [congruence|].
    cbn [orb] in H. destruct (IH H) as (d' & r & E).
    destruct (base64.skip_newlines s) as [k r']. cbn [snd] in *. now exists d', r.
  - now exists d, s.
Qed.

Lemma skip_newlines_Contains (s : string) (c : ascii) :
  base64.is_newline c = false ->
  strings.Contains s c = true ->
  strings.Contains (snd (base64.skip_newlines s)) c = true.
Proof.
  intros Hc. induction s as [|d s IH]; [discriminate|].
  cbn [base64.skip_newlines]. intros H.
  destruct (base64.is_newline d) eqn:Ed; [|exact H].
  cbn [strings.Contains] in H.
  destruct (Ascii.eqb_spec d c) as [->|Hd]; [congruence|].
  cbn [orb] in H. specialize (IH H).
  now destruct (base64.skip_newlines s) as [k r'].
Qed.

Lemma after_padding_stops (dbuf : list Z) (si : Z) (rest : string) (c : ascii) :
  stops c -> strings.Contains rest c = true ->
  exists bs e, base64.after_padding dbuf si rest = (bs, Some e).
Proof.
  intros (_ & Hn & _) H. unfold base64.after_padding.
  destruct (skip_newlines_keeps rest c Hn H) as (d & r & E).
  destruct (base64.skip_newlines rest) as [k r']. cbn [snd] in E. subst r'.
  now eexists _, _.
Qed.

(** A stopping byte anywhere in the input makes the decoder fail. *)
Lemma decode_stops (c : ascii) (src : string) :
  stops c -> strings.Contains src c = true ->
  forall si dbuf, exists bs e, base64.decode_from base64.StdEncoding src si dbuf = (bs, Some e).
Proof.
  intros Hc. pose proof Hc as (Hm & Hn & Hp).
  induction src as [|d rest IH]; [discriminate|]. intros H si dbuf.
  cbn [strings.Contains] in H. cbn [base64.decode_from]. cbv zeta.
  destruct (Ascii.eqb_spec d c) as [->|Hd].
  { rewrite Hm, Hn. cbn [base64.padChar base64.StdEncoding negb Z.eqb]. rewrite Hp.
    now eexists _, _. }
  cbn [orb] in H. specialize (IH H).
  destruct (negb (base64.decodeMap base64.StdEncoding d =? 255)).
  { destruct (_ =? 4)%nat.
    - destruct (IH (si + 1) []) as (bs & e & ->). now eexists _, _.
    - apply IH. }
  destruct (base64.is_newline d); [apply IH|].
  cbn [base64.padChar base64.StdEncoding].
  destruct (negb (Ascii.eqb d "=")); [now eexists _, _|].
  destruct (List.length dbuf) as [|[|[|n]]]; try (now eexists _, _).
  - pose proof (skip_newlines_Contains rest c Hn H) as Hr.
    destruct (base64.skip_newlines rest) as [k r]. cbn [snd] in Hr.
    destruct r as [|c2 r2]; [discriminate|].
    destruct (negb (Ascii.eqb c2 "=")) eqn:E2; [now eexists _, _|].
    apply negb_false_iff, Ascii.eqb_eq in E2. subst c2.
    cbn [strings.Contains] in Hr.
    assert (Ec : Ascii.eqb "=" c = false)
      by (rewrite Ascii.eqb_sym; exact Hp).
    rewrite Ec in Hr. cbn [orb] in Hr.
    now apply (after_padding_stops _ _ _ c).
  - now apply (after_padding_stops _ _ _ c).
Qed.

(** ** Documents with and without a member *)

Lemma string_of_app (l1 l2 : list ascii) :
  string_of (l1 ++ l2) = string_of l1 ++ string_of l2.
Proof. induction l1 as [|c l1 IH]; [reflexivity|]. cbn. now rewrite IH. Qed.

Lemma Unmarshal_Encode_githubUser (u : githubUser) :
  valid_user u ->
  json.Unmarshal githubUser_fields (Encode_githubUser u) githubUser_zero = (u, None).
Proof.
  intros [Hl Hi Ht].
  unfold json.Unmarshal, Encode_githubUser, Marshal_githubUser, json.encode_struct.
  rewrite string_of_app, string_of_bytes_of. unfold json.parse.
  set (text := ("{" ++ json.join_members _ ++ "}") ++ string_of [LF]).
  assert (Hlen : exists f, String.length text = (4 + f)%nat).
  { exists (String.length text - 4)%nat. subst text. cbn [json.join_members].
    repeat (rewrite string_length_app; cbn [String.length quoted]). lia. }
  destruct Hlen as [f ->]. subst text.
  assert (Hm : json.members (4 + f) 1
                 (json.join_members
                    [ ("login", json.appendString (Login u));
                      ("id", strconv.FormatInt (ID u));
                      ("type", json.appendString (Type_ u)) ] ++ "}" ++ string_of [LF])
               = Some ([("login", json.Str (Login u));
                        ("id", json.Number (strconv.FormatInt (ID u)));
                        ("type", json.Str (Type_ u))], string_of [LF])).
  { cbn [json.join_members Nat.add].
    repeat (rewrite append_assoc; cbn [String.append]).
    pose proof members_more as M. cbn [String.append] in M.
    pose proof members_last as L. cbn [String.append] in L.
    rewrite (M _ _ "login" _ (json.Str (Login u)));
      [|intros x; reflexivity | now apply value_string].
    rewrite (M _ _ "id" _ (json.Number (strconv.FormatInt (ID u))));
      [|intros x; reflexivity | now apply value_int].
    rewrite (L _ _ "type" _ (json.Str (Type_ u)) (string_of [LF]));
      [|intros x; reflexivity | now apply value_string].
    reflexivity. }
  set (J := json.join_members _) in *.
  assert (EJ : exists x, J ++ "}" ++ string_of [LF] = quoted "login" ++ x).
  { eexists. subst J. cbn [json.join_members]. rewrite append_assoc. reflexivity. }
  destruct EJ as [x EJ].
  replace (("{" ++ J ++ "}") ++ string_of [LF]) with ("{" ++ J ++ "}" ++ string_of [LF])
    by (now rewrite !append_assoc).
  rewrite EJ in Hm |- *.
  rewrite (value_object _ _ _ _ _ Hm). cbn [string_of json.skip_ws].
  change (json.is_space LF) with true. cbv iota.
  destruct u as [login id type]. unfold githubUser_zero. cbn [Login ID Type_] in *.
  erewrite fill_stored; [| reflexivity | reflexivity]. cbn [Login ID Type_].
  erewrite fill_stored; [| reflexivity | apply (store_FormatInt _ _ _ Hi)].
  cbn [Login ID Type_].
  erewrite fill_stored; [| reflexivity | reflexivity]. reflexivity.
Qed.

(** What no field stored changes, [fill] leaves as it was. *)
Lemma fill_frame {T A : Type} (proj : T -> A) (fields : list (json.Field T))
    (ms : list (string * json.Value)) :
  (forall key v f t0 t1,
     In (key, v) ms -> json.find_field fields key = Some f ->
     json.store f v t0 = Some t1 -> proj t1 = proj t0) ->
  forall t, proj (fst (json.fill fields ms t)) = proj t.
Proof.
  induction ms as [|[key v] ms IH]; intros H t; [reflexivity|].
  assert (IH' : forall t', proj (fst (json.fill fields ms t')) = proj t').
  { apply IH. intros key' v' f t0 t1 Hin. apply H. now right. }
  cbn [json.fill].
  destruct (json.find_field fields key) as [f|] eqn:Ef; [|apply IH'].
  destruct (json.store f v t) as [t'|] eqn:Es; [|apply IH'].
  rewrite IH'. apply (H key v f t t'); [now left | exact Ef | exact Es].
Qed.

Lemma find_field_answers {T : Type} (fields : list (json.Field T)) (key : string)
    (f : json.Field T) :
  json.find_field fields key = Some f ->
  In f fields /\ (json.name f = key \/ json.equalFold key (json.name f) = true).
Proof.
  unfold json.find_field.
  destruct (List.find _ fields) as [f0|] eqn:E1.
  - intros [= <-]. apply List.find_some in E1. destruct E1 as [Hin He].
    split; [exact Hin|]. left. now apply String.eqb_eq.
  - intros E2. apply List.find_some in E2. destruct E2 as [Hin He].
    split; [exact Hin | now right].
Qed.

Lemma store_string_frame {T A : Type} (proj : T -> A) (set : string -> T -> T)
    (v : json.Value) (t0 t1 : T) :
  (forall s t, proj (set s t) = proj t) ->
  json.store_string set v t0 = Some t1 -> proj t1 = proj t0.
Proof. intros H. destruct v; try discriminate; intros [= <-]; [reflexivity | apply H]. Qed.

Lemma store_int64_frame {T A : Type} (proj : T -> A) (set : Z -> T -> T)
    (v : json.Value) (t0 t1 : T) :
  (forall n t, proj (set n t) = proj t) ->
  json.store_int64 set v t0 = Some t1 -> proj t1 = proj t0.
Proof.
  intros H. destruct v; try discriminate; cbn [json.store_int64].
  - now intros [= <-].
  - destruct (strconv.ParseInt literal); [|discriminate]. intros [= <-]. apply H.
Qed.

Lemma Unmarshal_no_login (body : list ascii) (v : json.Value) :
  json.parse (string_of body) = Some v ->
  no_member "login" v ->
  Login (fst (json.Unmarshal githubUser_fields body githubUser_zero)) = EmptyString.
Proof.
  intros Hp Hn. unfold json.Unmarshal. rewrite Hp.
  destruct v as [| b | l | s | vs | ms]; try reflexivity.
  cbn [no_member] in Hn.
  rewrite (fill_frame Login); [reflexivity|].
  intros key x f t0 t1 Hin Hf Hs.
  apply find_field_answers in Hf. destruct Hf as [Hf Hk].
  specialize (Hn key x Hin).
  cbn [githubUser_fields In] in Hf.
  destruct Hf as [<-|[<-|[<-|[]]]]; cbn [json.name json.store] in *.
  - exfalso. destruct Hk as [<-|Hk]; [discriminate Hn | congruence].
  - now apply (store_int64_frame Login) in Hs.
  - now apply (store_string_frame Login) in Hs.
Qed.

Lemma Unmarshal_no_exp (body : list ascii) (v : json.Value) :
  json.parse (string_of body) = Some v ->
  no_member "exp" v ->
  Exp (fst (json.Unmarshal oidcTokenPayload_fields body oidcTokenPayload_zero)) = 0.
Proof.
  intros Hp Hn. unfold json.Unmarshal. rewrite Hp.
  destruct v as [| b | l | s | vs | ms]; try reflexivity.
  cbn [no_member] in Hn.
  rewrite (fill_frame Exp); [reflexivity|].
  intros key x f t0 t1 Hin Hf Hs.
  apply find_field_answers in Hf. destruct Hf as [Hf Hk].
  specialize (Hn key x Hin).
  cbn [oidcTokenPayload_fields In] in Hf.
  destruct Hf as [<-|[<-|[<-|[<-|[<-|[<-|[<-|[<-|[]]]]]]]]]; cbn [json.name json.store] in *;
    try (now apply (store_string_frame Exp) in Hs);
    try (now apply (store_int64_frame Exp) in Hs).
  exfalso. destruct Hk as [<-|Hk]; [discriminate Hn | congruence].
Qed.

(** ** From the options to the grant *)

Lemma wire_decodes (p : oidcTokenPayload) (header signature : string) :
  valid_payload p ->
  strings.Contains header "." = false ->
  strings.Contains signature "." = false ->
  decodeOIDCToken (wire header p signature) = Ok p.
Proof.
  intros Hp Hh Hs. unfold wire.
  rewrite (decodeOIDCToken_middle _ _ _ Hh Hs), encoded_no_dot, base64URLDecode_encoded.
  now rewrite (Unmarshal_Marshal p Hp).
Qed.

Lemma wire_not_empty (p : oidcTokenPayload) (header signature : string) :
  wire header p signature <> EmptyString.
Proof. unfold wire. destruct header; discriminate. Qed.

Lemma Authorized_with_oidc (w : World) (ac : accessController) (enabled : bool)
    (req : http.Request) (t : string) :
  well_formed_header (http.Get (http.Headers req) "Authorization") t ->
  fst (Authorized w (with_oidc ac enabled) req)
  = match (if enabled then fst (authenticateOIDC w ac t)
           else Err (mkchallenge ac ErrInvalidCredential)) with
    | Ok g => Ok g
    | Err _ => fst (authenticateGitHub w ac t)
    end.
Proof.
  intros Ht. rewrite (Authorized_well_formed w _ req t Ht), verify_fst. reflexivity.
Qed.

(** ** Shared instances *)

Lemma header_sample :
  well_formed_header
    (http.Get (http.Headers (request_with ("Bearer " ++ sample_token))) "Authorization")
    sample_token.
Proof. split; [discriminate | left; vm_compute; reflexivity]. Defined.

Lemma header_valid_token :
  well_formed_header
    (http.Get (http.Headers (request_with "Bearer valid-token")) "Authorization")
    "valid-token".
Proof. split; [discriminate | left; vm_compute; reflexivity]. Defined.

Lemma sample_decodes : decodeOIDCToken sample_token = Ok sample_payload.
Proof. vm_compute. reflexivity. Defined.

Lemma sample_valid : valid_payload sample_payload.
Proof.
  constructor; try (vm_compute; reflexivity);
    unfold int64; cbn [Exp Iat sample_payload]; lia.
Defined.

(** * The claims *)

(** ** C1: expired claims tokens *)

(** C1, in the form the code satisfies.  With the claims verifier
    enabled, a token that decodes, passes the audience check and whose
    [exp] is strictly before the current time is refused by the claims
    verifier, the cause being that the token has expired; [Authorized]
    then hands the token to the GitHub API and returns what that verifier
    returns, which is never the expiry. *)
Theorem expired_claims_token_falls_back (w : World) (ac : accessController)
    (req : http.Request) (token : string) (payload : oidcTokenPayload) :
  well_formed_header (http.Get (http.Headers req) "Authorization") token ->
  enableOIDC ac = true ->
  decodeOIDCToken token = Ok payload ->
  audience_accepted ac payload ->
  Exp payload < now w ->
  authenticateOIDC w ac token
  = (Err {| ch_realm := realm ac; ch_err := errorString "OIDC token expired" |}, [])
  /\ Authorized w ac req = authenticateGitHub w ac token
  /\ fst (Authorized w ac req)
     <> Err {| ch_realm := realm ac; ch_err := errorString "OIDC token expired" |}.
Proof.
  intros Hh Hen Hd Ha He.
  assert (Ho : authenticateOIDC w ac token
               = (Err {| ch_realm := realm ac; ch_err := errorString "OIDC token expired" |}, [])).
  { unfold authenticateOIDC. rewrite Hd, (audience_check ac payload Ha).
    apply Z.ltb_lt in He. now rewrite He. }
  assert (Hg : Authorized w ac req = authenticateGitHub w ac token).
  { rewrite (Authorized_well_formed w ac req token Hh). unfold verify.
    rewrite Hen, Ho. now destruct (authenticateGitHub w ac token). }
  split; [exact Ho|]. split; [exact Hg|].
  rewrite Hg. destruct (authenticateGitHub w ac token) as [[g|c] tr] eqn:E; [discriminate|].
  destruct (authenticateGitHub_Err w ac token c tr E) as [_ [H | [e [_ H]]]];
    simpl; intros [= Hc]; subst c; discriminate.
Qed.

Lemma expired_claims_token_falls_back_witness :
  well_formed_header
    (http.Get (http.Headers (request_with ("Bearer " ++ sample_token))) "Authorization")
    sample_token
  /\ enableOIDC (controller true [] []) = true
  /\ decodeOIDCToken sample_token = Ok sample_payload
  /\ audience_accepted (controller true [] []) sample_payload
  /\ Exp sample_payload < now (world_unauthorized 1800000000)
  /\ authenticateOIDC (world_unauthorized 1800000000) (controller true [] []) sample_token
     = (Err {| ch_realm := realm (controller true [] []);
               ch_err := errorString "OIDC token expired" |}, [])
  /\ Authorized (world_unauthorized 1800000000) (controller true [] [])
       (request_with ("Bearer " ++ sample_token))
     = authenticateGitHub (world_unauthorized 1800000000) (controller true [] []) sample_token
  /\ fst (Authorized (world_unauthorized 1800000000) (controller true [] [])
            (request_with ("Bearer " ++ sample_token)))
     <> Err {| ch_realm := realm (controller true [] []);
               ch_err := errorString "OIDC token expired" |}.
Proof.
  assert (Ha : audience_accepted (controller true [] []) sample_payload)
    by (right; reflexivity).
  assert (He : Exp sample_payload < now (world_unauthorized 1800000000))
    by (cbn [Exp sample_payload now world_unauthorized]; lia).
  split; [exact header_sample|]. split; [reflexivity|]. split; [exact sample_decodes|].
  split; [exact Ha|]. split; [exact He|].
  exact (expired_claims_token_falls_back (world_unauthorized 1800000000)
           (controller true [] []) (request_with ("Bearer " ++ sample_token))
           sample_token sample_payload header_sample eq_refl sample_decodes Ha He).
Defined.

(** An expired claims token that the GitHub API accepts as its own token
    is granted, in the name the API gives. *)
Lemma expired_claims_token_granted :
  decodeOIDCToken sample_token = Ok sample_payload
  /\ Exp sample_payload <= now (world_alice 1800000000)
  /\ Authorized (world_alice 1800000000) (controller true [] [])
       (request_with ("Bearer " ++ sample_token))
     = (Ok {| User_Name := "alice" |},
        [Sent (api_request "https://api.github.com/user" sample_token);
         Infof "GitHub user %s authenticated successfully" [arg_s "alice"]]).
Proof. repeat split; vm_compute; (reflexivity || discriminate). Qed.

(** ** C2: allowed organizations *)

(** C2, in the form the code satisfies.  With a non-empty list of
    allowed organizations, a grant comes either from the claims verifier,
    which looks at no organization, or from the GitHub API together with
    a confirmed membership of the granted user in one of the listed
    organizations. *)
Theorem organizations_checked_by_remote_verification (w : World) (ac : accessController)
    (req : http.Request) (g : Grant) (tr : list Event) :
  allowedOrgs ac <> [] ->
  Authorized w ac req = (Ok g, tr) ->
  exists token,
    well_formed_header (http.Get (http.Headers req) "Authorization") token
    /\ ((enableOIDC ac = true /\ authenticateOIDC w ac token = (Ok g, tr))
        \/ existsb (org_confirms w ac token (User_Name g)) (allowedOrgs ac) = true).
Proof.
  intros Hne H.
  destruct (Authorized_Ok_well_formed w ac req g tr H) as [token Hh].
  exists token. split; [exact Hh|].
  rewrite (Authorized_well_formed w ac req token Hh) in H. unfold verify in H.
  destruct (enableOIDC ac).
  - destruct (authenticateOIDC w ac token) as [[g'|c] tr'] eqn:E.
    + left. now split.
    + right. destruct (authenticateGitHub w ac token) as [r tr''] eqn:Eg.
      injection H as -> _. now apply (authenticateGitHub_Ok w ac token g tr'').
  - right. now apply (authenticateGitHub_Ok w ac token g tr).
Qed.

Lemma organizations_checked_witness :
  allowedOrgs (controller false ["testorg"] []) <> []
  /\ Authorized (world_member 0) (controller false ["testorg"] [])
       (request_with "Bearer valid-token")
     = (Ok {| User_Name := "alice" |}, trace_member)
  /\ exists token,
       well_formed_header
         (http.Get (http.Headers (request_with "Bearer valid-token")) "Authorization") token
       /\ ((enableOIDC (controller false ["testorg"] []) = true
            /\ authenticateOIDC (world_member 0) (controller false ["testorg"] []) token
               = (Ok {| User_Name := "alice" |}, trace_member))
           \/ existsb (org_confirms (world_member 0) (controller false ["testorg"] []) token
                         (User_Name {| User_Name := "alice" |}))
                (allowedOrgs (controller false ["testorg"] [])) = true).
Proof.
  assert (Hne : allowedOrgs (controller false ["testorg"] []) <> []) by discriminate.
  assert (Hr : Authorized (world_member 0) (controller false ["testorg"] [])
                 (request_with "Bearer valid-token")
               = (Ok {| User_Name := "alice" |}, trace_member))
    by (vm_compute; reflexivity).
  split; [exact Hne|]. split; [exact Hr|].
  exact (organizations_checked_by_remote_verification (world_member 0)
           (controller false ["testorg"] []) (request_with "Bearer valid-token")
           {| User_Name := "alice" |} trace_member Hne Hr).
Defined.

(** A claims token is granted although no listed organization confirms
    its actor. *)
Lemma claims_token_skips_organizations :
  Authorized (world_unauthorized 1700000100) (controller true ["my-org"] [])
    (request_with ("Bearer " ++ sample_token))
  = (Ok {| User_Name := "github-actions" |},
     [Infof "GitHub Actions OIDC authenticated: actor=%s, repo=%s"
        [arg_s "github-actions"; arg_s "owner/repo"]])
  /\ existsb (org_confirms (world_unauthorized 1700000100) (controller true ["my-org"] [])
                sample_token "github-actions") ["my-org"] = false.
Proof. split; vm_compute; reflexivity. Qed.

(** ** C3: the grant of a claims token *)




(** ** C4: the order of the verifiers *)

(** C4.  Once a token has been taken from the header: with the claims
    verifier enabled and successful, [Authorized] returns its grant and
    trace, in which no HTTP call occurs; with the claims verifier enabled
    and failing, or disabled, [Authorized] returns exactly what the
    GitHub verifier returns for the token. *)
Theorem verification_order (w : World) (ac : accessController) (req : http.Request)
    (token : string) :
  well_formed_header (http.Get (http.Headers req) "Authorization") token ->
  match enableOIDC ac, authenticateOIDC w ac token with
  | true, (Ok grant, tr) => Authorized w ac req = (Ok grant, tr) /\ no_remote_call tr
  | true, (Err _, _) => Authorized w ac req = authenticateGitHub w ac token
  | false, _ => Authorized w ac req = authenticateGitHub w ac token
  end.
Proof.
  intros Hh. rewrite (Authorized_well_formed w ac req token Hh). unfold verify.
  destruct (authenticateOIDC_trace w ac token) as [Hs He].
  destruct (enableOIDC ac); [|now destruct (authenticateOIDC w ac token) as [[?|?] ?]].
  destruct (authenticateOIDC w ac token) as [[grant|c] tr] eqn:E.
  - split; [reflexivity | exact Hs].
  - rewrite (He c tr eq_refl). now destruct (authenticateGitHub w ac token).
Qed.

Lemma verification_order_witness :
  well_formed_header
    (http.Get (http.Headers (request_with ("Bearer " ++ sample_token))) "Authorization")
    sample_token
  /\ match enableOIDC (controller true [] []),
           authenticateOIDC (world_alice 1700000100) (controller true [] []) sample_token with
     | true, (Ok grant, tr) =>
         Authorized (world_alice 1700000100) (controller true [] [])
           (request_with ("Bearer " ++ sample_token)) = (Ok grant, tr)
         /\ no_remote_call tr
     | true, (Err _, _) =>
         Authorized (world_alice 1700000100) (controller true [] [])
           (request_with ("Bearer " ++ sample_token))
         = authenticateGitHub (world_alice 1700000100) (controller true [] []) sample_token
     | false, _ =>
         Authorized (world_alice 1700000100) (controller true [] [])
           (request_with ("Bearer " ++ sample_token))
         = authenticateGitHub (world_alice 1700000100) (controller true [] []) sample_token
     end.
Proof.
  split; [exact header_sample|].
  exact (verification_order (world_alice 1700000100) (controller true [] [])
           (request_with ("Bearer " ++ sample_token)) sample_token header_sample).
Defined.

(** ** C5: organization membership *)

(** C5.  After a successful profile call and with a non-empty list of
    organizations, the membership check asks the organizations in the
    configured order and stops at the first that answers 204; an
    organization whose request cannot be built, whose call fails or that
    answers another status counts as no membership and the next one is
    asked.  If one confirms, the user is granted; if none does, the
    request fails although the profile call succeeded, and the log says
    that the user is not a member of the allowed organizations. *)
Theorem org_membership (w : World) (ac : accessController) (token : string)
    (user : githubUser) :
  allowedOrgs ac <> [] ->
  profile_call w ac token user ->
  let confirms := org_confirms w ac token (Login user) in
  let asked :=
    map (fun org => Sent (api_request (org_url ac org (Login user)) token))
      (List.filter (org_asked w ac (Login user)) (upto_first confirms (allowedOrgs ac))) in
  let profile := Sent (api_request (githubAPIURL ac ++ githubUserEndpoint) token) in
  checkOrgMembership w ac token (Login user) = (existsb confirms (allowedOrgs ac), asked)
  /\ authenticateGitHub w ac token =
     if existsb confirms (allowedOrgs ac)
     then (Ok {| User_Name := Login user |},
           profile :: asked ++
           [Infof "GitHub user %s authenticated successfully" [arg_s (Login user)]])
     else (Err (mkchallenge ac ErrAuthenticationFailure),
           profile :: asked ++
           [Errorf "user %s is not a member of allowed organizations" [arg_s (Login user)]]).
Proof.
  intros Hne (Hn & resp & body & Hd & Hs & Hb & Hj) confirms asked profile.
  assert (Hc : checkOrgMembership w ac token (Login user)
               = (existsb confirms (allowedOrgs ac), asked))
    by apply checkOrgMembership_loop_spec.
  split; [exact Hc|].
  unfold authenticateGitHub. rewrite Hn, Hd, Hs, Hb, Hj. simpl negb. cbv iota.
  destruct (allowedOrgs ac) as [|o os] eqn:Eo; [congruence|].
  change (0 <? List.length (o :: os))%nat with true. cbv iota.
  rewrite Hc. now destruct (existsb confirms (o :: os)).
Qed.

Lemma org_membership_witness :
  allowedOrgs (controller false ["other"; "testorg"; "later"] []) <> []
  /\ profile_call (world_member 0) (controller false ["other"; "testorg"; "later"] [])
       "valid-token" alice
  /\ checkOrgMembership (world_member 0) (controller false ["other"; "testorg"; "later"] [])
       "valid-token" (Login alice)
     = (true,
        [Sent (api_request "https://api.github.com/orgs/other/members/alice" "valid-token");
         Sent (api_request "https://api.github.com/orgs/testorg/members/alice" "valid-token")])
  /\ authenticateGitHub (world_member 0) (controller false ["other"; "testorg"; "later"] [])
       "valid-token"
     = (Ok {| User_Name := "alice" |},
        [Sent (api_request "https://api.github.com/user" "valid-token");
         Sent (api_request "https://api.github.com/orgs/other/members/alice" "valid-token");
         Sent (api_request "https://api.github.com/orgs/testorg/members/alice" "valid-token");
         Infof "GitHub user %s authenticated successfully" [arg_s "alice"]]).
Proof.
  assert (Hne : allowedOrgs (controller false ["other"; "testorg"; "later"] []) <> [])
    by discriminate.
  assert (Hp : profile_call (world_member 0)
                 (controller false ["other"; "testorg"; "later"] []) "valid-token" alice).
  { split; [reflexivity|].
    exists {| http.StatusCode := 200; http.Body := Ok alice_body |}, alice_body.
    repeat split; vm_compute; reflexivity. }
  split; [exact Hne|]. split; [exact Hp|].
  exact (org_membership (world_member 0)
           (controller false ["other"; "testorg"; "later"] []) "valid-token" alice Hne Hp).
Defined.

(** ** C6: construction *)

(** C6, in the form the code satisfies.  Construction fails exactly when
    the [realm] option is absent or is not a string; an empty string is
    accepted as it is.  A constructed controller has the realm of the
    options, and for every other option that is absent its default: the
    public API URL, claims verification off, no audience, no allowed
    organizations or repositories. *)
Theorem newAccessController_realm (options : gmap string Any) :
  ((exists e, newAccessController options = Err e)
   <-> ~ exists s, options !! "realm" = Some (any_string s))
  /\ forall ac, newAccessController options = Ok ac ->
       options !! "realm" = Some (any_string (realm ac))
       /\ (options !! "api_url" = None -> githubAPIURL ac = "https://api.github.com")
       /\ (options !! "enable_oidc" = None -> enableOIDC ac = false)
       /\ (options !! "oidc_audience" = None -> oidcAudience ac = EmptyString)
       /\ (options !! "allowed_orgs" = None -> allowedOrgs ac = [])
       /\ (options !! "allowed_repos" = None -> allowedRepos ac = []).
Proof.
  unfold newAccessController. split.
  - destruct (options !! "realm") as [[| s | | | |]|] eqn:E; simpl; split;
      try (intros _ [s' Hs']; discriminate);
      try (intros _; eexists; reflexivity).
    + intros [e He]; discriminate.
    + intros H; exfalso; apply H; eexists; reflexivity.
  - intros ac H.
    destruct (options !! "realm") as [[| s | | | |]|] eqn:E; simpl in H; try discriminate.
    injection H as <-. cbn [realm githubAPIURL enableOIDC oidcAudience allowedOrgs allowedRepos].
    repeat split; intros ->; reflexivity.
Qed.

(** An empty realm is accepted. *)
Lemma newAccessController_empty_realm :
  newAccessController (<["realm" := any_string EmptyString]> ∅)
  = Ok {| realm := EmptyString;
          githubAPIURL := "https://api.github.com";
          allowedOrgs := [];
          allowedRepos := [];
          httpClient := {| Timeout := 10000000000 |};
          enableOIDC := false;
          oidcAudience := EmptyString |}.
Proof. vm_compute. reflexivity. Qed.

(** ** C7: the Authorization header *)


(** ** C8: what a challenge tells *)




(** ** C9: the wire format *)

(** C9, in the form the code satisfies.  A payload whose strings are
    well-formed UTF-8 and whose times are 64-bit integers, written as
    JSON, encoded in the URL alphabet without padding and put between two
    segments that hold no dot, is decoded to the same payload, field for
    field. *)
Theorem claims_round_trip (p : oidcTokenPayload) (header signature : string) :
  valid_payload p ->
  strings.Contains header "." = false ->
  strings.Contains signature "." = false ->
  decodeOIDCToken (wire header p signature) = Ok p.
Proof.
  intros Hp Hh Hs. unfold decodeOIDCToken, wire.
  change ("." ++ base64.EncodeToString base64.RawURLEncoding (Marshal_oidcTokenPayload p)
          ++ "." ++ signature)
    with (String "." (base64.EncodeToString base64.RawURLEncoding (Marshal_oidcTokenPayload p)
                      ++ String "." signature)).
  rewrite (Split_app header _ "." Hh), (Split_app _ signature "." (encoded_no_dot _)),
    (Split_no_sep signature "." Hs).
  cbn [List.length Nat.eqb negb nth].
  rewrite base64URLDecode_encoded. now rewrite (Unmarshal_Marshal p Hp).
Qed.

Lemma claims_round_trip_witness :
  valid_payload sample_payload
  /\ strings.Contains "eyJhbGciOiJSUzI1NiIsInR5cCI6IkpXVCJ9" "." = false
  /\ strings.Contains "fake-signature" "." = false
  /\ decodeOIDCToken (wire "eyJhbGciOiJSUzI1NiIsInR5cCI6IkpXVCJ9" sample_payload "fake-signature")
     = Ok sample_payload.
Proof.
  split; [exact sample_valid|]. split; [reflexivity|]. split; [reflexivity|].
  exact (claims_round_trip sample_payload "eyJhbGciOiJSUzI1NiIsInR5cCI6IkpXVCJ9"
           "fake-signature" sample_valid eq_refl eq_refl).
Defined.

(** A byte that is no UTF-8 comes back as the replacement character. *)
Lemma ill_formed_actor_changes :
  decodeOIDCToken (wire "header" ill_formed_payload "signature")
  = Ok {| Sub := "repo:owner/repo:ref:refs/heads/main";
          Aud := "https://example.com";
          Repository := "owner/repo";
          Actor := String "239" (String "191" (String "189" EmptyString));
          Workflow := "CI";
          Ref := "refs/heads/main";
          Exp := 1700003600;
          Iat := 1700000000 |}
  /\ Actor ill_formed_payload = String "255" EmptyString.
Proof. split; vm_compute; reflexivity. Qed.

(** ** C10: the two alphabets and the padding *)

(** C10, in the form the code satisfies.  [base64URLDecode] is the
    standard decoder applied after two equal signs have been added to a
    segment of length 2 modulo 4, one to a segment of length 3 modulo 4,
    none otherwise, and after every minus sign has become a plus sign and
    every underscore a slash.  So a segment written in the standard
    alphabet, or with its padding written out, decodes as its URL form
    does; and a segment of length 1 modulo 4 in which no newline occurs
    never decodes. *)
Theorem base64URLDecode_alphabets_and_padding (s : string) :
  base64URLDecode s
  = base64.DecodeString base64.StdEncoding
      (strings.ReplaceAll (strings.ReplaceAll (s ++ added_padding s) "-" "+") "_" "/")
  /\ base64URLDecode (strings.ReplaceAll (strings.ReplaceAll s "-" "+") "_" "/")
     = base64URLDecode s
  /\ (len s mod 4 = 2 -> base64URLDecode (s ++ "==") = base64URLDecode s)
  /\ (len s mod 4 = 3 -> base64URLDecode (s ++ "=") = base64URLDecode s)
  /\ (len s mod 4 = 1 -> no_newline s -> exists bs e, base64URLDecode s = (bs, Some e)).
Proof.
  destruct (pad4_explicit s) as (H2 & H3 & _).
  split; [now rewrite base64URLDecode_unfold, pad4_added|].
  split; [apply base64URLDecode_to_std|].
  split; [intros H; now rewrite !base64URLDecode_unfold, (H2 H)|].
  split; [intros H; now rewrite !base64URLDecode_unfold, (H3 H)|].
  apply base64URLDecode_bad_length.
Qed.

(** Four alphabet bytes and a newline: length 1 modulo 4, and decoded. *)
Lemma newline_after_quantum_decodes :
  len ("QUJD" ++ String LF EmptyString) mod 4 = 1
  /\ base64URLDecode ("QUJD" ++ String LF EmptyString) = (bytes_of "ABC", None).
Proof. split; vm_compute; reflexivity. Qed.

(** * Further properties of the package *)

(** ** Construction: [newAccessController] *)

(** X1.  The API URL of a constructed controller never ends in a slash.
    An [api_url] option that is a string other than the empty one is
    taken with all its trailing slashes removed, and only those; an
    empty string, and a value that is not a string, leave the public API
    URL in place. *)
Theorem newAccessController_api_url (options : gmap string Any) (ac : accessController) :
  newAccessController options = Ok ac ->
  (forall t, githubAPIURL ac <> t ++ "/")
  /\ (forall s, options !! "api_url" = Some (any_string s) -> s <> EmptyString ->
        exists n, s = githubAPIURL ac ++ string_of (repeat "/"%char n))
  /\ (options !! "api_url" = Some (any_string EmptyString) ->
      githubAPIURL ac = "https://api.github.com")
  /\ (forall v, options !! "api_url" = Some v -> (forall s, v <> any_string s) ->
        githubAPIURL ac = "https://api.github.com").
Proof.
  unfold newAccessController. intros H.
  destruct (as_string (options !! "realm")) as [r|]; [|discriminate].
  injection H as <-. cbn [githubAPIURL].
  split; [|split; [|split]].
  - intros t.
    assert (Hd : githubAPIURL_default <> t ++ "/").
    { change githubAPIURL_default with (strings.TrimRight githubAPIURL_default "/").
      apply TrimRight_end. }
    destruct (as_string (options !! "api_url")) as [s|]; [|exact Hd].
    destruct (negb (String.eqb s EmptyString)); [apply TrimRight_end | exact Hd].
  - intros s -> Hs. cbn [as_string]. apply String.eqb_neq in Hs. rewrite Hs. cbn [negb].
    apply TrimRight_suffix.
  - intros ->. reflexivity.
  - intros v -> Hv. destruct v; try reflexivity. now destruct (Hv s).
Qed.

Lemma newAccessController_api_url_witness :
  newAccessController options_enterprise = Ok controller_enterprise
  /\ (forall t, githubAPIURL controller_enterprise <> t ++ "/")
  /\ (forall s, options_enterprise !! "api_url" = Some (any_string s) -> s <> EmptyString ->
        exists n, s = githubAPIURL controller_enterprise ++ string_of (repeat "/"%char n))
  /\ (options_enterprise !! "api_url" = Some (any_string EmptyString) ->
      githubAPIURL controller_enterprise = "https://api.github.com")
  /\ (forall v, options_enterprise !! "api_url" = Some v -> (forall s, v <> any_string s) ->
        githubAPIURL controller_enterprise = "https://api.github.com").
Proof.
  assert (H : newAccessController options_enterprise = Ok controller_enterprise)
    by (vm_compute; reflexivity).
  split; [exact H|].
  exact (newAccessController_api_url options_enterprise controller_enterprise H).
Defined.

(** X2.  Of an [allowed_orgs] or [allowed_repos] option that is a list of
    values, the controller keeps the strings: all of them and in order
    when every element is a string, and in any case exactly the strings
    that occur in it.  An option given as a list of strings ([[]string])
    is not read: the controller has an empty list, which restricts
    nothing. *)
Theorem newAccessController_lists (options : gmap string Any) (ac : accessController) :
  newAccessController options = Ok ac ->
  (forall l, options !! "allowed_orgs" = Some (any_slice (map any_string l)) ->
     allowedOrgs ac = l)
  /\ (forall l s, options !! "allowed_orgs" = Some (any_slice l) ->
        (In s (allowedOrgs ac) <-> In (any_string s) l))
  /\ (forall l, options !! "allowed_orgs" = Some (any_strings l) -> allowedOrgs ac = [])
  /\ (forall l, options !! "allowed_repos" = Some (any_slice (map any_string l)) ->
        allowedRepos ac = l)
  /\ (forall l s, options !! "allowed_repos" = Some (any_slice l) ->
        (In s (allowedRepos ac) <-> In (any_string s) l))
  /\ (forall l, options !! "allowed_repos" = Some (any_strings l) -> allowedRepos ac = []).
Proof.
  unfold newAccessController. intros H.
  destruct (as_string (options !! "realm")) as [r|]; [|discriminate].
  injection H as <-. cbn [allowedOrgs allowedRepos].
  split; [|split; [|split; [|split; [|split]]]].
  - intros l ->. apply strings_in_all.
  - intros l s ->. apply strings_in_In.
  - now intros l ->.
  - intros l ->. apply strings_in_all.
  - intros l s ->. apply strings_in_In.
  - now intros l ->.
Qed.

Lemma newAccessController_lists_witness :
  newAccessController options_lists = Ok controller_lists
  /\ (forall l, options_lists !! "allowed_orgs" = Some (any_slice (map any_string l)) ->
        allowedOrgs controller_lists = l)
  /\ (forall l s, options_lists !! "allowed_orgs" = Some (any_slice l) ->
        (In s (allowedOrgs controller_lists) <-> In (any_string s) l))
  /\ (forall l, options_lists !! "allowed_orgs" = Some (any_strings l) ->
        allowedOrgs controller_lists = [])
  /\ (forall l, options_lists !! "allowed_repos" = Some (any_slice (map any_string l)) ->
        allowedRepos controller_lists = l)
  /\ (forall l s, options_lists !! "allowed_repos" = Some (any_slice l) ->
        (In s (allowedRepos controller_lists) <-> In (any_string s) l))
  /\ (forall l, options_lists !! "allowed_repos" = Some (any_strings l) ->
        allowedRepos controller_lists = []).
Proof.
  assert (H : newAccessController options_lists = Ok controller_lists)
    by (vm_compute; reflexivity).
  split; [exact H|].
  exact (newAccessController_lists options_lists controller_lists H).
Defined.

(** X3.  A controller constructed from options in which [enable_oidc] is
    absent, or is anything but the boolean [true], grants only what the
    GitHub API vouches for: every grant of [Authorized] follows a
    profile call for the token of the header, sent first, that was
    answered with status 200 and a user document, and the grant names
    the login of that document. *)
Theorem built_without_claims_asks_github (options : gmap string Any) (ac : accessController)
    (w : World) (req : http.Request) (g : Grant) (tr : list Event) :
  newAccessController options = Ok ac ->
  options !! "enable_oidc" <> Some (any_bool true) ->
  Authorized w ac req = (Ok g, tr) ->
  exists token user tr',
    well_formed_header (http.Get (http.Headers req) "Authorization") token
    /\ profile_call w ac token user
    /\ User_Name g = Login user
    /\ tr = Sent (api_request (githubAPIURL ac ++ githubUserEndpoint) token) :: tr'.
Proof.
  intros Hb Ho H.
  assert (Hoff : enableOIDC ac = false).
  { unfold newAccessController in Hb.
    destruct (as_string (options !! "realm")) as [r|]; [|discriminate].
    injection Hb as <-. cbn [enableOIDC].
    destruct (options !! "enable_oidc") as [[| | [|] | | |]|]; try reflexivity.
    now destruct Ho. }
  destruct (Authorized_Ok_well_formed w ac req g tr H) as [token Hh].
  rewrite (Authorized_well_formed w ac req token Hh) in H. unfold verify in H.
  rewrite Hoff in H.
  destruct (authenticateGitHub_Ok_profile w ac token g tr H) as (user & tr' & Hp & -> & ->).
  exists token, user, tr'. repeat (split; [assumption || reflexivity|]). reflexivity.
Qed.

Lemma built_without_claims_asks_github_witness :
  newAccessController options_realm = Ok controller_realm
  /\ options_realm !! "enable_oidc" <> Some (any_bool true)
  /\ Authorized world_testuser controller_realm (request_with "Bearer valid-token")
     = (Ok {| User_Name := "testuser" |},
        [Sent (api_request "https://api.github.com/user" "valid-token");
         Infof "GitHub user %s authenticated successfully" [arg_s "testuser"]])
  /\ exists token user tr',
       well_formed_header
         (http.Get (http.Headers (request_with "Bearer valid-token")) "Authorization") token
       /\ profile_call world_testuser controller_realm token user
       /\ User_Name {| User_Name := "testuser" |} = Login user
       /\ [Sent (api_request "https://api.github.com/user" "valid-token");
           Infof "GitHub user %s authenticated successfully" [arg_s "testuser"]]
          = Sent (api_request (githubAPIURL controller_realm ++ githubUserEndpoint) token) :: tr'.
Proof.
  assert (Hb : newAccessController options_realm = Ok controller_realm)
    by (vm_compute; reflexivity).
  assert (Ho : options_realm !! "enable_oidc" <> Some (any_bool true))
    by (vm_compute; discriminate).
  assert (Hr : Authorized world_testuser controller_realm (request_with "Bearer valid-token")
               = (Ok {| User_Name := "testuser" |},
                  [Sent (api_request "https://api.github.com/user" "valid-token");
                   Infof "GitHub user %s authenticated successfully" [arg_s "testuser"]]))
    by (vm_compute; reflexivity).
  split; [exact Hb|]. split; [exact Ho|]. split; [exact Hr|].
  exact (built_without_claims_asks_github options_realm controller_realm world_testuser
           (request_with "Bearer valid-token") _ _ Hb Ho Hr).
Defined.

(** ** [Authorized]: what goes out *)

(** X4.  Whatever [Authorized] sends, it sends to the configured API: each
    request of a run is the profile call or the membership call for one
    of the configured organizations, so a [GET] to a URL that starts
    with the API URL of the controller, and it carries the token of the
    header after the word [token], whichever of the two prefixes the
    client wrote.  A run sends at most one request more than there are
    configured organizations. *)
Theorem outbound_requests (w : World) (ac : accessController) (req : http.Request)
    (token : string) :
  well_formed_header (http.Get (http.Headers req) "Authorization") token ->
  (forall r, In (Sent r) (snd (Authorized w ac req)) ->
     outbound ac token r
     /\ http.Method r = "GET"
     /\ strings.HasPrefix (http.URL r) (githubAPIURL ac) = true
     /\ http.Get (http.Headers r) "Authorization" = "token " ++ token)
  /\ (List.length (List.filter is_Sent (snd (Authorized w ac req)))
      <= 1 + List.length (allowedOrgs ac))%nat.
Proof.
  intros Hh. rewrite (Authorized_well_formed w ac req token Hh).
  destruct (authenticateGitHub_sent w ac token) as [Ho Hl].
  assert (Hshape : forall r, outbound ac token r ->
            outbound ac token r
            /\ http.Method r = "GET"
            /\ strings.HasPrefix (http.URL r) (githubAPIURL ac) = true
            /\ http.Get (http.Headers r) "Authorization" = "token " ++ token).
  { intros r Hr. split; [exact Hr|].
    destruct Hr as [-> | (org & username & _ & ->)].
    - destruct (api_request_shape (githubAPIURL ac ++ githubUserEndpoint) token)
        as (Hm & Hu & Ha).
      split; [exact Hm|]. split; [|exact Ha]. rewrite Hu. apply HasPrefix_app.
    - destruct (api_request_shape (org_url ac org username) token) as (Hm & Hu & Ha).
      split; [exact Hm|]. split; [|exact Ha]. rewrite Hu. unfold org_url.
      apply HasPrefix_app. }
  assert (Hv : snd (verify w ac token) = snd (authenticateGitHub w ac token)
               \/ List.filter is_Sent (snd (verify w ac token)) = []).
  { unfold verify. destruct (enableOIDC ac); [|now left].
    destruct (authenticateOIDC_trace w ac token) as [Hs He].
    destruct (authenticateOIDC w ac token) as [[g|c] tr] eqn:E.
    - right. cbn [snd] in *. clear -Hs.
      induction tr as [|e tr IH]; [reflexivity|].
      cbn [List.filter]. destruct (is_Sent e) eqn:Ee.
      + exfalso. revert Hs. cbn. rewrite Ee. cbn. discriminate.
      + apply IH. revert Hs. cbn. now rewrite Ee.
    - left. rewrite (He c tr eq_refl).
      now destruct (authenticateGitHub w ac token). }
  destruct Hv as [-> | Hn].
  - split; [|exact Hl]. intros r Hr. now apply Hshape, Ho.
  - split; [|rewrite Hn; cbn; lia].
    intros r Hr. exfalso.
    assert (Hin : In (Sent r) (List.filter is_Sent (snd (verify w ac token))))
      by (apply List.filter_In; now split).
    now rewrite Hn in Hin.
Qed.

Lemma outbound_requests_witness :
  well_formed_header
    (http.Get (http.Headers (request_with "Bearer valid-token")) "Authorization")
    "valid-token"
  /\ (forall r,
        In (Sent r)
          (snd (Authorized (world_member 0) (controller false ["testorg"] [])
                  (request_with "Bearer valid-token"))) ->
        outbound (controller false ["testorg"] []) "valid-token" r
        /\ http.Method r = "GET"
        /\ strings.HasPrefix (http.URL r) (githubAPIURL (controller false ["testorg"] [])) = true
        /\ http.Get (http.Headers r) "Authorization" = "token " ++ "valid-token")
  /\ (List.length
        (List.filter is_Sent
           (snd (Authorized (world_member 0) (controller false ["testorg"] [])
                   (request_with "Bearer valid-token"))))
      <= 1 + List.length (allowedOrgs (controller false ["testorg"] [])))%nat.
Proof.
  split; [exact header_valid_token|].
  exact (outbound_requests (world_member 0) (controller false ["testorg"] [])
           (request_with "Bearer valid-token") "valid-token" header_valid_token).
Defined.

(** X5.  Every grant of [Authorized] is written to the log: the trace of
    a granting run ends with an [Infof] line whose first argument is the
    granted name, and holds no other [Infof] line; the trace of a
    failing run holds none. *)
Theorem grants_are_logged (w : World) (ac : accessController) (req : http.Request) :
  match Authorized w ac req with
  | (Ok g, tr) =>
      exists pre format rest,
        tr = (pre ++ [Infof format (arg_s (User_Name g) :: rest)])%list
        /\ Forall (fun e => is_Infof e = false) pre
  | (Err _, tr) => Forall (fun e => is_Infof e = false) tr
  end.
Proof.
  destruct (classic_header (http.Get (http.Headers req) "Authorization")) as [[t Ht]|Hn].
  2: { rewrite (Authorized_ill_formed w ac req Hn). constructor. }
  rewrite (Authorized_well_formed w ac req t Ht). unfold verify.
  pose proof (authenticateGitHub_log w ac t) as Hg.
  assert (Hg' : match authenticateGitHub w ac t with
                | (Ok g, tr) =>
                    exists pre format rest,
                      tr = (pre ++ [Infof format (arg_s (User_Name g) :: rest)])%list
                      /\ Forall (fun e => is_Infof e = false) pre
                | (Err _, tr) => Forall (fun e => is_Infof e = false) tr
                end).
  { destruct (authenticateGitHub w ac t) as [[g|c] tr]; [|exact Hg].
    destruct Hg as (pre & -> & Hp). now exists pre, "GitHub user %s authenticated successfully", []. }
  destruct (enableOIDC ac); [|exact Hg'].
  destruct (authenticateOIDC w ac t) as [[g|c] tr] eqn:Eo.
  - apply authenticateOIDC_Ok in Eo. destruct Eo as (payload & _ & _ & _ & _ & -> & ->).
    exists [], "GitHub Actions OIDC authenticated: actor=%s, repo=%s",
      [arg_s (Repository payload)]. split; [reflexivity | constructor].
  - destruct (authenticateOIDC_trace w ac t) as [_ He].
    rewrite Eo in He. rewrite (He c tr eq_refl).
    now destruct (authenticateGitHub w ac t) as [[g|c'] tr'].
Qed.

(** X6.  A token that does not have exactly two dots is verified by the
    GitHub API alone, whether the claims verifier is enabled or not:
    [Authorized] returns for it what [authenticateGitHub] returns,
    result and trace. *)
Theorem opaque_token_goes_to_github (w : World) (ac : accessController) (req : http.Request)
    (token : string) :
  well_formed_header (http.Get (http.Headers req) "Authorization") token ->
  occurrences token "." <> 2%nat ->
  Authorized w ac req = authenticateGitHub w ac token.
Proof.
  intros Hh Hc. rewrite (Authorized_well_formed w ac req token Hh). unfold verify.
  destruct (enableOIDC ac); [|reflexivity].
  unfold authenticateOIDC.
  apply decodeOIDCToken_format in Hc. rewrite Hc.
  now destruct (authenticateGitHub w ac token).
Qed.

Lemma opaque_token_goes_to_github_witness :
  well_formed_header
    (http.Get (http.Headers (request_with "Bearer valid-token")) "Authorization")
    "valid-token"
  /\ occurrences "valid-token" "." <> 2%nat
  /\ Authorized world_testuser (controller true [] []) (request_with "Bearer valid-token")
     = authenticateGitHub world_testuser (controller true [] []) "valid-token".
Proof.
  assert (Hc : occurrences "valid-token" "." <> 2%nat) by (vm_compute; discriminate).
  split; [exact header_valid_token|]. split; [exact Hc|].
  exact (opaque_token_goes_to_github world_testuser (controller true [] [])
           (request_with "Bearer valid-token") "valid-token" header_valid_token Hc).
Defined.

(** ** [authenticateGitHub] *)

(** X7.  [authenticateGitHub] grants exactly when the profile request can
    be built, the call is answered with status 200 (no other status of
    the 2xx class will do) and a body that is read and decoded as a
    user, and either no organization is configured or one of the
    configured ones confirms that user; the grant then names the login
    of the user. *)
Theorem authenticateGitHub_grants_iff (w : World) (ac : accessController) (token : string)
    (g : Grant) :
  fst (authenticateGitHub w ac token) = Ok g
  <-> exists user,
        profile_call w ac token user
        /\ g = {| User_Name := Login user |}
        /\ (allowedOrgs ac = []
            \/ existsb (org_confirms w ac token (Login user)) (allowedOrgs ac) = true).
Proof.
  split.
  - destruct (authenticateGitHub w ac token) as [r tr] eqn:E. cbn [fst]. intros ->.
    destruct (authenticateGitHub_Ok_profile w ac token g tr E) as (user & tr' & Hp & -> & _).
    exists user. split; [exact Hp|]. split; [reflexivity|].
    destruct (allowedOrgs ac) as [|o os] eqn:Eo; [now left|]. right.
    rewrite <- Eo. apply (authenticateGitHub_Ok w ac token {| User_Name := Login user |} tr E).
    now rewrite Eo.
  - intros (user & (Hn & resp & body & Hd & Hs & Hb & Hj) & -> & Ho).
    unfold authenticateGitHub. rewrite Hn, Hd, Hs, Hb, Hj. cbn [negb Z.eqb]. cbv iota.
    change (negb (http.StatusOK =? http.StatusOK)) with false. cbv iota.
    destruct (allowedOrgs ac) as [|o os] eqn:Eo; [reflexivity|].
    destruct Ho as [Ho|Ho]; [discriminate|].
    change (0 <? List.length (o :: os))%nat with true. cbv iota.
    unfold checkOrgMembership. rewrite Eo, checkOrgMembership_loop_spec, Ho. reflexivity.
Qed.

(** X8.  What the mock server of the test suite does, for every user: if
    the profile call is answered with status 200 and the JSON encoding
    of a user whose strings are well-formed UTF-8, written by an
    [Encoder] and so followed by a newline, the profile call yields
    that very user; with no organization configured,
    [authenticateGitHub] grants the login of the user after that one
    call. *)
Theorem profile_round_trip (w : World) (ac : accessController) (token : string)
    (u : githubUser) :
  valid_user u ->
  NewRequest_error w (githubAPIURL ac ++ githubUserEndpoint) = None ->
  Do w (api_request (githubAPIURL ac ++ githubUserEndpoint) token)
  = Ok {| http.StatusCode := 200; http.Body := Ok (Encode_githubUser u) |} ->
  profile_call w ac token u
  /\ (allowedOrgs ac = [] ->
      authenticateGitHub w ac token
      = (Ok {| User_Name := Login u |},
         [Sent (api_request (githubAPIURL ac ++ githubUserEndpoint) token);
          Infof "GitHub user %s authenticated successfully" [arg_s (Login u)]])).
Proof.
  intros Hu Hn Hd. pose proof (Unmarshal_Encode_githubUser u Hu) as Hj. split.
  - split; [exact Hn|]. eexists _, _. split; [exact Hd|].
    split; [reflexivity|]. split; [reflexivity | exact Hj].
  - intros Ho. unfold authenticateGitHub. rewrite Hn, Hd. cbn [http.StatusCode http.Body].
    change (negb (200 =? http.StatusOK)) with false. cbv iota.
    rewrite Hj, Ho. reflexivity.
Qed.

Lemma profile_round_trip_witness :
  valid_user testuser
  /\ NewRequest_error world_testuser (githubAPIURL controller_realm ++ githubUserEndpoint) = None
  /\ Do world_testuser
       (api_request (githubAPIURL controller_realm ++ githubUserEndpoint) "valid-token")
     = Ok {| http.StatusCode := 200; http.Body := Ok (Encode_githubUser testuser) |}
  /\ profile_call world_testuser controller_realm "valid-token" testuser
  /\ (allowedOrgs controller_realm = [] ->
      authenticateGitHub world_testuser controller_realm "valid-token"
      = (Ok {| User_Name := Login testuser |},
         [Sent (api_request (githubAPIURL controller_realm ++ githubUserEndpoint) "valid-token");
          Infof "GitHub user %s authenticated successfully" [arg_s (Login testuser)]])).
Proof.
  assert (Hu : valid_user testuser).
  { constructor; try (vm_compute; reflexivity).
    unfold int64; cbn [ID testuser]; lia. }
  assert (Hd : Do world_testuser
                 (api_request (githubAPIURL controller_realm ++ githubUserEndpoint) "valid-token")
               = Ok {| http.StatusCode := 200; http.Body := Ok (Encode_githubUser testuser) |})
    by (vm_compute; reflexivity).
  split; [exact Hu|]. split; [reflexivity|]. split; [exact Hd|].
  exact (profile_round_trip world_testuser controller_realm "valid-token" testuser
           Hu eq_refl Hd).
Defined.

(** X9.  The login is not required to be there.  If the profile call is
    answered with a body that is a JSON document without a member that
    answers to [login] (keys are compared without regard to case), a
    grant of [authenticateGitHub], if there is one, names the empty
    string. *)
Theorem profile_without_login (w : World) (ac : accessController) (token : string)
    (resp : http.Response) (body : list ascii) (v : json.Value) :
  Do w (api_request (githubAPIURL ac ++ githubUserEndpoint) token) = Ok resp ->
  http.Body resp = Ok body ->
  json.parse (string_of body) = Some v ->
  no_member "login" v ->
  forall g tr, authenticateGitHub w ac token = (Ok g, tr) -> User_Name g = EmptyString.
Proof.
  intros Hd Hb Hp Hn g tr H.
  destruct (authenticateGitHub_Ok_profile w ac token g tr H)
    as (user & tr' & (_ & resp' & body' & Hd' & _ & Hb' & Hj) & -> & _).
  rewrite Hd in Hd'. injection Hd' as <-. rewrite Hb in Hb'. injection Hb' as <-.
  pose proof (Unmarshal_no_login body v Hp Hn) as E. rewrite Hj in E. exact E.
Qed.

Lemma profile_without_login_witness :
  Do world_error_document
    (api_request (githubAPIURL controller_realm ++ githubUserEndpoint) "any-token")
  = Ok {| http.StatusCode := 200; http.Body := Ok error_document |}
  /\ http.Body {| http.StatusCode := 200; http.Body := Ok error_document |} = Ok error_document
  /\ json.parse (string_of error_document)
     = Some (json.Object [("message", json.Str "Bad credentials")])
  /\ no_member "login" (json.Object [("message", json.Str "Bad credentials")])
  /\ authenticateGitHub world_error_document controller_realm "any-token"
     = (Ok {| User_Name := EmptyString |},
        [Sent (api_request "https://api.github.com/user" "any-token");
         Infof "GitHub user %s authenticated successfully" [arg_s EmptyString]])
  /\ forall g tr,
       authenticateGitHub world_error_document controller_realm "any-token" = (Ok g, tr) ->
       User_Name g = EmptyString.
Proof.
  assert (Hp : json.parse (string_of error_document)
               = Some (json.Object [("message", json.Str "Bad credentials")]))
    by (vm_compute; reflexivity).
  assert (Hn : no_member "login" (json.Object [("message", json.Str "Bad credentials")])).
  { intros k x [[= <- <-]|[]]. reflexivity. }
  split; [reflexivity|]. split; [reflexivity|]. split; [exact Hp|]. split; [exact Hn|].
  split; [vm_compute; reflexivity|].
  exact (profile_without_login world_error_document controller_realm "any-token"
           {| http.StatusCode := 200; http.Body := Ok error_document |} error_document
           (json.Object [("message", json.Str "Bad credentials")])
           eq_refl eq_refl Hp Hn).
Defined.

(** X10.  The list of organizations counts as a set, and a longer one
    admits more.  Between two controllers that differ in that list
    only: if the first list is not empty and each of its organizations
    is in the second, a request granted under the first is granted
    under the second, in the same name; if the two lists hold the same
    organizations, in whatever order and number, [Authorized] decides
    the same; and a request granted under any list is granted under the
    empty one. *)
Theorem organizations_as_a_set (w : World) (ac : accessController) (req : http.Request)
    (orgs orgs' : list string) :
  orgs <> [] ->
  (forall o, In o orgs -> In o orgs') ->
  (forall g, fst (Authorized w (with_orgs ac orgs) req) = Ok g ->
             fst (Authorized w (with_orgs ac orgs') req) = Ok g)
  /\ ((forall o, In o orgs' -> In o orgs) ->
      fst (Authorized w (with_orgs ac orgs) req) = fst (Authorized w (with_orgs ac orgs') req))
  /\ (forall g, fst (Authorized w (with_orgs ac orgs) req) = Ok g ->
                fst (Authorized w (with_orgs ac []) req) = Ok g).
Proof.
  intros Hne Hi.
  assert (Hne' : orgs' <> []).
  { destruct orgs as [|o os]; [congruence|]. intros E.
    specialize (Hi o (or_introl eq_refl)). now rewrite E in Hi. }
  destruct (classic_header (http.Get (http.Headers req) "Authorization")) as [[t Ht]|Hn].
  2: { rewrite !(Authorized_ill_formed _ _ req Hn).
       split; [discriminate|]. split; [reflexivity | discriminate]. }
  rewrite !(Authorized_well_formed _ _ req t Ht), !verify_fst.
  change (enableOIDC (with_orgs ac orgs)) with (enableOIDC ac).
  change (enableOIDC (with_orgs ac orgs')) with (enableOIDC ac).
  change (enableOIDC (with_orgs ac [])) with (enableOIDC ac).
  rewrite !authenticateOIDC_with_orgs.
  rewrite (authenticateGitHub_with_orgs w ac orgs), (authenticateGitHub_with_orgs w ac orgs').
  destruct (if enableOIDC ac then _ else _) as [g0|c];
    [split; [now intros g [= <-]|]; split; [reflexivity | now intros g [= <-]]|].
  destruct (fst (authenticateGitHub w (with_orgs ac []) t)) as [g0|c0];
    [|split; [discriminate|]; split; [reflexivity | discriminate]].
  destruct orgs as [|o os]; [congruence|]. destruct orgs' as [|o' os']; [congruence|].
  destruct (existsb _ (o :: os)) eqn:E.
  - rewrite (existsb_incl _ _ (o' :: os') Hi E).
    split; [now intros g [= <-]|]. split; [reflexivity | now intros g [= <-]].
  - split; [discriminate|]. split; [|discriminate]. intros Hi'.
    destruct (existsb _ (o' :: os')) eqn:E'; [|reflexivity].
    now rewrite (existsb_incl _ _ (o :: os) Hi' E') in E.
Qed.

Lemma organizations_as_a_set_witness :
  ["testorg"] <> ([] : list string)
  /\ (forall o : string, In o ["testorg"] -> In o ["other"; "testorg"])
  /\ fst (Authorized (world_member 0) (with_orgs (controller false [] []) ["testorg"])
            (request_with "Bearer valid-token"))
     = Ok {| User_Name := "alice" |}
  /\ (forall g,
        fst (Authorized (world_member 0) (with_orgs (controller false [] []) ["testorg"])
               (request_with "Bearer valid-token")) = Ok g ->
        fst (Authorized (world_member 0)
               (with_orgs (controller false [] []) ["other"; "testorg"])
               (request_with "Bearer valid-token")) = Ok g)
  /\ ((forall o : string, In o ["other"; "testorg"] -> In o ["testorg"]) ->
      fst (Authorized (world_member 0) (with_orgs (controller false [] []) ["testorg"])
             (request_with "Bearer valid-token"))
      = fst (Authorized (world_member 0)
               (with_orgs (controller false [] []) ["other"; "testorg"])
               (request_with "Bearer valid-token")))
  /\ (forall g,
        fst (Authorized (world_member 0) (with_orgs (controller false [] []) ["testorg"])
               (request_with "Bearer valid-token")) = Ok g ->
        fst (Authorized (world_member 0) (with_orgs (controller false [] []) [])
               (request_with "Bearer valid-token")) = Ok g).
Proof.
  assert (Hne : ["testorg"] <> ([] : list string)) by discriminate.
  assert (Hi : forall o : string, In o ["testorg"] -> In o ["other"; "testorg"])
    by (intros o [<-|[]]; right; left; reflexivity).
  split; [exact Hne|]. split; [exact Hi|]. split; [vm_compute; reflexivity|].
  exact (organizations_as_a_set (world_member 0) (controller false [] [])
           (request_with "Bearer valid-token") ["testorg"] ["other"; "testorg"] Hne Hi).
Defined.

(** ** [authenticateOIDC] and [decodeOIDCToken] *)

(** X11.  [authenticateOIDC] grants exactly when the token decodes to a
    payload whose audience is the configured one (any audience when
    none is configured), whose [exp] is not before the current time (a
    token is still good in the second it expires), and whose repository
    is in the configured list (any repository when the list is empty).
    The grant names the [actor] of the payload, and the run leaves one
    log line and no call. *)
Theorem authenticateOIDC_grants_iff (w : World) (ac : accessController) (token : string)
    (g : Grant) (tr : list Event) :
  authenticateOIDC w ac token = (Ok g, tr)
  <-> exists payload,
        decodeOIDCToken token = Ok payload
        /\ audience_accepted ac payload
        /\ now w <= Exp payload
        /\ repository_accepted ac payload
        /\ g = {| User_Name := Actor payload |}
        /\ tr = [Infof "GitHub Actions OIDC authenticated: actor=%s, repo=%s"
                   [arg_s (Actor payload); arg_s (Repository payload)]].
Proof.
  split; [apply authenticateOIDC_Ok|].
  intros (payload & Hd & Ha & He & Hr & -> & ->).
  now apply authenticateOIDC_intro.
Qed.

(** X12.  The claims verifier reads nothing of the world but the clock,
    and of the times in a token only [exp]: a token it grants at one
    time it grants, in the same name, at every earlier time, so also
    before the time the token says it was issued at. *)
Theorem claims_token_good_earlier (w w' : World) (ac : accessController) (token : string)
    (g : Grant) (tr : list Event) :
  authenticateOIDC w ac token = (Ok g, tr) ->
  now w' <= now w ->
  authenticateOIDC w' ac token = (Ok g, tr).
Proof.
  intros H Hw. apply authenticateOIDC_Ok in H.
  destruct H as (payload & Hd & Ha & He & Hr & -> & ->).
  apply authenticateOIDC_intro; [exact Hd | exact Ha | lia | exact Hr].
Qed.

Lemma claims_token_good_earlier_witness :
  authenticateOIDC (world_unauthorized 1700000100) (controller true [] []) sample_token
  = (Ok {| User_Name := "github-actions" |},
     [Infof "GitHub Actions OIDC authenticated: actor=%s, repo=%s"
        [arg_s "github-actions"; arg_s "owner/repo"]])
  /\ now (world_alice 1600000000) <= now (world_unauthorized 1700000100)
  /\ Iat sample_payload > now (world_alice 1600000000)
  /\ authenticateOIDC (world_alice 1600000000) (controller true [] []) sample_token
     = (Ok {| User_Name := "github-actions" |},
        [Infof "GitHub Actions OIDC authenticated: actor=%s, repo=%s"
           [arg_s "github-actions"; arg_s "owner/repo"]]).
Proof.
  assert (H : authenticateOIDC (world_unauthorized 1700000100) (controller true [] [])
                sample_token
              = (Ok {| User_Name := "github-actions" |},
                 [Infof "GitHub Actions OIDC authenticated: actor=%s, repo=%s"
                    [arg_s "github-actions"; arg_s "owner/repo"]]))
    by (vm_compute; reflexivity).
  assert (Hw : now (world_alice 1600000000) <= now (world_unauthorized 1700000100))
    by (cbn [now world_alice world_unauthorized]; lia).
  split; [exact H|]. split; [exact Hw|].
  split; [cbn [Iat sample_payload now world_alice]; lia|].
  exact (claims_token_good_earlier (world_unauthorized 1700000100) (world_alice 1600000000)
           (controller true [] []) sample_token _ _ H Hw).
Defined.

(** X13.  Of the three segments of a token only the middle one is read:
    two tokens with the same middle segment, whatever their first and
    third segments are (with no dot inside), decode alike, and the
    claims verifier answers alike for both.  No signature is ever
    verified. *)
Theorem signature_never_checked (w : World) (ac : accessController)
    (header header' payload signature signature' : string) :
  strings.Contains header "." = false ->
  strings.Contains header' "." = false ->
  strings.Contains signature "." = false ->
  strings.Contains signature' "." = false ->
  decodeOIDCToken (header ++ "." ++ payload ++ "." ++ signature)
  = decodeOIDCToken (header' ++ "." ++ payload ++ "." ++ signature')
  /\ authenticateOIDC w ac (header ++ "." ++ payload ++ "." ++ signature)
     = authenticateOIDC w ac (header' ++ "." ++ payload ++ "." ++ signature').
Proof.
  intros Hh Hh' Hs Hs'.
  assert (E : decodeOIDCToken (header ++ "." ++ payload ++ "." ++ signature)
              = decodeOIDCToken (header' ++ "." ++ payload ++ "." ++ signature'))
    by now rewrite !decodeOIDCToken_middle.
  split; [exact E|]. unfold authenticateOIDC. now rewrite E.
Qed.

Lemma signature_never_checked_witness :
  strings.Contains "header" "." = false
  /\ strings.Contains "other" "." = false
  /\ strings.Contains "signed" "." = false
  /\ strings.Contains "forged" "." = false
  /\ decodeOIDCToken ("header" ++ "." ++ "e30" ++ "." ++ "signed")
     = decodeOIDCToken ("other" ++ "." ++ "e30" ++ "." ++ "forged")
  /\ authenticateOIDC (world_unauthorized 0) (controller true [] [])
       ("header" ++ "." ++ "e30" ++ "." ++ "signed")
     = authenticateOIDC (world_unauthorized 0) (controller true [] [])
         ("other" ++ "." ++ "e30" ++ "." ++ "forged").
Proof.
  split; [reflexivity|]. split; [reflexivity|]. split; [reflexivity|]. split; [reflexivity|].
  exact (signature_never_checked (world_unauthorized 0) (controller true [] [])
           "header" "other" "e30" "signed" "forged" eq_refl eq_refl eq_refl eq_refl).
Defined.

(** X14.  A token without an expiry is not good for ever: it is refused.
    When the middle segment is the encoding of a JSON document that has
    no member answering to [exp], and the clock is after the first
    second of 1970, the claims verifier fails, without a log line or a
    call. *)
Theorem claims_without_expiry_refused (w : World) (ac : accessController)
    (header signature : string) (body : list ascii) (v : json.Value) :
  strings.Contains header "." = false ->
  strings.Contains signature "." = false ->
  json.parse (string_of body) = Some v ->
  no_member "exp" v ->
  0 < now w ->
  exists c,
    authenticateOIDC w ac
      (header ++ "." ++ base64.EncodeToString base64.RawURLEncoding body ++ "." ++ signature)
    = (Err c, []).
Proof.
  intros Hh Hs Hp Hn Hw.
  destruct (authenticateOIDC_trace w ac
              (header ++ "." ++ base64.EncodeToString base64.RawURLEncoding body
               ++ "." ++ signature)) as [_ He].
  destruct (authenticateOIDC w ac _) as [[g|c] tr] eqn:E.
  - exfalso. unfold authenticateOIDC in E.
    rewrite (decodeOIDCToken_middle _ _ _ Hh Hs), encoded_no_dot, base64URLDecode_encoded in E.
    pose proof (Unmarshal_no_exp body v Hp Hn) as Ex.
    destruct (json.Unmarshal _ _ _) as [payload [err|]]; [discriminate|].
    cbn [fst] in Ex.
    destruct (negb _ && negb _); [discriminate|].
    assert (Hlt : (Exp payload <? now w) = true) by (apply Z.ltb_lt; lia).
    rewrite Hlt in E. discriminate.
  - exists c. now rewrite (He c tr eq_refl).
Qed.

Lemma claims_without_expiry_refused_witness :
  strings.Contains "header" "." = false
  /\ strings.Contains "signature" "." = false
  /\ json.parse (string_of (bytes_of "{}")) = Some (json.Object [])
  /\ no_member "exp" (json.Object [])
  /\ 0 < now (world_unauthorized 1700000000)
  /\ exists c,
       authenticateOIDC (world_unauthorized 1700000000) (controller true [] [])
         ("header" ++ "."
          ++ base64.EncodeToString base64.RawURLEncoding (bytes_of "{}") ++ "." ++ "signature")
       = (Err c, []).
Proof.
  assert (Hp : json.parse (string_of (bytes_of "{}")) = Some (json.Object []))
    by (vm_compute; reflexivity).
  assert (Hn : no_member "exp" (json.Object [])) by (intros k x []).
  assert (Hw : 0 < now (world_unauthorized 1700000000))
    by (cbn [now world_unauthorized]; lia).
  split; [reflexivity|]. split; [reflexivity|]. split; [exact Hp|].
  split; [exact Hn|]. split; [exact Hw|].
  exact (claims_without_expiry_refused (world_unauthorized 1700000000) (controller true [] [])
           "header" "signature" (bytes_of "{}") (json.Object []) eq_refl eq_refl Hp Hn Hw).
Defined.

(** X15.  [decodeOIDCToken] fails with the format error exactly when the
    token does not hold exactly two dots, that is three segments, empty
    ones included. *)
Theorem decodeOIDCToken_segments (token : string) :
  decodeOIDCToken token = Err (errorString "invalid JWT token format")
  <-> occurrences token "." <> 2%nat.
Proof.
  split; [|apply decodeOIDCToken_format].
  intros H E. revert H. unfold decodeOIDCToken. rewrite Split_length, E.
  cbn [Nat.eqb negb].
  destruct (base64URLDecode _) as [bs [e|]]; [discriminate|].
  destruct (json.Unmarshal _ _ _) as [p [e|]]; discriminate.
Qed.

(** ** [base64URLDecode] *)

(** X16.  [base64URLDecode] gives back every byte sequence from its
    encoding, be it written without padding in the URL alphabet, as the
    tokens are, or with padding in the standard alphabet. *)
Theorem base64URLDecode_round_trip (bs : list ascii) :
  base64URLDecode (base64.EncodeToString base64.RawURLEncoding bs) = (bs, None)
  /\ base64URLDecode (base64.EncodeToString base64.StdEncoding bs) = (bs, None).
Proof.
  split; [apply base64URLDecode_encoded|].
  rewrite base64URLDecode_unfold, pad4_std, EncodeToString_std, to_std_idem.
  apply decode_encoded.
Qed.

(** X17.  A segment in which a byte occurs that is none of the letters,
    digits, plus, slash, minus, underscore, equal sign, carriage return
    and line feed does not decode, wherever the byte stands. *)
Theorem base64URLDecode_foreign_byte (s : string) (c : ascii) :
  strings.Contains s c = true ->
  strings.Contains accepted_bytes c = false ->
  exists bs e, base64URLDecode s = (bs, Some e).
Proof.
  intros Hs Hc. rewrite base64URLDecode_unfold, pad4_added, to_std_app.
  unfold base64.DecodeString.
  apply (decode_stops (std_char c)); [now apply not_accepted_stops|].
  rewrite Contains_app, (Contains_to_std s c Hs). reflexivity.
Qed.

Lemma base64URLDecode_foreign_byte_witness :
  strings.Contains "!!invalid!!" "!" = true
  /\ strings.Contains accepted_bytes "!" = false
  /\ exists bs e, base64URLDecode "!!invalid!!" = (bs, Some e).
Proof.
  split; [reflexivity|]. split; [reflexivity|].
  exact (base64URLDecode_foreign_byte "!!invalid!!" "!" eq_refl eq_refl).
Defined.

(** ** The challenge *)


(** ** From the options to the grant *)

(** X19.  The claims path from end to end.  A controller constructed with
    [enable_oidc] true, the audience of a payload as [oidc_audience],
    and either no [allowed_repos] or a list in which the repository of
    the payload occurs, grants a request whose header is [Bearer] and
    the wire form of that payload, at any time up to the [exp] of the
    payload: in the name of the [actor], with one log line and no
    call. *)
Theorem configured_claims_end_to_end (options : gmap string Any) (ac : accessController)
    (w : World) (req : http.Request) (p : oidcTokenPayload) (header signature : string) :
  newAccessController options = Ok ac ->
  options !! "enable_oidc" = Some (any_bool true) ->
  options !! "oidc_audience" = Some (any_string (Aud p)) ->
  (options !! "allowed_repos" = None
   \/ exists l, options !! "allowed_repos" = Some (any_slice l)
                /\ In (any_string (Repository p)) l) ->
  valid_payload p ->
  strings.Contains header "." = false ->
  strings.Contains signature "." = false ->
  now w <= Exp p ->
  http.Get (http.Headers req) "Authorization" = "Bearer " ++ wire header p signature ->
  Authorized w ac req
  = (Ok {| User_Name := Actor p |},
     [Infof "GitHub Actions OIDC authenticated: actor=%s, repo=%s"
        [arg_s (Actor p); arg_s (Repository p)]]).
Proof.
  intros Hb Ho Ha Hr Hp Hh Hs He Hreq.
  unfold newAccessController in Hb.
  destruct (as_string (options !! "realm")) as [r|]; [|discriminate].
  injection Hb as <-.
  rewrite (Authorized_well_formed w _ req (wire header p signature))
    by (split; [apply wire_not_empty | now left]).
  unfold verify. cbn [enableOIDC]. rewrite Ho.
  rewrite (authenticateOIDC_intro w _ _ p); [reflexivity | now apply wire_decodes | | exact He |].
  - unfold audience_accepted. cbn [oidcAudience]. rewrite Ha. cbn [as_string].
    destruct (String.eqb_spec (Aud p) EmptyString) as [E|E]; [now left | now right].
  - unfold repository_accepted. cbn [allowedRepos].
    destruct Hr as [-> | (l & -> & Hin)]; [now left|].
    right. now apply strings_in_In.
Qed.

Lemma configured_claims_end_to_end_witness :
  newAccessController options_claims = Ok (controller true [] ["owner/repo"])
  /\ options_claims !! "enable_oidc" = Some (any_bool true)
  /\ options_claims !! "oidc_audience" = Some (any_string (Aud sample_payload))
  /\ (options_claims !! "allowed_repos" = None
      \/ exists l, options_claims !! "allowed_repos" = Some (any_slice l)
                   /\ In (any_string (Repository sample_payload)) l)
  /\ valid_payload sample_payload
  /\ strings.Contains "header" "." = false
  /\ strings.Contains "signature" "." = false
  /\ now (world_unauthorized 1700000100) <= Exp sample_payload
  /\ http.Get
       (http.Headers (request_with ("Bearer " ++ wire "header" sample_payload "signature")))
       "Authorization"
     = "Bearer " ++ wire "header" sample_payload "signature"
  /\ Authorized (world_unauthorized 1700000100) (controller true [] ["owner/repo"])
       (request_with ("Bearer " ++ wire "header" sample_payload "signature"))
     = (Ok {| User_Name := Actor sample_payload |},
        [Infof "GitHub Actions OIDC authenticated: actor=%s, repo=%s"
           [arg_s (Actor sample_payload); arg_s (Repository sample_payload)]]).
Proof.
  assert (Hb : newAccessController options_claims = Ok (controller true [] ["owner/repo"]))
    by (vm_compute; reflexivity).
  assert (Ho : options_claims !! "enable_oidc" = Some (any_bool true))
    by (vm_compute; reflexivity).
  assert (Ha : options_claims !! "oidc_audience" = Some (any_string (Aud sample_payload)))
    by (vm_compute; reflexivity).
  assert (Hr : options_claims !! "allowed_repos" = None
               \/ exists l, options_claims !! "allowed_repos" = Some (any_slice l)
                            /\ In (any_string (Repository sample_payload)) l).
  { right. exists [any_string "owner/repo"].
    split; [vm_compute; reflexivity | left; reflexivity]. }
  assert (He : now (world_unauthorized 1700000100) <= Exp sample_payload)
    by (cbn [now world_unauthorized Exp sample_payload]; lia).
  assert (Hq : http.Get
                 (http.Headers
                    (request_with ("Bearer " ++ wire "header" sample_payload "signature")))
                 "Authorization"
               = "Bearer " ++ wire "header" sample_payload "signature")
    by (vm_compute; reflexivity).
  split; [exact Hb|]. split; [exact Ho|]. split; [exact Ha|]. split; [exact Hr|].
  split; [exact sample_valid|]. split; [reflexivity|]. split; [reflexivity|].
  split; [exact He|]. split; [exact Hq|].
  exact (configured_claims_end_to_end options_claims (controller true [] ["owner/repo"])
           (world_unauthorized 1700000100)
           (request_with ("Bearer " ++ wire "header" sample_payload "signature"))
           sample_payload "header" "signature" Hb Ho Ha Hr sample_valid eq_refl eq_refl He Hq).
Defined.

(** X20.  Switching the claims verifier on locks nobody out: between two
    controllers that differ in [enableOIDC] only, a request that is
    granted with the verifier off is granted with it on. *)
Theorem claims_verifier_only_widens (w : World) (ac : accessController) (req : http.Request)
    (g : Grant) :
  fst (Authorized w (with_oidc ac false) req) = Ok g ->
  exists g', fst (Authorized w (with_oidc ac true) req) = Ok g'.
Proof.
  intros H.
  destruct (classic_header (http.Get (http.Headers req) "Authorization")) as [[t Ht]|Hn].
  2: { rewrite (Authorized_ill_formed _ _ req Hn) in H. discriminate. }
  rewrite (Authorized_with_oidc w ac false req t Ht) in H.
  rewrite (Authorized_with_oidc w ac true req t Ht).
  destruct (fst (authenticateOIDC w ac t)) as [g'|c]; [now exists g' | now exists g].
Qed.

Lemma claims_verifier_only_widens_witness :
  fst (Authorized world_testuser (with_oidc (controller false [] []) false)
         (request_with "Bearer valid-token"))
  = Ok {| User_Name := "testuser" |}
  /\ exists g',
       fst (Authorized world_testuser (with_oidc (controller false [] []) true)
              (request_with "Bearer valid-token")) = Ok g'.
Proof.
  assert (H : fst (Authorized world_testuser (with_oidc (controller false [] []) false)
                     (request_with "Bearer valid-token"))
              = Ok {| User_Name := "testuser" |})
    by (vm_compute; reflexivity).
  split; [exact H|].
  exact (claims_verifier_only_widens world_testuser (controller false [] [])
           (request_with "Bearer valid-token") _ H).
Defined.

(** * Further checks from the test suite of the package *)

Example scheme_Basic (w : World) (ac : accessController) :
  Authorized w ac (request_with "Basic xyz") = (Err (mkchallenge ac ErrInvalidCredential), []).
Proof. reflexivity. Qed.

Example scheme_empty_token (w : World) (ac : accessController) :
  Authorized w ac (request_with "Bearer ") = (Err (mkchallenge ac ErrInvalidCredential), []).
Proof. reflexivity. Qed.

Example scheme_missing (w : World) (ac : accessController) :
  Authorized w ac request_without = (Err (mkchallenge ac ErrInvalidCredential), []).
Proof. reflexivity. Qed.

Example scheme_lower_case (w : World) (ac : accessController) :
  Authorized w ac (request_with "bearer abc") = (Err (mkchallenge ac ErrInvalidCredential), []).
Proof. reflexivity. Qed.

Example scheme_Bearer (w : World) (ac : accessController) :
  Authorized w ac (request_with "Bearer abc") = verify w ac "abc".
Proof. reflexivity. Qed.

Example scheme_token (w : World) (ac : accessController) :
  Authorized w ac (request_with "token abc") = verify w ac "abc".
Proof. reflexivity. Qed.

Example remote_verification_alice :
  Authorized (world_alice 0) (controller false [] []) (request_with "Bearer valid")
  = (Ok {| User_Name := "alice" |},
     [Sent (api_request "https://api.github.com/user" "valid");
      Infof "GitHub user %s authenticated successfully" [arg_s "alice"]]).
Proof. vm_compute. reflexivity. Qed.

Example membership_denied :
  Authorized (world_alice 0) (controller false ["org1"; "org2"] []) (request_with "Bearer valid")
  = (Err {| ch_realm := "test-realm"; ch_err := ErrAuthenticationFailure |},
     [Sent (api_request "https://api.github.com/user" "valid");
      Sent (api_request "https://api.github.com/orgs/org1/members/alice" "valid");
      Sent (api_request "https://api.github.com/orgs/org2/members/alice" "valid");
      Errorf "user %s is not a member of allowed organizations" [arg_s "alice"]]).
Proof. vm_compute. reflexivity. Qed.

Example base64URLDecode_hello :
  base64URLDecode (base64.EncodeToString base64.RawURLEncoding (bytes_of "hello world"))
  = (bytes_of "hello world", None).
Proof. vm_compute. reflexivity. Qed.

Example decode_null_payload :
  decodeOIDCToken "a.bnVsbA.c" = Ok oidcTokenPayload_zero.
Proof. vm_compute. reflexivity. Qed.

Example decode_two_segments :
  decodeOIDCToken "invalid.token" = Err (errorString "invalid JWT token format").
Proof. vm_compute. reflexivity. Qed.

Example decode_bad_base64 :
  decodeOIDCToken "header.!!invalid!!.signature"
  = Err (wrapError "failed to decode token payload: " (CorruptInputError 0)).
Proof. vm_compute. reflexivity. Qed.
